(** * Mapping-Microglia-Parameters: FracLac result combiner and skeleton metrics

    A shallow embedding of the two Fiji/Jython scripts of the repository,

    - [src/FracLacDataCombiner.py]: folder discovery, column mapping,
      filename recovery, row extraction, the merge of partial records into
      one table and the cells of the combined CSV;
    - [src/FracLacPrep.py], preparation part: the cleaning loop and the
      batches; skeleton-analysis part: cell-name stripping, the metrics of a
      mask and the results table;

    followed by the properties the specification states about them and by
    further properties of the same code.

    Conventions of the embedding.
    - A Python [str] is a Rocq [string] (a sequence of 8-bit characters, as the
      byte strings of Jython 2.7 are); [re.IGNORECASE] folds the ASCII letters.
    - A Python [dict] used as a map is a [gmap]; where the code walks a
      sequence in order (the header row, one row of the file, the prefix
      table as written) the embedding keeps a list.
    - The metrics of a mask are first written over exact rationals ([Qc]),
      which says which expression is evaluated; a division by zero is the
      error [ZeroDivisionError], as in Python. A Python [float] is an IEEE-754
      double: where rounding, overflow or NaN matter (the areas and the
      branching density) the expressions are evaluated on doubles, with the
      operations of [SpecFloat] ([Ieee]).
    - [try]/[except] is explicit: a computation that can raise returns an
      [outcome], a call into the toolkit that can raise is a [call], and the
      lines of a file are read as events that can be an exception.
    - A regular expression is its syntax tree, run by a backtracking matcher
      with the lazy and greedy repetition of [re]. *)

From stdpp Require Import gmap strings list fin_maps sorting.
From Stdlib Require Import Ascii QArith Qcanon DecimalString DecimalZ SpecFloat.

Close Scope Q_scope.
Close Scope Qc_scope.

(** ** Python string primitives *)

Module PyStr.

(** The characters [str.strip()] removes from a byte string: tab, line feed,
    vertical tab, form feed, carriage return and space. *)
Definition is_space (c : ascii) : bool :=
  match c with
  | "009" | "010" | "011" | "012" | "013" | " " => true
  | _ => false
  end%char.

Definition is_newline (c : ascii) : bool := Ascii.eqb c "010".

Definition is_upper (c : ascii) : bool :=
  let n := nat_of_ascii c in (65 <=? n)%nat && (n <=? 90)%nat.

(** [c.lower()] on one ASCII character. *)
Definition lower (c : ascii) : ascii :=
  if is_upper c then ascii_of_nat (nat_of_ascii c + 32) else c.

(** [s.lower()] *)
Fixpoint str_lower (s : string) : string :=
  match s with
  | EmptyString => EmptyString
  | String c r => String (lower c) (str_lower r)
  end.

(** [s.lstrip()], [s.rstrip()] and [s.strip()] *)
Fixpoint lstrip (s : string) : string :=
  match s with
  | EmptyString => EmptyString
  | String c r => if is_space c then lstrip r else s
  end.

Fixpoint rstrip (s : string) : string :=
  match s with
  | EmptyString => EmptyString
  | String c r =>
      match rstrip r with
      | EmptyString => if is_space c then EmptyString else String c EmptyString
      | r' => String c r'
      end
  end.

Definition strip (s : string) : string := rstrip (lstrip s).

(** [s.startswith(p)] and [s.endswith(p)] *)
Fixpoint startswith (p s : string) : bool :=
  match p, s with
  | EmptyString, _ => true
  | String a p', String c s' => Ascii.eqb a c && startswith p' s'
  | String _ _, EmptyString => false
  end.

Fixpoint endswith (p s : string) : bool :=
  (String.length s =? String.length p)%nat && startswith p s
  || match s with
     | EmptyString => false
     | String _ r => endswith p r
     end.

(** [s[:n]] *)
Fixpoint take (n : nat) (s : string) : string :=
  match n, s with
  | S k, String c r => String c (take k r)
  | _, _ => EmptyString
  end.

(** [s[n:]] *)
Fixpoint drop (n : nat) (s : string) : string :=
  match n, s with
  | S k, String _ r => drop k r
  | _, _ => s
  end.

Arguments take : simpl nomatch.
Arguments drop : simpl nomatch.
Arguments startswith : simpl nomatch.

(** [s.split(m)[0]] when [m in s]: the text before the first occurrence of
    [m]; [None] when [m] does not occur. *)
Fixpoint before (m s : string) : option string :=
  if startswith m s then Some EmptyString
  else match s with
       | EmptyString => None
       | String c r => String c <$> before m r
       end.

(** [m in s] *)
Definition contains (m s : string) : bool := bool_decide (is_Some (before m s)).

(** The truth value of a string: [if s:] *)
Definition truthy (s : string) : bool :=
  match s with EmptyString => false | _ => true end.

End PyStr.

(** ** The regular expressions of the scripts

    The fragment of [re] the two scripts use, run the way [re] runs it: the
    alternatives of a pattern are tried in order of priority, each with the
    rest of the pattern as its continuation, and the first that lets the
    whole pattern match wins. A lazy quantifier tries the shortest
    repetition first, a greedy one the longest. *)

Module Regex.
Import PyStr.

Inductive regex :=
  | Eps                              (* the empty pattern *)
  | Chr (f : ascii → bool)           (* one character of a class *)
  | Seq (r1 r2 : regex)              (* r1 r2 *)
  | Opt (r : regex)                  (* r? *)
  | PlusLazy (f : ascii → bool)      (* [f]+? *)
  | PlusGreedy (f : ascii → bool)    (* [f]+ *)
  | Mark                             (* the closing parenthesis of group 1 *)
  | Eos.                             (* $ *)

(** [$] without [re.MULTILINE]: at the end of the text, or just before a line
    feed that ends it. *)
Definition at_end (s : string) : bool :=
  match s with
  | EmptyString => true
  | String c EmptyString => is_newline c
  | _ => false
  end.

Section run.
Context {R : Type}.

(** [pos] counts the characters matched so far; the continuation gets the
    rest of the text and the count. *)
Fixpoint plus_lazy (f : ascii → bool) (s : string) (pos : nat)
    (k : string → nat → option R) : option R :=
  match s with
  | EmptyString => None
  | String c t =>
      if f c then
        match k t (S pos) with
        | Some x => Some x
        | None => plus_lazy f t (S pos) k
        end
      else None
  end.

Fixpoint plus_greedy (f : ascii → bool) (s : string) (pos : nat)
    (k : string → nat → option R) : option R :=
  match s with
  | EmptyString => None
  | String c t =>
      if f c then
        match plus_greedy f t (S pos) k with
        | Some x => Some x
        | None => k t (S pos)
        end
      else None
  end.

(** [mark] is the count at which group 1 was closed. *)
Fixpoint run (r : regex) (s : string) (pos mark : nat)
    (k : string → nat → nat → option R) : option R :=
  match r with
  | Eps => k s pos mark
  | Chr f =>
      match s with
      | String c t => if f c then k t (S pos) mark else None
      | EmptyString => None
      end
  | Seq r1 r2 => run r1 s pos mark (λ t p m, run r2 t p m k)
  | Opt r =>
      match run r s pos mark k with
      | Some x => Some x
      | None => k s pos mark
      end
  | PlusLazy f => plus_lazy f s pos (λ t p, k t p mark)
  | PlusGreedy f => plus_greedy f s pos (λ t p, k t p mark)
  | Mark => k s pos pos
  | Eos => if at_end s then k s pos mark else None
  end.

End run.

(** The pattern tried at the head of the text: the lengths of group 1 and of
    the whole match. The patterns below open group 1 where they start. *)
Definition match_at (r : regex) (s : string) : option (nat * nat) :=
  run r s 0 0 (λ _ p m, Some (m, p)).

(** [re.search(r, s)], group 1: the first start, from the left, at which the
    pattern matches. *)
Fixpoint search (r : regex) (s : string) : option string :=
  match match_at r s with
  | Some (g, _) => Some (take g s)
  | None => match s with
            | EmptyString => None
            | String _ t => search r t
            end
  end.

(** [re.sub(r, '', s)] for a pattern that matches no empty text: the matches
    are found from left to right and left out. [skip] counts the characters
    of the current match still to leave out. *)
Fixpoint sub_go (m : string → option nat) (skip : nat) (s : string) : string :=
  match s with
  | EmptyString => EmptyString
  | String c r =>
      match skip with
      | S k => sub_go m k r
      | O =>
          match m s with
          | Some (S len) => sub_go m len r
          | _ => String c (sub_go m 0 r)
          end
      end
  end.

Definition match_length (r : regex) (s : string) : option nat :=
  snd <$> match_at r s.

Definition re_sub_delete (r : regex) (s : string) : string :=
  sub_go (match_length r) 0 s.

(** A literal; with [fold] its letters match in either case
    ([re.IGNORECASE]). *)
Fixpoint lit (fold : bool) (p : string) : regex :=
  match p with
  | EmptyString => Eps
  | String a p' =>
      Seq (Chr (λ c, if fold then Ascii.eqb (lower c) (lower a) else Ascii.eqb a c))
          (lit fold p')
  end.

(** [.] *)
Definition dot (c : ascii) : bool := negb (is_newline c).

(** [[^/\\]] *)
Definition is_slash (c : ascii) : bool := Ascii.eqb c "/" || Ascii.eqb c "\".
Definition not_slash (c : ascii) : bool := negb (is_slash c).

(** [\d] and [[3-8]] *)
Definition is_digit (c : ascii) : bool :=
  let n := nat_of_ascii c in (48 <=? n)%nat && (n <=? 57)%nat.

Definition is_digit_3_8 (c : ascii) : bool :=
  let n := nat_of_ascii c in (51 <=? n)%nat && (n <=? 56)%nat.

End Regex.

(** ** FilenameRecoverer ([cleanFilename], [extractFilenameFromRow]) *)

Module Recover.
Import PyStr Regex.

(** [(.+?_mask)\.?tif] with [re.IGNORECASE] *)
Definition re_mask_name : regex :=
  Seq (PlusLazy dot)
      (Seq (lit true "_mask") (Seq Mark (Seq (Opt (lit true ".")) (lit true "tif")))).

(** [([^/\\]+\.tif)] with [re.IGNORECASE] *)
Definition re_tif_name : regex :=
  Seq (PlusGreedy not_slash) (Seq (lit true ".tif") Mark).

Definition markers : list string := ["ImageDescription"; "Software"; "tifffile"].

(** The text the marker branch searches: the first half of what precedes the
    marker. *)
Definition halved (before_marker : string) : string :=
  take (String.length before_marker / 2) before_marker.

(** The [for marker in markers] loop of [cleanFilename]; [Some] is its
    [return]. *)
Fixpoint marker_loop (ms : list string) (value : string) : option string :=
  match ms with
  | [] => None
  | marker :: rest =>
      match before marker value with
      | Some before_marker =>
          match search re_mask_name (halved before_marker) with
          | Some g => Some (g +:+ ".tif")
          | None => marker_loop rest value
          end
      | None => marker_loop rest value
      end
  end.



Definition cleanFilename (value : string) : string :=
  if negb (truthy value) then "unknown"
  else
    let value := strip value in
    match marker_loop markers value with
    | Some r => r
    | None =>
        match search re_mask_name value with
        | Some g => g +:+ ".tif"
        | None =>
            match search re_tif_name value with
            | Some m => m
            | None => "unknown_" +:+ take 30 value
            end
        end
    end.

(** One row of the tab-delimited file as [csv.DictReader] yields it: the
    headers with their cells, in the order of the header row. A cell is
    [None] where the line is shorter than the header row. A line longer than
    the header row (its surplus cells are stored under the key [None], on
    which [key.startswith] raises) is an exception at that line: a
    [ReadError] of the reader below. *)
Definition row : Type := list (string * option string).

(** [str(value)] of a cell. *)
Definition py_str (value : option string) : string :=
  match value with Some s => s | None => "None" end.

(** [cleanFilename] applied to a cell: [not None] holds, as [not ''] does. *)
Definition cleanFilename_cell (value : option string) : string :=
  match value with Some s => cleanFilename s | None => "unknown" end.

(** First loop of [extractFilenameFromRow]: the cell of the first header
    that starts with ['1.']. *)
Fixpoint primary_cell (r : row) : option (option string) :=
  match r with
  | [] => None
  | (key, value) :: rest =>
      if startswith "1." key then Some value else primary_cell rest
  end.

(** Second loop: the first cell holding ['_mask'] or ['.tif'] whose cleaned
    form is not a placeholder. *)
Fixpoint scan_cells (values : list (option string)) : option string :=
  match values with
  | [] => None
  | value :: rest =>
      let value_str := py_str value in
      if contains "_mask" (str_lower value_str) || contains ".tif" (str_lower value_str)
      then
        let result := cleanFilename value_str in
        if truthy result && negb (startswith "unknown" result) then Some result
        else scan_cells rest
      else scan_cells rest
  end.

Definition extractFilenameFromRow (r : row) : string :=
  match primary_cell r with
  | Some value => cleanFilename_cell value
  | None =>
      match scan_cells (r.*2) with
      | Some result => result
      | None => "unknown"
      end
  end.

End Recover.

(** ** ColumnMapper, RowExtractor and RecordMerger ([processFracLacFile], [main]) *)

Module Combiner.
Import PyStr Recover.

(** The prefix table of [main], in the order it is written. *)
Definition column_map : list (string * string) :=
  [ ("6.", "fractal_dimension");
    ("87.", "lacunarity");
    ("131.", "density");
    ("132.", "span_ratio");
    ("134.", "maximum_span_across_hull");
    ("135.", "convex_hull_area");
    ("136.", "convex_hull_perimeter");
    ("137.", "convex_hull_circularity");
    ("140.", "maximum_radius_from_hulls_centre_of_mass");
    ("141.", "max_min_radii");
    ("142.", "cv_for_all_radii");
    ("143.", "mean_radius");
    ("145.", "diameter_of_bounding_circle");
    ("146.", "maximum_radius_from_circles_centre");
    ("147.", "max_min_radii_from_circles_centre");
    ("148.", "cv_for_all_radii_from_circles_centre");
    ("149.", "mean_radius_from_circles_centre") ].

(** [for col in fieldnames: if col.startswith(pattern): ...; break] *)
Fixpoint first_match (pattern : string) (fieldnames : list string) : option string :=
  match fieldnames with
  | [] => None
  | col :: rest =>
      if startswith pattern col then Some col else first_match pattern rest
  end.

(** The assignments [actualColumns[col] = name] the two loops execute, in
    the order they are executed. *)
Fixpoint bindings (cm : list (string * string)) (fieldnames : list string)
  : list (string * string) :=
  match cm with
  | [] => []
  | (pattern, name) :: rest =>
      match first_match pattern fieldnames with
      | Some col => (col, name) :: bindings rest fieldnames
      | None => bindings rest fieldnames
      end
  end.

(** The dictionary [actualColumns] after the loops: header to canonical name. *)
Definition actualColumns (cm : list (string * string)) (fieldnames : list string)
  : gmap string string :=
  foldl (λ acc b, <[b.1 := b.2]> acc) ∅ (bindings cm fieldnames).

(** [row[col]] when [col in row]. *)
Fixpoint row_get (col : string) (r : row) : option (option string) :=
  match r with
  | [] => None
  | (key, value) :: rest =>
      if String.eqb key col then Some value else row_get col rest
  end.

(** The value [processFracLacFile] keeps for a column of a row, if any:
    present, non-empty, not ['Not Calculated'], not blank. *)
Definition measurement (col : string) (r : row) : option string :=
  match row_get col r with
  | Some (Some value) =>
      if truthy value && negb (String.eqb value "Not Calculated") && truthy (strip value)
      then Some value else None
  | _ => None
  end.

(** [data[filename][newName] = value] *)
Definition set_field (filename newName value : string)
    (data : gmap string (gmap string string)) : gmap string (gmap string string) :=
  alter (λ rec, <[newName := value]> rec) filename data.

(** The body of [for row in reader]. *)
Definition process_row (cols : gmap string string) (r : row)
    (data : gmap string (gmap string string)) : gmap string (gmap string string) :=
  let filename := extractFilenameFromRow r in
  let data :=
    match data !! filename with
    | Some _ => data
    | None => <[filename := {["filename" := filename]}]> data
    end in
  map_fold (λ col newName data,
              match measurement col r with
              | Some value => set_field filename newName value data
              | None => data
              end) data cols.

(** What the reader yields line by line: a row, or an exception. *)
Inductive read_event :=
  | Row (r : row)
  | ReadError (e : string).

(** A source file: [open] fails, or the file has a header row
    ([reader.fieldnames], [None] for an empty file) and lines. *)
Inductive source_file :=
  | CannotOpen (e : string)
  | Opened (fieldnames : option (list string)) (lines : list read_event).

(** [for row in reader] inside the [try]: the rows read before an exception
    stay in [data]. The second component is the exception, if any. *)
Fixpoint read_rows (cols : gmap string string) (lines : list read_event)
    (data : gmap string (gmap string string))
  : gmap string (gmap string string) * option string :=
  match lines with
  | [] => (data, None)
  | Row r :: rest => read_rows cols rest (process_row cols r data)
  | ReadError e :: _ => (data, Some e)
  end.

Definition error_line (e : string) : string := "  ERROR: " +:+ e.

(** [processFracLacFile]: the dictionary it returns and the lines it prints.
    Iterating over the header row of an empty file raises [TypeError] (when
    the prefix table is not empty). *)
Definition processFracLacFile (boxCountFile : source_file) (cm : list (string * string))
  : gmap string (gmap string string) * list string :=
  match boxCountFile with
  | CannotOpen e => (∅, [error_line e])
  | Opened fieldnames lines =>
      match fieldnames, cm with
      | None, _ :: _ => (∅, [error_line "'NoneType' object is not iterable"])
      | _, _ =>
          let cols := actualColumns cm (default [] fieldnames) in
          match read_rows cols lines ∅ with
          | (data, Some e) => (data, [error_line e])
          | (data, None) => (data, [])
          end
      end
  end.

(** The merge of one file's records into [allData]:
    [allData[filename].update(measurements)] or [allData[filename] = measurements]. *)
Definition merge_record (filename : string) (measurements : gmap string string)
    (allData : gmap string (gmap string string)) : gmap string (gmap string string) :=
  match allData !! filename with
  | Some existing => <[filename := measurements ∪ existing]> allData
  | None => <[filename := measurements]> allData
  end.

Definition merge_folder (folderData allData : gmap string (gmap string string))
  : gmap string (gmap string string) :=
  map_fold merge_record allData folderData.

(** The folder loop of [main] over the folders in processing order. A folder
    without a [.txt] summary file is skipped ([None]). *)
Fixpoint process_folders (folders : list (option source_file))
    (allData : gmap string (gmap string string)) (printed : list string)
  : gmap string (gmap string (string)) * list string :=
  match folders with
  | [] => (allData, printed)
  | None :: rest => process_folders rest allData printed
  | Some boxCountFile :: rest =>
      let '(folderData, out) := processFracLacFile boxCountFile column_map in
      process_folders rest (merge_folder folderData allData) (printed ++ out)
  end.

(** [sorted(...)] on strings. *)
Definition sorted (l : list string) : list string := merge_sort String.le l.

Instance folder_le_dec {A} : RelDecision (λ a b : string * A, String.le a.1 b.1).
Proof. intros a b. apply _. Defined.

Instance folder_le_total {A} : Total (λ a b : string * A, String.le a.1 b.1).
Proof. intros a b. apply (total String.le). Qed.

Instance folder_le_trans {A} : Transitive (λ a b : string * A, String.le a.1 b.1).
Proof. intros a b c. apply (transitivity (R := String.le)). Qed.

(** [sorted(fracLacFolders)]: the folders by path. *)
Definition sorted_folders {A} (folders : list (string * A)) : list (string * A) :=
  merge_sort (λ a b, String.le a.1 b.1) folders.

Definition keys (allData : gmap string (gmap string string)) : list string :=
  (map_to_list allData).*1.

(** The rows handed to [writer.writerow], in order. *)
Definition written_rows (allData : gmap string (gmap string string))
  : list (gmap string string) :=
  (λ filename, allData !!! filename) <$> sorted (keys allData).

(** [columnOrder]: ['filename'] first, then the other field names sorted. *)
Definition columnOrder (allData : gmap string (gmap string string)) : list string :=
  let allColumns : gset string :=
    map_fold (λ _ data acc, dom data ∪ acc) ∅ allData in
  "filename" :: sorted (elements (allColumns ∖ {["filename"]})).

(** [main] from the folder loop on: the table, the lines
    [processFracLacFile] prints (its [  ERROR: ] lines; the progress lines and
    the messages of [main] itself, among them those of lines 94 and 151, are
    not part of the model) and, unless no data was extracted, the header and
    rows of the combined CSV. *)
Definition main (fracLacFolders : list (string * option source_file))
  : gmap string (gmap string string) * list string
    * option (list string * list (gmap string string)) :=
  let '(allData, printed) :=
    process_folders ((sorted_folders fracLacFolders).*2) ∅ [] in
  (allData, printed,
   if decide (allData = ∅) then None
   else Some (columnOrder allData, written_rows allData)).

End Combiner.

(** ** SkeletonMetricAssembler ([analyzeSkeleton]) *)

Module Skeleton.
Import PyStr Regex.

(** *** Cell name *)

(** [_mask\.tif$] *)
Definition re_mask_suffix : regex := Seq (lit false "_mask.tif") Eos.

(** [_area[3-8]\d{2}_mask\.tif$] *)
Definition re_area3_suffix : regex :=
  Seq (lit false "_area")
      (Seq (Chr is_digit_3_8) (Seq (Chr is_digit) (Seq (Chr is_digit) re_mask_suffix))).

(** [_area\d+_mask\.tif$] *)
Definition re_area_suffix : regex :=
  Seq (lit false "_area") (Seq (PlusGreedy is_digit) re_mask_suffix).

(** The cell name [analyzeSkeleton] derives from [os.path.basename(maskPath)]. *)
Definition cellName (baseName : string) : string :=
  let cellName := re_sub_delete re_area3_suffix baseName in
  let cellName :=
    if String.eqb cellName baseName then re_sub_delete re_area_suffix baseName
    else cellName in
  if String.eqb cellName baseName || endswith "_mask" cellName
  then re_sub_delete re_mask_suffix baseName
  else cellName.

(** Stripping a trailing suffix, following the words of the specification. *)

(** [s] is [_area<digits>_mask.tif] with a number of digits that [ok] admits. *)
Fixpoint digit_run (s : string) : nat :=
  match s with
  | String c r => if is_digit c then S (digit_run r) else 0
  | EmptyString => 0
  end.

Definition is_area_suffix (ok : nat → bool) (s : string) : bool :=
  startswith "_area" s
  && ok (digit_run (drop 5 s))
  && String.eqb (drop (digit_run (drop 5 s)) (drop 5 s)) "_mask.tif".

(** The stem [t] with [s = t ++ suffix] for a suffix that [suffix] accepts. *)
Fixpoint strip_suffix (suffix : string → bool) (s : string) : option string :=
  if suffix s then Some EmptyString
  else match s with
       | EmptyString => None
       | String c r => String c <$> strip_suffix suffix r
       end.

Definition spec_cellName (baseName : string) : string :=
  match strip_suffix (is_area_suffix (λ n, (3 <=? n)%nat && (n <=? 8)%nat)) baseName with
  | Some stem => stem
  | None =>
      match strip_suffix (is_area_suffix (λ n, (1 <=? n)%nat)) baseName with
      | Some stem => stem
      | None =>
          match strip_suffix (String.eqb "_mask.tif") baseName with
          | Some stem => stem
          | None => baseName
          end
      end
  end.

(** *** Metrics *)

(** The metrics are written here over exact rationals: the definitions say
    which expression [analyzeSkeleton] evaluates in which case. What the
    doubles of Jython make of the area and density expressions (rounding,
    overflow, NaN) is in [Ieee] below. *)

(** The result of a computation that can raise. *)
Inductive outcome (A : Type) :=
  | Ok (a : A)
  | Raise (e : string).
Arguments Ok {A} a.
Arguments Raise {A} e.

(** The result of a call into the analyzer. *)
Inductive call (A : Type) :=
  | Returned (a : A)
  | Raised.
Arguments Returned {A} a.
Arguments Raised {A}.

Definition Qc_ltb (x y : Qc) : bool :=
  match (x ?= y)%Qc with Lt => true | _ => false end.

(** [x / y] on floats. *)
Definition py_div (x y : Qc) : outcome Qc :=
  if Qc_eq_dec y 0 then Raise "ZeroDivisionError" else Ok (x / y)%Qc.

(** [int(a[0]) if len(a) > 0 else 0] *)
Definition first_or_zero (a : list Z) : Z :=
  match a with x :: _ => x | [] => 0%Z end.

(** The pixels [> 0] of an image given by its rows. *)
Definition pixel_count (image : list (list Z)) : Z :=
  Z.of_nat (length (filter (λ p, bool_decide (0 < p)%Z) (concat image))).

(** [count * (pixelSize * pixelSize)], without rounding. *)
Definition calibrated_area (count : Z) (pixelSize : Qc) : Qc :=
  (Qc_of_Z count * (pixelSize * pixelSize))%Qc.

(** The [try]/[except] around [result.getAverageBranchLength()]. *)
Definition avgBranchLength (getAverageBranchLength : call (option (list Qc)))
    (numBranches numSlabVoxels : Z) (pixelSize : Qc) : outcome Qc :=
  match getAverageBranchLength with
  | Returned (Some (x :: _)) => Ok x
  | Returned _ => Ok 0%Qc
  | Raised =>
      if (0 <? numBranches)%Z && (0 <? numSlabVoxels)%Z
      then py_div (Qc_of_Z numSlabVoxels * pixelSize)%Qc (Qc_of_Z numBranches)
      else Ok 0%Qc
  end.



(** [totalSkeletonLength], without rounding. *)
Definition totalSkeletonLength (avg : Qc) (numBranches numSlabVoxels : Z)
    (pixelSize : Qc) : Qc :=
  if Qc_ltb 0 avg && (0 <? numBranches)%Z
  then (avg * Qc_of_Z numBranches)%Qc
  else (Qc_of_Z numSlabVoxels * pixelSize)%Qc.

(** [metrics['branching_density']] of exact areas; [Ieee.branching_density]
    is the one of doubles. *)
Definition branching_density (maskArea skeletonArea : Qc) : outcome Qc :=
  if Qc_ltb 0 maskArea then py_div skeletonArea maskArea else Ok 0%Qc.

(** What [analyzeSkeleton] is given: the file name, the calibration, the mask,
    the skeleton the toolkit derives from it and the analyzer's answers. *)
Record analysis := {
  baseName : string;
  pixelSize : Qc;
  mask : list (list Z);
  skel : list (list Z);
  branches : list Z;
  slabVoxels : list Z;
  getAverageBranchLength : call (option (list Qc));
}.

Record metrics := {
  cell_name : string;
  mask_area_um2 : Qc;
  num_branches : Z;
  num_slab_voxels : Z;
  avg_branch_length_um : Qc;
  total_skeleton_length_um : Qc;
  skeleton_area_um2 : Qc;
  branching_density_value : Qc;
}.

(** The part of [analyzeSkeleton] that derives these metrics. *)
Definition analyzeSkeleton (a : analysis) : outcome metrics :=
  let maskArea := calibrated_area (pixel_count (mask a)) (pixelSize a) in
  let numBranches := first_or_zero (branches a) in
  let numSlabVoxels := first_or_zero (slabVoxels a) in
  match avgBranchLength (getAverageBranchLength a) numBranches numSlabVoxels (pixelSize a) with
  | Raise e => Raise e
  | Ok avg =>
      let total := totalSkeletonLength avg numBranches numSlabVoxels (pixelSize a) in
      let skeletonArea := calibrated_area (pixel_count (skel a)) (pixelSize a) in
      match branching_density maskArea skeletonArea with
      | Raise e => Raise e
      | Ok density =>
          Ok {| cell_name := cellName (baseName a);
                mask_area_um2 := maskArea;
                num_branches := numBranches;
                num_slab_voxels := numSlabVoxels;
                avg_branch_length_um := avg;
                total_skeleton_length_um := total;
                skeleton_area_um2 := skeletonArea;
                branching_density_value := density |}
      end
  end.

End Skeleton.
(** ** The areas and the branching density on doubles *)

(** [Skeleton] writes the metrics in exact arithmetic: it says which
    expression is evaluated. Jython's floats are IEEE-754 doubles, on which a
    product rounds, overflows to an infinity or underflows to 0, and a
    quotient can be NaN. This module evaluates the area and density
    expressions of [analyzeSkeleton] on doubles, with the operations of
    [SpecFloat] at precision 53 and exponent bound 1024. *)

Module Ieee.

Definition prec : Z := 53.
Definition emax : Z := 1024.

(** A Python [float]. *)
Definition float : Type := spec_float.

(** A Python number: the density is the [int] 0 or a [float]. *)
Inductive number :=
  | PyInt (n : Z)
  | PyFloat (x : float).

Definition is_nan (x : float) : bool :=
  match x with S754_nan => true | _ => false end.

Definition is_infinite (x : float) : bool :=
  match x with S754_infinity _ => true | _ => false end.

Definition is_zero (x : float) : bool :=
  match x with S754_zero _ => true | _ => false end.

(** [x * y] on floats. *)
Definition py_mul (x y : float) : float := SFmul prec emax x y.

(** The conversion of an [int] that meets a [float] in an operation: the
    nearest double, and [OverflowError] where that is no finite double. *)
Definition py_float (n : Z) : Skeleton.outcome float :=
  let x := binary_normalize prec emax n 0 false in
  if is_infinite x then Skeleton.Raise "OverflowError" else Skeleton.Ok x.

(** [x > 0] on a float: false for NaN. *)
Definition py_gt0 (x : float) : bool := SFltb (S754_zero false) x.

(** [x / y] on floats. *)
Definition py_div (x y : float) : Skeleton.outcome float :=
  if is_zero y then Skeleton.Raise "ZeroDivisionError"
  else Skeleton.Ok (SFdiv prec emax x y).

(** [count * (pixelSize * pixelSize)] *)
Definition calibrated_area (count : Z) (pixelSize : float) : Skeleton.outcome float :=
  let squared := py_mul pixelSize pixelSize in
  match py_float count with
  | Skeleton.Ok n => Skeleton.Ok (py_mul n squared)
  | Skeleton.Raise e => Skeleton.Raise e
  end.

(** [metrics['branching_density']] *)
Definition branching_density (maskArea skeletonArea : float) : Skeleton.outcome number :=
  if py_gt0 maskArea
  then match py_div skeletonArea maskArea with
       | Skeleton.Ok density => Skeleton.Ok (PyFloat density)
       | Skeleton.Raise e => Skeleton.Raise e
       end
  else Skeleton.Ok (PyInt 0).

Record metrics := {
  mask_area_um2 : float;
  skeleton_area_um2 : float;
  branching_density_value : number;
}.

(** The lines of [analyzeSkeleton] that derive the two areas and the density
    from the mask, its skeleton and the pixel size. *)
Definition analyzeSkeleton (mask skel : list (list Z)) (pixelSize : float)
  : Skeleton.outcome metrics :=
  match calibrated_area (Skeleton.pixel_count mask) pixelSize with
  | Skeleton.Raise e => Skeleton.Raise e
  | Skeleton.Ok maskArea =>
      match calibrated_area (Skeleton.pixel_count skel) pixelSize with
      | Skeleton.Raise e => Skeleton.Raise e
      | Skeleton.Ok skeletonArea =>
          match branching_density maskArea skeletonArea with
          | Skeleton.Raise e => Skeleton.Raise e
          | Skeleton.Ok density =>
              Skeleton.Ok {| mask_area_um2 := maskArea;
                             skeleton_area_um2 := skeletonArea;
                             branching_density_value := density |}
          end
      end
  end.

(** The double of a positive count below [2^53]: the count itself, its
    digits moved up to the 53 of the mantissa. *)
Definition double_of (p : positive) : float :=
  match (Zpos (digits2_pos p) - prec)%Z with
  | Zneg k => S754_finite false (Pos.iter xO p k) (Zpos (digits2_pos p) - prec)
  | _ => S754_finite false p 0
  end.

End Ieee.

(** ** Folder discovery and the combined table as written ([main] of the combiner) *)

Module Discovery.
Import PyStr Combiner.

(** [('box' in filename.lower() and 'count' in filename.lower() and
    'summary' in filename.lower())] *)
Definition is_summary_name (filename : string) : bool :=
  contains "box" (str_lower filename)
  && contains "count" (str_lower filename)
  && contains "summary" (str_lower filename).

(** The discovery loop over one item of [FracLacData]: [hasBoxCount]. The
    listing is [None] when [os.listdir] raises, which the [try] swallows. *)
Definition hasBoxCount (listing : option (list string)) : bool :=
  match listing with
  | Some filenames => existsb is_summary_name filenames
  | None => false
  end.

(** The loop of the folder pass that looks for the summary file: the first
    file of the listing with a summary name that ends in [.txt], with what
    the listing holds for it. *)
Fixpoint boxCountFile {A} (listing : list (string * A)) : option (string * A) :=
  match listing with
  | [] => None
  | (filename, f) :: rest =>
      if is_summary_name filename && endswith ".txt" (str_lower filename)
      then Some (filename, f)
      else boxCountFile rest
  end.

(** One item of the data folder: its name, whether it is a directory, and
    the files [os.listdir] gives for it. *)
Record item := {
  item_name : string;
  isdir : bool;
  listing : option (list (string * source_file));
}.

(** [fracLacFolders] after the discovery loop. *)
Definition fracLacFolders (items : list item) : list item :=
  filter (λ it, isdir it && hasBoxCount ((λ l, l.*1) <$> listing it) = true) items.


(** [csv.DictWriter.writerow]: the cells of a row are the values of the
    record under the field names of the header, in their order, a field the
    record lacks being the empty cell ([restval]). With
    [extrasaction='ignore'] the other fields of the record are left out. *)
Definition writerow (fieldnames : list string) (rowdict : gmap string string)
  : list string :=
  (λ key, default "" (rowdict !! key)) <$> fieldnames.

(** The cells of the combined CSV below the header row. *)
Definition written_cells (allData : gmap string (gmap string string))
  : list (list string) :=
  writerow (columnOrder allData) <$> written_rows allData.

End Discovery.

(** ** Cleaning and batching ([main] of the preparation script) *)

Module Prep.
Import Skeleton.

(** [str(n)] and ['{:03d}'.format(n)] on integers. *)
Definition str_int (n : Z) : string := NilZero.string_of_int (Z.to_int n).

Fixpoint zeros (n : nat) : string :=
  match n with
  | O => EmptyString
  | S k => String "0" (zeros k)
  end.

Definition zfill (width : nat) (digits : string) : string :=
  zeros (width - String.length digits) +:+ digits.

Definition format_03d (n : Z) : string :=
  if (n <? 0)%Z then "-" +:+ zfill 2 (str_int (- n)) else zfill 3 (str_int n).

(** [a // b] on integers. *)
Definition py_floordiv (a b : Z) : outcome Z :=
  if (b =? 0)%Z then Raise "ZeroDivisionError" else Ok (a / b)%Z.

(** [range(n)] *)
Definition py_range (n : Z) : list Z := Z.of_nat <$> seq 0 (Z.to_nat n).

(** [l[start:stop]]: an index below zero counts from the end, and both
    indices are brought into the list. *)
Definition slice_index (len i : Z) : Z :=
  if (i <? 0)%Z then Z.max (i + len) 0 else Z.min i len.

Definition py_slice {A} (l : list A) (start stop : Z) : list A :=
  let len := Z.of_nat (length l) in
  let lo := slice_index len start in
  let hi := slice_index len stop in
  firstn (Z.to_nat (hi - lo)) (skipn (Z.to_nat lo) l).

(** [filename.lower().endswith(('.tif', '.tiff'))] *)
Definition is_tiff (filename : string) : bool :=
  PyStr.endswith ".tif" (PyStr.str_lower filename)
  || PyStr.endswith ".tiff" (PyStr.str_lower filename).

(** The files of a folder the script takes: entries of the listing (name,
    [os.path.isfile]) that are TIFF files. *)
Definition tiff_files (listing : list (string * bool)) : list string :=
  (filter (λ e, is_tiff e.1 && e.2 = true) listing).*1.

(** *** Step 1: cleaning *)

(** What happens to one file in the body of the [try]: the image cannot be
    opened, a call raises, or the cleaned image is saved. *)
Inductive cleaning :=
  | NotOpened
  | Fails (e : string)
  | Saved.

Record counts := {
  cleaned : Z;
  failed : Z;
  printed : list string;
}.

Definition progress_line (i total : Z) : string :=
  "  Processing " +:+ str_int (i + 1) +:+ "/" +:+ str_int total +:+ "...".

(** The body of [for i, (filename, filepath) in enumerate(allFiles)]. *)
Definition clean_file (total : Z) (st : counts) (i : Z) (filename : string)
    (what : cleaning) : counts :=
  let out :=
    if ((i + 1) mod 100 =? 0)%Z then printed st ++ [progress_line i total]
    else printed st in
  match what with
  | NotOpened =>
      {| cleaned := cleaned st; failed := failed st + 1;
         printed := out ++ ["  ERROR: Cannot open " +:+ filename] |}
  | Fails e =>
      {| cleaned := cleaned st; failed := failed st + 1;
         printed := out ++ ["  ERROR processing " +:+ filename +:+ ": " +:+ e] |}
  | Saved =>
      {| cleaned := cleaned st + 1; failed := failed st; printed := out |}
  end.

Fixpoint clean_loop (total : Z) (st : counts) (i : Z)
    (allFiles : list (string * cleaning)) : counts :=
  match allFiles with
  | [] => st
  | (filename, what) :: rest =>
      clean_loop total (clean_file total st i filename what) (i + 1) rest
  end.

Definition clean_all (allFiles : list (string * cleaning)) : counts :=
  clean_loop (Z.of_nat (length allFiles))
             {| cleaned := 0; failed := 0; printed := [] |} 0 allFiles.

(** *** Step 2: batching *)

(** ["Batch_{:03d}".format(batchNum + 1)] *)
Definition batchName (batchNum : Z) : string := "Batch_" +:+ format_03d (batchNum + 1).

(** [cleanedFiles[startIdx:endIdx]] of one batch. *)
Definition batchFiles {A} (cleanedFiles : list A) (batchSize batchNum : Z) : list A :=
  let startIdx := (batchNum * batchSize)%Z in
  let endIdx := Z.min (startIdx + batchSize) (Z.of_nat (length cleanedFiles)) in
  py_slice cleanedFiles startIdx endIdx.

(** The batch folders the loop creates, in order, each with the files it is
    given. *)
Definition batches {A} (cleanedFiles : list A) (batchSize : Z)
  : outcome (list (string * list A)) :=
  match py_floordiv (Z.of_nat (length cleanedFiles) + batchSize - 1) batchSize with
  | Raise e => Raise e
  | Ok numBatches =>
      Ok ((λ batchNum, (batchName batchNum, batchFiles cleanedFiles batchSize batchNum))
            <$> py_range numBatches)
  end.

(** [allFiles]: the TIFF files of the input folder, each with what cleaning
    does to it. *)
Definition allFiles (inputListing : list (string * bool * cleaning))
  : list (string * cleaning) :=
  (λ e, (e.1.1, e.2)) <$> filter (λ e, is_tiff e.1.1 && e.1.2 = true) inputListing.

(** The run: the listing of the input folder, the listing of [FracLacImages]
    after the cleaning, the batch size. [None] where the script returns
    before it gets there. The calls into the file system ([os.listdir],
    [os.makedirs], [shutil.copy2]) are taken at what they return: an exception
    of theirs, which no [try] of the script catches, is not part of the
    model. *)
Definition main (inputListing : list (string * bool * cleaning))
    (cleanedListing : list (string * bool)) (batchSize : Z)
  : outcome (option counts * option (list (string * list string))) :=
  let allFiles := allFiles inputListing in
  if (Z.of_nat (length allFiles) =? 0)%Z then Ok (None, None)
  else
    let st := clean_all allFiles in
    if (cleaned st =? 0)%Z then Ok (Some st, None)
    else
      let cleanedFiles := Combiner.sorted (tiff_files cleanedListing) in
      match batches cleanedFiles batchSize with
      | Raise e => Raise e
      | Ok bs => Ok (Some st, Some bs)
      end.

End Prep.

(** ** The skeleton results table ([analyzeSkeleton], [main] of the skeleton script) *)

Module Results.
Import PyStr Skeleton.

(** The values of a metrics dictionary. *)
Inductive value :=
  | Str (s : string)
  | Int (n : Z)
  | Float (x : Qc).

(** Row 0 of the results table after [Measure]. *)
Record geometry := {
  Perim : Qc;
  Circ : Qc;
  AR : Qc;
  Round : Qc;
  Solidity : Qc;
}.

(** An entry of [getShortestPathList()]: a sequence of lengths or one
    length. *)
Inductive path_entry :=
  | Lengths (l : list Qc)
  | Length (x : Qc).

(** The other answers of the analyzer. *)
Record topology := {
  junctions : list Z;
  endPoints : list Z;
  junctionVoxels : list Z;
  triplePoints : list Z;
  quadruplePoints : list Z;
  maxBranchLength : list Qc;
  shortestPathList : option (list path_entry);
}.

Definition Qc_max (x y : Qc) : Qc := if Qc_ltb x y then y else x.

(** [max(l)] of a sequence that is not empty. *)
Definition py_max (x : Qc) (l : list Qc) : Qc := foldl Qc_max x l.

(** [longestShortestPath]: no branch of the [try] can raise here. *)
Definition longestShortestPath (shortestPathList : option (list path_entry)) : Qc :=
  match shortestPathList with
  | Some (Lengths (x :: l) :: _) => py_max x l
  | Some (Length x :: _) => if Qc_eq_dec x 0 then 0%Qc else x
  | _ => 0%Qc
  end.

(** [cellName + "_skeleton.tif"], the name of the skeleton image. *)
Definition skeleton_file (baseName : string) : string :=
  cellName baseName +:+ "_skeleton.tif".

(** The dictionary [analyzeSkeleton] returns for a mask that opens. *)
Definition metrics_dict (a : analysis) (g : geometry) (t : topology)
  : outcome (gmap string value) :=
  match analyzeSkeleton a with
  | Raise e => Raise e
  | Ok m =>
      let metrics : gmap string value :=
        <["mask_file" := Str (baseName a)]>
        (<["cell_name" := Str (cell_name m)]>
        (<["skeleton_file" := Str (skeleton_file (baseName a))]>
        (<["pixel_size_um" := Float (pixelSize a)]>
        (<["mask_area_um2" := Float (mask_area_um2 m)]>
        (<["mask_perimeter_um" := Float (Perim g)]>
        (<["mask_circularity" := Float (Circ g)]>
        (<["mask_aspect_ratio" := Float (AR g)]>
        (<["mask_roundness" := Float (Round g)]>
        (<["mask_solidity" := Float (Solidity g)]>
        (<["num_branches" := Int (num_branches m)]>
        (<["num_junctions" := Int (first_or_zero (junctions t))]>
        (<["num_end_points" := Int (first_or_zero (endPoints t))]>
        (<["num_junction_voxels" := Int (first_or_zero (junctionVoxels t))]>
        (<["num_slab_voxels" := Int (num_slab_voxels m)]>
        (<["num_triple_points" := Int (first_or_zero (triplePoints t))]>
        (<["num_quadruple_points" := Int (first_or_zero (quadruplePoints t))]>
        (<["max_branch_length_um" :=
             match maxBranchLength t with x :: _ => Float x | [] => Int 0 end]>
        (<["avg_branch_length_um" := Float (avg_branch_length_um m)]>
        (<["longest_shortest_path_um" := Float (longestShortestPath (shortestPathList t))]>
        (<["total_skeleton_length_um" := Float (total_skeleton_length_um m)]>
        (<["skeleton_area_um2" := Float (skeleton_area_um2 m)]> ∅))))))))))))))))))))) in
      Ok (<["branching_density" :=
              if Qc_ltb 0 (mask_area_um2 m)
              then Float (branching_density_value m) else Int 0]> metrics)
  end.

(** [columns = idCols + maskCols + skelCols] *)
Definition idCols : list string :=
  ["cell_name"; "mask_file"; "skeleton_file"; "pixel_size_um"].

Definition maskCols : list string :=
  ["mask_area_um2"; "mask_perimeter_um"; "mask_circularity";
   "mask_aspect_ratio"; "mask_roundness"; "mask_solidity"].

Definition skelCols : list string :=
  ["num_branches"; "num_junctions"; "num_end_points";
   "num_junction_voxels"; "num_slab_voxels"; "num_triple_points";
   "num_quadruple_points"; "max_branch_length_um";
   "avg_branch_length_um"; "longest_shortest_path_um";
   "total_skeleton_length_um"; "skeleton_area_um2"; "branching_density"].

Definition columns : list string := idCols ++ maskCols ++ skelCols.

(** [csv.DictWriter.writerow] with the default [extrasaction='raise']: a
    field of the record that is no column is a [ValueError]; a column the
    record lacks is an empty cell ([None] here). *)
Definition writerow (fieldnames : list string) (rowdict : gmap string value)
  : outcome (list (option value)) :=
  if decide (dom rowdict ⊆ list_to_set fieldnames)
  then Ok ((λ key, rowdict !! key) <$> fieldnames)
  else Raise "ValueError".

(** [writer.writerows(allResults)] *)
Fixpoint writerows (fieldnames : list string) (rows : list (gmap string value))
  : outcome (list (list (option value))) :=
  match rows with
  | [] => Ok []
  | rowdict :: rest =>
      match writerow fieldnames rowdict with
      | Raise e => Raise e
      | Ok cells =>
          match writerows fieldnames rest with
          | Raise e => Raise e
          | Ok more => Ok (cells :: more)
          end
      end
  end.

(** [[f for f in os.listdir(masksDirPath) if f.endswith('_mask.tif')]] *)
Definition maskFiles (listing : list string) : list string :=
  filter (λ f, endswith "_mask.tif" f = true) listing.

(** What the toolkit gives for a mask that opens: its pixels, those of its
    skeleton, the measurements and the answers of the analyzer. *)
Record opened := {
  pixels : list (list Z);
  skeleton : list (list Z);
  measured : geometry;
  answer_branches : list Z;
  answer_slabs : list Z;
  answer_average : call (option (list Qc));
  answers : topology;
}.

(** [analyzeSkeleton(maskPath, pixelSize, outputDirPath)]: [None] for a mask
    that does not open. The base name of the path is the name of the file. *)
Definition analyzeSkeleton_file (maskFile : string) (pixelSize : Qc)
    (image : option opened) : outcome (option (gmap string value)) :=
  match image with
  | None => Ok None
  | Some o =>
      match metrics_dict {| baseName := maskFile; pixelSize := pixelSize;
                            mask := pixels o; skel := skeleton o;
                            branches := answer_branches o;
                            slabVoxels := answer_slabs o;
                            getAverageBranchLength := answer_average o |}
                         (measured o) (answers o) with
      | Raise e => Raise e
      | Ok metrics => Ok (Some metrics)
      end
  end.

(** The loop of [main] over the mask files: [allResults]. *)
Fixpoint analyze_all (open : string → option opened) (pixelSize : Qc)
    (maskFiles : list string) : outcome (list (gmap string value)) :=
  match maskFiles with
  | [] => Ok []
  | maskFile :: rest =>
      match analyzeSkeleton_file maskFile pixelSize (open maskFile) with
      | Raise e => Raise e
      | Ok metrics =>
          match analyze_all open pixelSize rest with
          | Raise e => Raise e
          | Ok allResults =>
              Ok (match metrics with
                  | Some m => m :: allResults
                  | None => allResults
                  end)
          end
      end
  end.

(** [main]: the header and the rows of the results table, [None] when
    nothing is written. *)
Definition main (listing : list string) (open : string → option opened)
    (pixelSize : Qc)
  : outcome (option (list string * list (list (option value)))) :=
  let maskFiles := maskFiles listing in
  if (length maskFiles =? 0)%nat then Ok None
  else
    match analyze_all open pixelSize maskFiles with
    | Raise e => Raise e
    | Ok allResults =>
        if (0 <? length allResults)%nat
        then match writerows columns allResults with
             | Raise e => Raise e
             | Ok rows => Ok (Some (columns, rows))
             end
        else Ok None
    end.

End Results.

(** ** Predicates used in the statements and proofs *)

Module Aux.
Import PyStr Regex.

(** *** The five patterns as direct recursions

    What the matcher does on each pattern of the scripts, written out; the
    lemmas [search_mask_backtrack], [search_tif_backtrack] and
    [match_mask_backtrack], [match_area3_backtrack], [match_area_backtrack]
    show that these are the matcher's results. *)

(** A literal against the head of the text, letters in either case. *)
Fixpoint ci_prefix (p s : string) : bool :=
  match p, s with
  | EmptyString, _ => true
  | String a p', String c s' => Ascii.eqb (lower c) (lower a) && ci_prefix p' s'
  | String _ _, EmptyString => false
  end.

Arguments ci_prefix : simpl nomatch.

(** [_mask\.?tif] at the head of the text. *)
Definition mask_tail (s : string) : bool :=
  ci_prefix "_mask.tif" s || ci_prefix "_masktif" s.

(** [(.+?_mask)\.?tif] tried at the head of the text: [.+?] takes one
    character that is not a line feed, then as few more as possible. The
    result is group 1. *)
Fixpoint lazy_from (s : string) : option string :=
  match s with
  | EmptyString => None
  | String c r =>
      if is_newline c then None
      else if mask_tail r then Some (String c (take 5 r))
      else String c <$> lazy_from r
  end.

Fixpoint search_mask (s : string) : option string :=
  match lazy_from s with
  | Some g => Some g
  | None => match s with
            | EmptyString => None
            | String _ r => search_mask r
            end
  end.

(** [([^/\\]+\.tif)] tried at the head of the text: the class takes as many
    characters as it can and gives them back one at a time until [\.tif]
    follows. The result is the whole match. *)
Fixpoint greedy_from (s : string) : option string :=
  match s with
  | EmptyString => None
  | String c r =>
      if is_slash c then None
      else match greedy_from r with
           | Some m => Some (String c m)
           | None => if ci_prefix ".tif" r then Some (String c (take 4 r)) else None
           end
  end.

Fixpoint search_tif (s : string) : option string :=
  match greedy_from s with
  | Some m => Some m
  | None => match s with
            | EmptyString => None
            | String _ r => search_tif r
            end
  end.

(** [_mask\.tif$], [_area[3-8]\d{2}_mask\.tif$] and [_area\d+_mask\.tif$] tried
    at the head of the text; the result is the length of the match. *)
Definition match_mask (s : string) : option nat :=
  if startswith "_mask.tif" s && at_end (drop 9 s) then Some 9 else None.

Definition match_area3 (s : string) : option nat :=
  match drop 5 s with
  | String d1 (String d2 (String d3 r)) =>
      if startswith "_area" s && is_digit_3_8 d1 && is_digit d2 && is_digit d3
      then (λ n, 8 + n)%nat <$> match_mask r else None
  | _ => None
  end.

Fixpoint digits_then_mask (s : string) : option nat :=
  match s with
  | EmptyString => None
  | String c r =>
      if is_digit c then
        match digits_then_mask r with
        | Some n => Some (S n)
        | None => S <$> match_mask r
        end
      else None
  end.

Definition match_area (s : string) : option nat :=
  if startswith "_area" s then (λ n, 5 + n)%nat <$> digits_then_mask (drop 5 s) else None.

(** The patterns after [.+?] and after [[^/\\]+], tried at [t] with [p]
    characters matched. *)
Definition mask_rest (t : string) (p : nat) : option (nat * nat) :=
  run (Seq (lit true "_mask") (Seq Mark (Seq (Opt (lit true ".")) (lit true "tif"))))
      t p 0 (λ _ p m, Some (m, p)).

Definition tif_rest (t : string) (p : nat) : option (nat * nat) :=
  run (Seq (lit true ".tif") Mark) t p 0 (λ _ p m, Some (m, p)).

(** *** Predicates *)

(** Every character of [s] satisfies [f]. *)
Fixpoint all_chars (f : ascii → bool) (s : string) : bool :=
  match s with
  | EmptyString => true
  | String c r => f c && all_chars f r
  end.

(** A literal without underscore cannot run across an underscore of the
    text. *)
Definition no_underscore (p : string) : bool :=
  all_chars (λ q, negb (Ascii.eqb (lower q) "_")) p.

Definition no_newline (s : string) : bool := all_chars (λ c, negb (is_newline c)) s.

(** A match of [(.+?_mask)\.?tif] at the head of [s]: a non-empty run [x]
    without line feed, then the tail, and no earlier place in [x] where the
    tail would match. *)
Definition lazy_split (x t : string) : Prop :=
  x ≠ "" ∧ no_newline x = true ∧ mask_tail t = true
  ∧ ∀ x1 x2, x = x1 +:+ x2 → x1 ≠ "" → x2 ≠ "" → mask_tail (x2 +:+ t) = false.

(** A place where the lazy pattern can match: a character that is not a line
    feed, followed by the tail. *)
Definition hit (s : string) : Prop :=
  ∃ a c b, s = a +:+ String c b ∧ is_newline c = false ∧ mask_tail b = true.

Definition no_slash (s : string) : bool := all_chars (λ c, negb (is_slash c)) s.

(** What [strip] leaves starts and ends with no blank. *)
Definition stripped (s : string) : Prop := strip s = s.

(** A row from which no filename can be recovered: neither pattern matches
    the cell of the primary identity column or, without such a column, no
    cell of the scan resolves. *)
Definition unresolved (r : Recover.row) : Prop :=
  match Recover.primary_cell r with
  | Some (Some value) =>
      search Recover.re_mask_name (strip value) = None
      ∧ search Recover.re_tif_name (strip value) = None
  | Some None => True
  | None => Recover.scan_cells (r.*2) = None
  end.

(** Two prefixes one of which starts the other. *)
Definition comparable (p q : string) : bool := startswith p q || startswith q p.

(** A prefix table in which no header can match two entries: the prefixes
    are distinct and none starts another. *)
Definition prefix_free (cm : list (string * string)) : Prop :=
  NoDup cm.*1
  ∧ Forall (λ e1, Forall (λ e2, comparable e1.1 e2.1 = true → e1.1 = e2.1) cm) cm.

(** The fields one row contributes: canonical name to value, for the bound
    columns that hold a usable value. *)
Definition row_fields (cols : gmap string string) (r : Recover.row) : gmap string string :=
  map_fold (λ col newName rec,
              match Combiner.measurement col r with
              | Some value => <[newName := value]> rec
              | None => rec
              end) ∅ cols.

(** The rows the reader yields before it raises, and what it raises. *)
Fixpoint rows_before (lines : list Combiner.read_event) : list Recover.row :=
  match lines with
  | Combiner.Row r :: rest => r :: rows_before rest
  | _ => []
  end.

Fixpoint first_error (lines : list Combiner.read_event) : option string :=
  match lines with
  | [] => None
  | Combiner.Row _ :: rest => first_error rest
  | Combiner.ReadError e :: _ => Some e
  end.

(** The error reading a file raises under the prefix table of [main], if
    any. *)
Definition failure (f : Combiner.source_file) : option string :=
  match f with
  | Combiner.CannotOpen e => Some e
  | Combiner.Opened None _ => Some "'NoneType' object is not iterable"
  | Combiner.Opened (Some _) lines => first_error lines
  end.

(** The records of the rows read before the failure. *)
Definition rows_read (f : Combiner.source_file) : gmap string (gmap string string) :=
  match f with
  | Combiner.Opened (Some fieldnames) lines =>
      foldl (λ data r,
               Combiner.process_row
                 (Combiner.actualColumns Combiner.column_map fieldnames) r data)
            ∅ (rows_before lines)
  | _ => ∅
  end.

(** Every record carries its key in the field [filename]. *)
Definition keyed (t : gmap string (gmap string string)) : Prop :=
  ∀ k rec, t !! k = Some rec → rec !! "filename" = Some k.

(** The keys the files of a list of folders contribute. *)
Definition folder_keys (folders : list (option Combiner.source_file)) : gset string :=
  ⋃ ((λ f, match f with Some f => dom (rows_read f) | None => ∅ end) <$> folders).

(** The text ends with a line feed. *)
Fixpoint ends_with_newline (s : string) : bool :=
  match s with
  | EmptyString => false
  | String c r =>
      match r with
      | EmptyString => is_newline c
      | _ => ends_with_newline r
      end
  end.

(** [s] is [_area], a digit from 3 to 8, two digits and [_mask.tif]. *)
Definition is_area3_suffix (s : string) : bool :=
  startswith "_area" s
  && match drop 5 s with
     | String d1 (String d2 (String d3 r)) =>
         is_digit_3_8 d1 && is_digit d2 && is_digit d3
         && String.eqb "_mask.tif" r
     | _ => false
     end.

(** The stem before a trailing [_area<digits>_mask.tif], and before a
    trailing [_mask.tif]. *)
Definition area_stem (s : string) : option string :=
  Skeleton.strip_suffix (Skeleton.is_area_suffix (λ n, (1 <=? n)%nat)) s.

Definition mask_stem (s : string) : option string :=
  Skeleton.strip_suffix (String.eqb "_mask.tif") s.

End Aux.

(** ** Predicates used in the further properties *)

Module Shape.
Import PyStr.

(** [cleanFilename] without its loop over the markers. *)
Definition cleanFilename_direct (value : string) : string :=
  if negb (truthy value) then "unknown"
  else
    let value := strip value in
    match Regex.search Recover.re_mask_name value with
    | Some g => g +:+ ".tif"
    | None =>
        match Regex.search Recover.re_tif_name value with
        | Some m => m
        | None => "unknown_" +:+ take 30 value
        end
    end.

(** A field of the record of [k] as the combiner stores it: the key under
    [filename], or a usable value under a canonical name. *)
Definition field_ok (k field value : string) : Prop :=
  (field = "filename" ∧ value = k ∧ k ≠ "")
  ∨ (field ∈ Combiner.column_map.*2
     ∧ value ≠ "" ∧ value ≠ "Not Calculated" ∧ strip value ≠ "").

Definition clean_table (t : gmap string (gmap string string)) : Prop :=
  ∀ k rec, t !! k = Some rec →
    rec !! "filename" = Some k
    ∧ ∀ field value, rec !! field = Some value → field_ok k field value.

(** A file name the folder pass accepts as the summary file. *)
Definition is_summary_file (filename : string) : bool :=
  Discovery.is_summary_name filename && endswith ".txt" (str_lower filename).


(** A file the cleaning saved, and a line that reports a failure. *)
Definition is_saved (file : string * Prep.cleaning) : bool :=
  match file.2 with Prep.Saved => true | _ => false end.

Definition is_error_line (line : string) : bool := startswith "  ERROR" line.

(** The number a decimal numeral stands for, zeros in front allowed. *)
Definition decode (digits : string) : option N :=
  Pos.of_uint <$> NilEmpty.uint_of_string digits.

End Shape.

(** * Properties *)

(** ** Strings *)

Section string_facts.
Import PyStr Aux.

Lemma app_nil_l (s : string) : "" +:+ s = s.
Proof. reflexivity. Qed.

Lemma app_cons (c : ascii) (s t : string) : String c s +:+ t = String c (s +:+ t).
Proof. reflexivity. Qed.

Lemma app_nil_r (s : string) : s +:+ "" = s.
Proof. induction s as [|c s IH]; [done|]. by rewrite app_cons, IH. Qed.

Lemma app_assoc (s t u : string) : (s +:+ t) +:+ u = s +:+ (t +:+ u).
Proof. induction s as [|c s IH]; [done|]. by rewrite !app_cons, IH. Qed.

Lemma app_length (s t : string) :
  String.length (s +:+ t) = String.length s + String.length t.
Proof. induction s as [|c s IH]; [done|]. rewrite app_cons. simpl. by rewrite IH. Qed.

Lemma length_zero (s : string) : String.length s = 0 → s = "".
Proof. by destruct s. Qed.

(** Two ways of cutting one text: one cut lies before the other. *)
Lemma app_eq_split (a b x y : string) :
  a +:+ b = x +:+ y →
  (∃ d, x = a +:+ d ∧ b = d +:+ y) ∨ (∃ d, a = x +:+ d ∧ y = d +:+ b).
Proof.
  revert x. induction a as [|c a IH]; intros x H.
  - left. exists x. by rewrite app_nil_l in *.
  - destruct x as [|c' x].
    + right. exists (String c a). by rewrite app_nil_l in *.
    + rewrite !app_cons in H. injection H as -> H.
      destruct (IH _ H) as [[d [-> ->]]|[d [-> ->]]]; [left|right]; by exists d.
Qed.

Lemma take_length_le (n : nat) (s : string) : String.length (take n s) ≤ n.
Proof.
  revert s. induction n as [|n IH]; intros [|c s]; simpl; try lia.
  specialize (IH s). lia.
Qed.

Lemma take_prefix (n : nat) (s : string) : ∃ r, s = take n s +:+ r.
Proof.
  revert s. induction n as [|n IH]; intros s.
  - exists s. by destruct s.
  - destruct s as [|c s]; [by exists ""|].
    destruct (IH s) as [r Hr]. exists r. simpl. by rewrite app_cons, <-Hr.
Qed.

Lemma take_all (n : nat) (s : string) : String.length s ≤ n → take n s = s.
Proof.
  revert s. induction n as [|n IH]; intros [|c s]; simpl; intros; try done; try lia.
  rewrite IH; [done|lia].
Qed.

Lemma take_app_length (s t : string) : take (String.length s) (s +:+ t) = s.
Proof. induction s as [|c s IH]; [by destruct t|]. rewrite app_cons. simpl. by rewrite IH. Qed.

Lemma before_prefix (m s b : string) : before m s = Some b → ∃ r, s = b +:+ r.
Proof.
  revert b. induction s as [|c s IH]; intros b; simpl.
  - destruct (startswith m ""); [|done]. intros [= <-]. by exists "".
  - destruct (startswith m (String c s)).
    + intros [= <-]. by exists (String c s).
    + destruct (before m s) as [b'|]; [|done]. intros [= <-].
      destruct (IH b' eq_refl) as [r ->]. by exists r.
Qed.

Lemma truthy_nonempty (s : string) : truthy s = true ↔ s ≠ "".
Proof. by destruct s. Qed.

End string_facts.

(** ** The two filename patterns *)

Section regex_facts.
Import PyStr Regex Aux.

Lemma all_chars_cons (f : ascii → bool) (c : ascii) (r : string) :
  all_chars f (String c r) = f c && all_chars f r.
Proof. reflexivity. Qed.

Lemma ci_prefix_cons (a c : ascii) (p s : string) :
  ci_prefix (String a p) (String c s)
  = Ascii.eqb (lower c) (lower a) && ci_prefix p s.
Proof. reflexivity. Qed.

Lemma ci_prefix_length (p s : string) :
  ci_prefix p s = true → String.length p ≤ String.length s.
Proof.
  revert s. induction p as [|a p IH]; intros [|c s]; simpl; try done; try lia.
  intros [_ H]%andb_prop. apply IH in H. lia.
Qed.

Lemma ci_prefix_weaken (p q s : string) :
  ci_prefix (p +:+ q) s = true → ci_prefix p s = true.
Proof.
  revert s. induction p as [|a p IH]; intros s; [done|].
  rewrite app_cons. destruct s as [|c s]; simpl; [done|].
  intros [-> H]%andb_prop. by apply IH.
Qed.

Lemma ci_prefix_extend (p s t : string) :
  ci_prefix p s = true → ci_prefix p (s +:+ t) = true.
Proof.
  revert s. induction p as [|a p IH]; intros s; [done|].
  destruct s as [|c s]; [done|]. rewrite app_cons. simpl.
  intros [-> H]%andb_prop. by apply IH.
Qed.

Lemma ci_prefix_take (p s : string) :
  ci_prefix p s = true →
  ci_prefix p (take (String.length p) s) = true
  ∧ String.length (take (String.length p) s) = String.length p.
Proof.
  revert s. induction p as [|a p IH]; intros s; [by destruct s|].
  destruct s as [|c s]; [done|]. simpl.
  intros [-> H]%andb_prop. destruct (IH _ H) as [-> ->]. done.
Qed.

Lemma ci_prefix_app_exact (p q m s : string) :
  String.length p = String.length m →
  ci_prefix (p +:+ q) (m +:+ s) = ci_prefix p m && ci_prefix q s.
Proof.
  revert m. induction p as [|a p IH]; intros [|c m]; try done.
  intros [= H]. rewrite !app_cons. simpl. rewrite IH by done.
  by rewrite andb_assoc.
Qed.

Lemma ci_prefix_cut (p y r : string) (c : ascii) :
  lower c = "_"%char → no_underscore p = true →
  ci_prefix p (y +:+ String c r) = ci_prefix p y.
Proof.
  intros Hc. revert y. induction p as [|a p IH]; intros y Hp; [done|].
  apply andb_prop in Hp as [Ha Hp].
  destruct y as [|b y].
  - rewrite app_nil_l. simpl. rewrite Hc.
    apply negb_true_iff in Ha. by rewrite Ascii.eqb_sym, Ha.
  - rewrite app_cons. simpl. by rewrite (IH y Hp).
Qed.

Lemma mask_tail_cut (y r : string) (c : ascii) :
  y ≠ "" → lower c = "_"%char →
  mask_tail (y +:+ String c r) = mask_tail y.
Proof.
  intros Hy Hc. destruct y as [|b y]; [done|].
  unfold mask_tail. rewrite app_cons, !ci_prefix_cons.
  by rewrite !(ci_prefix_cut _ y r c Hc) by done.
Qed.

Lemma mask_tail_extend (s t : string) :
  mask_tail s = true → mask_tail (s +:+ t) = true.
Proof.
  unfold mask_tail. intros [H|H]%orb_prop.
  - by rewrite (ci_prefix_extend _ _ t H).
  - rewrite (ci_prefix_extend _ _ t H). apply orb_true_r.
Qed.

Lemma mask_tail_length (s : string) : mask_tail s = true → 8 ≤ String.length s.
Proof.
  unfold mask_tail. intros [H|H]%orb_prop; apply ci_prefix_length in H; simpl in H; lia.
Qed.

(** The text a match of [_mask\.?tif] starts with: five characters, the
    first an underscore; with [.tif] appended they match again. *)
Lemma mask_tail_head (t : string) :
  mask_tail t = true →
  ∃ c m, take 5 t = String c m ∧ String.length m = 4 ∧ lower c = "_"%char
         ∧ mask_tail (String c m +:+ ".tif") = true
         ∧ ∃ r, t = String c m +:+ r.
Proof.
  intros H.
  assert (ci_prefix "_mask" t = true) as H5.
  { unfold mask_tail in H. apply orb_prop in H as [H|H].
    - by apply (ci_prefix_weaken "_mask" ".tif").
    - by apply (ci_prefix_weaken "_mask" "tif"). }
  destruct (ci_prefix_take _ _ H5) as [Hm Hl].
  change (String.length "_mask") with 5 in *.
  destruct (take_prefix 5 t) as [r Hr].
  destruct (take 5 t) as [|c m] eqn:Ht; rewrite ?Ht in Hm, Hl, Hr; [done|].
  exists c, m. split_and!; [done|simpl in Hl; lia| | |by exists r].
  - simpl in Hm. apply andb_prop in Hm as [Hc _].
    by apply Ascii.eqb_eq in Hc.
  - unfold mask_tail. apply orb_true_intro; left.
    change "_mask.tif" with ("_mask" +:+ ".tif").
    rewrite ci_prefix_app_exact by (by rewrite Hl). by rewrite Hm.
Qed.

(** *** The lazy pattern *)

Lemma lazy_from_inv (s g : string) :
  lazy_from s = Some g →
  ∃ x t, s = x +:+ t ∧ g = x +:+ take 5 t ∧ lazy_split x t.
Proof.
  revert g. induction s as [|c r IH]; intros g; simpl; [done|].
  destruct (is_newline c) eqn:Hc; [done|].
  destruct (mask_tail r) eqn:Hr.
  - intros [= <-]. exists (String c ""), r. unfold lazy_split. split_and!; try done.
    + unfold no_newline. by rewrite all_chars_cons, Hc.
    + intros [|a x1] x2 E ??; [done|]. rewrite app_cons in E.
      injection E as _ E. by destruct x1, x2.
  - destruct (lazy_from r) as [g'|]; [|done]. intros [= <-].
    destruct (IH g' eq_refl) as (x & t & -> & -> & Hx & Hn & Ht & Hlazy).
    exists (String c x), t. unfold lazy_split. split_and!; try done.
    + unfold no_newline in *. by rewrite all_chars_cons, Hc.
    + intros [|a x1] x2 E H1 H2; [done|]. rewrite app_cons in E.
      injection E as _ E. destruct x1 as [|b x1].
      * rewrite app_nil_l in E. by subst x2.
      * by apply (Hlazy (String b x1) x2).
Qed.

Lemma lazy_from_intro (x t : string) :
  lazy_split x t → lazy_from (x +:+ t) = Some (x +:+ take 5 t).
Proof.
  intros (Hx & Hn & Ht & Hlazy). induction x as [|c x IH]; [done|].
  unfold no_newline in Hn. rewrite all_chars_cons in Hn.
  apply andb_prop in Hn as [Hc Hn]. apply negb_true_iff in Hc.
  rewrite !app_cons. simpl. rewrite Hc.
  destruct x as [|b x].
  - rewrite !app_nil_l. by rewrite Ht.
  - rewrite (Hlazy (String c "") (String b x)) by done.
    rewrite IH; [done|done|done|].
    intros x1 x2 E H1 H2. apply (Hlazy (String c x1) x2); [|done..].
    by rewrite app_cons, <-E.
Qed.

Lemma search_mask_head (s g : string) :
  lazy_from s = Some g → search_mask s = Some g.
Proof. intros H. destruct s; simpl in *; by rewrite H. Qed.

Lemma search_mask_inv (s g : string) :
  search_mask s = Some g → ∃ pre u, s = pre +:+ u ∧ lazy_from u = Some g.
Proof.
  induction s as [|c r IH].
  - simpl. done.
  - intros H. destruct (lazy_from (String c r)) as [g'|] eqn:Hl.
    + exists "", (String c r). rewrite (search_mask_head _ _ Hl) in H. by simplify_eq.
    + change (search_mask (String c r))
        with (match lazy_from (String c r) with
              | Some g => Some g | None => search_mask r end) in H.
      rewrite Hl in H. destruct (IH H) as (pre & u & -> & Hu).
      by exists (String c pre), u.
Qed.

Lemma hit_within (pre s post : string) : hit s → hit (pre +:+ s +:+ post).
Proof.
  intros (a & c & b & -> & Hc & Hb).
  exists (pre +:+ a), c, (b +:+ post). split_and!; [|done|by apply mask_tail_extend].
  by rewrite !app_assoc, app_cons.
Qed.

Lemma lazy_from_hit (s g : string) : lazy_from s = Some g → hit s.
Proof.
  revert g. induction s as [|c r IH]; intros g; simpl; [done|].
  destruct (is_newline c) eqn:Hc; [done|].
  destruct (mask_tail r) eqn:Hr.
  - intros _. by exists "", c, r.
  - destruct (lazy_from r) as [g'|]; [|done]. intros _.
    destruct (IH g' eq_refl) as (a & c' & b & -> & ? & ?).
    by exists (String c a), c', b.
Qed.

Lemma search_mask_hit (s g : string) : search_mask s = Some g → hit s.
Proof.
  intros (pre & u & -> & Hu)%search_mask_inv.
  apply lazy_from_hit in Hu. rewrite <-(app_nil_r u). by apply hit_within.
Qed.

Lemma lazy_from_start (c : ascii) (b : string) :
  is_newline c = false → mask_tail b = true → is_Some (lazy_from (String c b)).
Proof. intros Hc Hb. simpl. rewrite Hc, Hb. eauto. Qed.

Lemma hit_search_mask (s : string) : hit s → is_Some (search_mask s).
Proof.
  intros (a & c & b & -> & Hc & Hb). induction a as [|d a IH].
  - rewrite app_nil_l. destruct (lazy_from_start c b Hc Hb) as [g Hg].
    rewrite (search_mask_head _ _ Hg). eauto.
  - rewrite app_cons.
    change (search_mask (String d (a +:+ String c b)))
      with (match lazy_from (String d (a +:+ String c b)) with
            | Some g => Some g | None => search_mask (a +:+ String c b) end).
    destruct (lazy_from _); eauto.
Qed.

Lemma search_mask_None (s : string) : search_mask s = None ↔ ¬ hit s.
Proof.
  split.
  - intros H Hh. apply hit_search_mask in Hh as [g Hg]. congruence.
  - intros H. destruct (search_mask s) as [g|] eqn:Hs; [|done].
    by apply search_mask_hit in Hs.
Qed.

(** *** The greedy pattern *)

Lemma greedy_from_inv (s m : string) :
  greedy_from s = Some m →
  ∃ y e r, s = y +:+ e +:+ r ∧ m = y +:+ e ∧ y ≠ "" ∧ no_slash y = true
           ∧ ci_prefix ".tif" e = true ∧ String.length e = 4.
Proof.
  revert m. induction s as [|c s IH]; intros m; simpl; [done|].
  destruct (is_slash c) eqn:Hc; [done|].
  destruct (greedy_from s) as [m'|].
  - intros [= <-]. destruct (IH m' eq_refl) as (y & e & r & -> & -> & ? & Hy & ? & ?).
    exists (String c y), e, r. split_and!; try done.
    unfold no_slash in *. by rewrite all_chars_cons, Hc.
  - destruct (ci_prefix ".tif" s) eqn:Hs; [|done]. intros [= <-].
    destruct (ci_prefix_take _ _ Hs) as [He Hl]. destruct (take_prefix 4 s) as [r Hr].
    exists (String c ""), (take 4 s), r. split_and!; try done.
    + by rewrite app_cons, app_nil_l, <-Hr.
    + unfold no_slash. by rewrite all_chars_cons, Hc.
Qed.

Lemma greedy_from_short (s : string) : String.length s ≤ 4 → greedy_from s = None.
Proof.
  intros Hl. destruct (greedy_from s) as [m|] eqn:Hs; [|done].
  apply greedy_from_inv in Hs as (y & e & r & -> & _ & Hy & _ & _ & He).
  rewrite !app_length, He in Hl. destruct y; [done|]. simpl in Hl. lia.
Qed.

Lemma greedy_from_whole (y e : string) :
  y ≠ "" → no_slash y = true → ci_prefix ".tif" e = true → String.length e = 4 →
  greedy_from (y +:+ e) = Some (y +:+ e).
Proof.
  intros Hy Hn He Hl. induction y as [|c y IH]; [done|].
  unfold no_slash in Hn. rewrite all_chars_cons in Hn.
  apply andb_prop in Hn as [Hc Hn]. apply negb_true_iff in Hc.
  rewrite app_cons. simpl. rewrite Hc. destruct y as [|b y].
  - rewrite app_nil_l. rewrite greedy_from_short by lia.
    rewrite He. by rewrite take_all by lia.
  - by rewrite IH.
Qed.

Lemma search_tif_head (s m : string) :
  greedy_from s = Some m → search_tif s = Some m.
Proof. intros H. destruct s; simpl in *; by rewrite H. Qed.

Lemma search_tif_inv (s m : string) :
  search_tif s = Some m → ∃ pre u, s = pre +:+ u ∧ greedy_from u = Some m.
Proof.
  induction s as [|c r IH].
  - simpl. done.
  - intros H. destruct (greedy_from (String c r)) as [m'|] eqn:Hl.
    + exists "", (String c r). rewrite (search_tif_head _ _ Hl) in H. by simplify_eq.
    + change (search_tif (String c r))
        with (match greedy_from (String c r) with
              | Some g => Some g | None => search_tif r end) in H.
      rewrite Hl in H. destruct (IH H) as (pre & u & -> & Hu).
      by exists (String c pre), u.
Qed.

End regex_facts.

(** ** The matcher on the five patterns *)

Section backtrack_facts.
Import PyStr Regex Recover Skeleton Aux.

Lemma drop_0 (s : string) : drop 0 s = s.
Proof. by destruct s. Qed.

Lemma drop_drop (n m : nat) (s : string) : drop n (drop m s) = drop (m + n) s.
Proof.
  revert s. induction m as [|m IH]; intros s; [by rewrite drop_0|].
  destruct s as [|c s]; [by destruct n|]. apply IH.
Qed.

Lemma run_lit_fold {R : Type} (p s : string) (pos mark : nat)
    (k : string → nat → nat → option R) :
  run (lit true p) s pos mark k =
    if ci_prefix p s then k (drop (String.length p) s) (pos + String.length p) mark
    else None.
Proof.
  revert s pos. induction p as [|a p IH]; intros s pos.
  - simpl. by rewrite ?drop_0, ?Nat.add_0_r.
  - destruct s as [|c s]; [done|]. cbn [lit run]. rewrite ci_prefix_cons.
    destruct (Ascii.eqb (lower c) (lower a)); [|done].
    rewrite IH. simpl. by rewrite Nat.add_succ_r.
Qed.

Lemma run_lit {R : Type} (p s : string) (pos mark : nat)
    (k : string → nat → nat → option R) :
  run (lit false p) s pos mark k =
    if startswith p s then k (drop (String.length p) s) (pos + String.length p) mark
    else None.
Proof.
  revert s pos. induction p as [|a p IH]; intros s pos.
  - simpl. by rewrite ?drop_0, ?Nat.add_0_r.
  - destruct s as [|c s]; [done|]. cbn [lit run]. simpl startswith.
    destruct (Ascii.eqb a c); [|done].
    rewrite IH. simpl. by rewrite Nat.add_succ_r.
Qed.

Lemma ci_prefix_app (p q s : string) :
  ci_prefix (p +:+ q) s = ci_prefix p s && ci_prefix q (drop (String.length p) s).
Proof.
  revert s. induction p as [|a p IH]; intros s.
  - by rewrite app_nil_l, drop_0.
  - rewrite app_cons. destruct s as [|c s]; [done|].
    rewrite !ci_prefix_cons, IH. simpl. by rewrite andb_assoc.
Qed.

(** *** [(.+?_mask)\.?tif] *)

Lemma mask_rest_spec (t : string) (p : nat) :
  fst <$> mask_rest t p = if mask_tail t then Some (p + 5) else None.
Proof.
  unfold mask_rest, mask_tail. cbn [run]. rewrite run_lit_fold.
  change "_mask.tif" with ("_mask" +:+ "." +:+ "tif").
  change "_masktif" with ("_mask" +:+ "tif").
  rewrite !ci_prefix_app. change (String.length "_mask") with 5.
  change (String.length ".") with 1.
  destruct (ci_prefix "_mask" t); [|done]. cbn [run andb orb].
  rewrite (run_lit_fold "." (drop 5 t)), (run_lit_fold "tif" (drop 5 t)).
  destruct (ci_prefix "." (drop 5 t)); cbn [andb orb].
  - rewrite (run_lit_fold "tif" (drop 1 (drop 5 t))).
    destruct (ci_prefix "tif" (drop 1 (drop 5 t))); [done|].
    by destruct (ci_prefix "tif" (drop 5 t)).
  - by destruct (ci_prefix "tif" (drop 5 t)).
Qed.

Lemma plus_lazy_mask (s : string) (p : nat) :
  fst <$> plus_lazy dot s p mask_rest = (λ g, p + String.length g) <$> lazy_from s.
Proof.
  revert p. induction s as [|c r IH]; intros p; [done|].
  cbn [plus_lazy lazy_from]. unfold dot at 1.
  destruct (is_newline c); [done|]. cbn [negb].
  pose proof (mask_rest_spec r (S p)) as Hrest.
  destruct (mask_tail r) eqn:Hr.
  - destruct (mask_rest r (S p)) as [[g m]|]; [|done].
    injection Hrest as ->. simpl.
    destruct (mask_tail_head _ Hr) as (c' & m' & -> & Hm' & _). simpl. rewrite Hm'.
    f_equal. lia.
  - destruct (mask_rest r (S p)); [done|]. rewrite IH.
    destruct (lazy_from r); simpl; [|done]. f_equal. lia.
Qed.

Lemma match_at_mask (s : string) :
  fst <$> match_at re_mask_name s = String.length <$> lazy_from s.
Proof.
  unfold match_at, re_mask_name. cbn [run].
  change (plus_lazy dot s 0 _) with (plus_lazy dot s 0 mask_rest).
  rewrite plus_lazy_mask. by destruct (lazy_from s).
Qed.

Lemma lazy_from_take (s g : string) : lazy_from s = Some g → take (String.length g) s = g.
Proof.
  intros (x & t & -> & -> & _)%lazy_from_inv.
  destruct (take_prefix 5 t) as [r Hr]. rewrite Hr at 2.
  rewrite <-app_assoc. apply take_app_length.
Qed.

(** The search for [(.+?_mask)\.?tif] by the matcher is [search_mask]. *)
Lemma search_mask_backtrack (s : string) : search re_mask_name s = search_mask s.
Proof.
  induction s as [|c r IH].
  - cbn [search search_mask]. pose proof (match_at_mask "") as H.
    destruct (match_at re_mask_name "") as [[g m]|]; [done|]. done.
  - cbn [search search_mask]. pose proof (match_at_mask (String c r)) as H.
    destruct (lazy_from (String c r)) as [g|] eqn:Hl.
    + destruct (match_at re_mask_name (String c r)) as [[n m]|]; [|done].
      injection H as ->. by rewrite (lazy_from_take _ _ Hl).
    + destruct (match_at re_mask_name (String c r)) as [[n m]|]; [done|]. apply IH.
Qed.

(** *** [([^/\\]+\.tif)] *)

Lemma tif_rest_spec (t : string) (p : nat) :
  fst <$> tif_rest t p = if ci_prefix ".tif" t then Some (p + 4) else None.
Proof.
  unfold tif_rest. cbn [run]. rewrite run_lit_fold.
  by destruct (ci_prefix ".tif" t).
Qed.

Lemma plus_greedy_tif (s : string) (p : nat) :
  fst <$> plus_greedy not_slash s p tif_rest
  = (λ m, p + String.length m) <$> greedy_from s.
Proof.
  revert p. induction s as [|c r IH]; intros p; [done|].
  cbn [plus_greedy greedy_from]. unfold not_slash at 1.
  destruct (is_slash c); [done|]. cbn [negb].
  specialize (IH (S p)).
  destruct (greedy_from r) as [m|] eqn:Hg.
  - destruct (plus_greedy not_slash r (S p) tif_rest) as [[g n]|]; [|done].
    injection IH as ->. simpl. f_equal. lia.
  - destruct (plus_greedy not_slash r (S p) tif_rest); [done|].
    rewrite tif_rest_spec. destruct (ci_prefix ".tif" r) eqn:Hr; [|done].
    destruct (ci_prefix_take _ _ Hr) as [_ Hlen].
    change (String.length ".tif") with 4 in Hlen. simpl. rewrite Hlen. f_equal. lia.
Qed.

Lemma match_at_tif (s : string) :
  fst <$> match_at re_tif_name s = String.length <$> greedy_from s.
Proof.
  unfold match_at, re_tif_name. cbn [run].
  change (plus_greedy not_slash s 0 _) with (plus_greedy not_slash s 0 tif_rest).
  rewrite plus_greedy_tif. by destruct (greedy_from s).
Qed.

Lemma greedy_from_take (s m : string) :
  greedy_from s = Some m → take (String.length m) s = m.
Proof.
  intros (y & e & r & -> & -> & _)%greedy_from_inv.
  rewrite <-app_assoc. apply take_app_length.
Qed.

(** The search for [([^/\\]+\.tif)] by the matcher is [search_tif]. *)
Lemma search_tif_backtrack (s : string) : search re_tif_name s = search_tif s.
Proof.
  induction s as [|c r IH].
  - cbn [search search_tif]. pose proof (match_at_tif "") as H.
    destruct (match_at re_tif_name "") as [[g m]|]; [done|]. done.
  - cbn [search search_tif]. pose proof (match_at_tif (String c r)) as H.
    destruct (greedy_from (String c r)) as [g|] eqn:Hl.
    + destruct (match_at re_tif_name (String c r)) as [[n m]|]; [|done].
      injection H as ->. by rewrite (greedy_from_take _ _ Hl).
    + destruct (match_at re_tif_name (String c r)) as [[n m]|]; [done|]. apply IH.
Qed.

(** *** The three suffix patterns *)

Lemma run_mask_suffix (t : string) (p m : nat) :
  snd <$> run re_mask_suffix t p m (λ _ p m, Some (m, p))
  = (λ n, p + n) <$> match_mask t.
Proof.
  unfold re_mask_suffix, match_mask. cbn [run]. rewrite run_lit.
  destruct (startswith "_mask.tif" t); [|done]. cbn [andb].
  change (String.length "_mask.tif") with 9. by destruct (at_end (drop 9 t)).
Qed.

Lemma match_mask_backtrack (s : string) : match_length re_mask_suffix s = match_mask s.
Proof.
  unfold match_length, match_at. rewrite run_mask_suffix.
  by destruct (match_mask s).
Qed.

Lemma match_area3_backtrack (s : string) : match_length re_area3_suffix s = match_area3 s.
Proof.
  unfold match_length, match_at, re_area3_suffix, match_area3. cbn [run].
  rewrite run_lit. change (String.length "_area") with 5.
  destruct (startswith "_area" s).
  - destruct (drop 5 s) as [|d1 [|d2 [|d3 r]]]; cbn [run andb];
      try (by repeat case_match).
    destruct (is_digit_3_8 d1), (is_digit d2), (is_digit d3); cbn [andb]; try done.
    rewrite run_mask_suffix. by destruct (match_mask r).
  - by destruct (drop 5 s) as [|d1 [|d2 [|d3 r]]].
Qed.

Lemma plus_greedy_digits (u : string) (p : nat) :
  snd <$> plus_greedy is_digit u p
            (λ t q, run re_mask_suffix t q 0 (λ _ p m, Some (m, p)))
  = (λ n, p + n) <$> digits_then_mask u.
Proof.
  revert p. induction u as [|c r IH]; intros p; [done|].
  cbn [plus_greedy digits_then_mask]. destruct (is_digit c); [|done].
  specialize (IH (S p)).
  destruct (digits_then_mask r) as [n|].
  - destruct (plus_greedy _ _ _ _) as [[g m]|]; [|done].
    injection IH as ->. simpl. f_equal. lia.
  - destruct (plus_greedy _ _ _ _); [done|].
    rewrite run_mask_suffix. destruct (match_mask r); simpl; [|done]. f_equal. lia.
Qed.

Lemma match_area_backtrack (s : string) : match_length re_area_suffix s = match_area s.
Proof.
  unfold match_length, match_at, re_area_suffix, match_area. cbn [run].
  rewrite run_lit. change (String.length "_area") with 5.
  destruct (startswith "_area" s); [|done].
  rewrite plus_greedy_digits. by destruct (digits_then_mask (drop 5 s)).
Qed.

End backtrack_facts.

(** ** FilenameRecoverer *)

Section recover_facts.
Import PyStr Regex Recover Aux.

Lemma halved_prefix (b : string) : ∃ r, b = halved b +:+ r.
Proof. apply take_prefix. Qed.

Lemma halved_length (b : string) : 2 * String.length (halved b) ≤ String.length b.
Proof.
  unfold halved. pose proof (take_length_le (String.length b / 2) b) as H.
  pose proof (Nat.Div0.mul_div_le (String.length b) 2). lia.
Qed.

(** What the marker loop returns is a match of the lazy pattern. *)
Lemma marker_loop_inv (ms : list string) (value r : string) :
  marker_loop ms value = Some r →
  ∃ b q g, value = halved b +:+ q ∧ search_mask (halved b) = Some g ∧ r = g +:+ ".tif".
Proof.
  induction ms as [|marker ms IH]; simpl; [done|].
  destruct (before marker value) as [b|] eqn:Hb; [|done].
  rewrite search_mask_backtrack.
  destruct (search_mask (halved b)) as [g|] eqn:Hg; [|done].
  intros [= <-]. apply before_prefix in Hb as [q1 ->].
  destruct (halved_prefix b) as [q2 Hq2].
  exists b, (q2 +:+ q1), g. split_and!; [|done..].
  by rewrite <-app_assoc, <-Hq2.
Qed.

(** The loop returns nothing when no front part of the value, of at most
    half its length, holds a place for the lazy pattern. *)
Lemma marker_loop_None (ms : list string) (value : string) :
  (∀ p q, value = p +:+ q → 2 * String.length p ≤ String.length value → ¬ hit p) →
  marker_loop ms value = None.
Proof.
  intros H. induction ms as [|marker ms IH]; simpl; [done|].
  destruct (before marker value) as [b|] eqn:Hb; [|done].
  rewrite search_mask_backtrack.
  destruct (search_mask (halved b)) as [g|] eqn:Hg; [|done].
  exfalso. apply search_mask_hit in Hg.
  apply before_prefix in Hb as [q1 Hq1].
  destruct (halved_prefix b) as [q2 Hq2].
  apply (H (halved b) (q2 +:+ q1)); [by rewrite <-app_assoc, <-Hq2| |done].
  pose proof (halved_length b). rewrite Hq1, app_length. lia.
Qed.

Lemma marker_loop_no_hit (ms : list string) (value : string) :
  search_mask value = None → marker_loop ms value = None.
Proof.
  intros Hv. apply marker_loop_None. intros p q -> _ Hp.
  apply search_mask_None in Hv. apply Hv.
  rewrite <-(app_nil_l (p +:+ q)). by apply hit_within.
Qed.

(** The paths through [cleanFilename]. *)
Lemma cleanFilename_cases (v : string) :
  (v = "" ∧ cleanFilename v = "unknown")
  ∨ (∃ u g, lazy_from u = Some g ∧ cleanFilename v = g +:+ ".tif")
  ∨ (∃ pre u o, search_mask (strip v) = None ∧ strip v = pre +:+ u
                ∧ greedy_from u = Some o ∧ cleanFilename v = o)
  ∨ (v ≠ "" ∧ search_mask (strip v) = None ∧ search_tif (strip v) = None
     ∧ cleanFilename v = "unknown_" +:+ take 30 (strip v)).
Proof.
  unfold cleanFilename. destruct v as [|c v]; [by left|]. right.
  cbn [truthy negb]. set (value := strip (String c v)).
  rewrite search_mask_backtrack, search_tif_backtrack.
  destruct (marker_loop markers value) as [r|] eqn:Hm.
  { left. apply marker_loop_inv in Hm as (b & q & g & _ & Hg & ->).
    apply search_mask_inv in Hg as (pre & u & _ & Hu). by exists u, g. }
  destruct (search_mask value) as [g|] eqn:Hg.
  { left. apply search_mask_inv in Hg as (pre & u & _ & Hu). by exists u, g. }
  right. destruct (search_tif value) as [m|] eqn:Ht.
  - left. apply search_tif_inv in Ht as (pre & u & Hv & Hu). by exists pre, u, m.
  - by right.
Qed.

(** A key the lazy pattern produced is recovered from itself. *)
Lemma no_hit_front (x t p q : string) :
  lazy_split x t → String.length t = 9 →
  x +:+ t = p +:+ q → 2 * String.length p ≤ String.length (x +:+ t) → ¬ hit p.
Proof.
  intros (Hx & _ & _ & Hlazy) Ht E Hlen (a & d & b & -> & _ & Hb).
  rewrite !app_length in Hlen. cbn [String.length] in Hlen.
  pose proof (mask_tail_length _ Hb) as Hb8.
  assert ((a +:+ String d "") +:+ (b +:+ q) = x +:+ t) as E'.
  { by rewrite E, !app_assoc. }
  apply app_eq_split in E' as [[e [Hxe Hbq]]|[e [Hae Hte]]].
  - destruct e as [|e0 e].
    + rewrite app_nil_r in Hxe. rewrite Hxe, app_length in Hlen.
      cbn [String.length] in Hlen. lia.
    + assert (mask_tail (String e0 e +:+ t) = false) as Hf.
      { apply (Hlazy (a +:+ String d "")); [done| |done]. by destruct a. }
      rewrite <-Hbq, (mask_tail_extend _ q Hb) in Hf. done.
  - apply (f_equal String.length) in Hae. rewrite !app_length in Hae.
    cbn [String.length] in Hae. lia.
Qed.

Lemma clean_mask_output (u g : string) :
  lazy_from u = Some g → stripped (g +:+ ".tif") →
  cleanFilename (g +:+ ".tif") = g +:+ ".tif".
Proof.
  intros (x & t & -> & -> & Hsplit)%lazy_from_inv Hstrip.
  pose proof Hsplit as (Hx & Hn & Ht & Hlazy).
  destruct (mask_tail_head _ Ht) as (c & m & Htake & Hm & Hc & Ht' & r & Hr).
  rewrite Htake in *. set (t' := String c m +:+ ".tif").
  assert ((x +:+ String c m) +:+ ".tif" = x +:+ t') as Ho by apply app_assoc.
  assert (lazy_split x t') as Hsplit'.
  { split_and!; [done..|]. intros x1 x2 E H1 H2.
    specialize (Hlazy x1 x2 E H1 H2). rewrite Hr in Hlazy.
    unfold t'. rewrite !app_cons in *.
    rewrite mask_tail_cut in Hlazy by done. by rewrite mask_tail_cut. }
  assert (take 5 t' = String c m) as Htake'.
  { unfold t'. replace 5 with (String.length (String c m)) by (simpl; lia).
    apply take_app_length. }
  assert (String.length t' = 9) as Hlen.
  { unfold t'. rewrite app_length. simpl. lia. }
  pose proof (lazy_from_intro x t' Hsplit') as Hlazy'. rewrite Htake' in Hlazy'.
  unfold cleanFilename. rewrite Hstrip. rewrite Ho in *.
  assert (truthy (x +:+ t') = true) as -> by (by destruct x).
  cbn [negb]. rewrite marker_loop_None.
  - by rewrite search_mask_backtrack, (search_mask_head _ _ Hlazy'), <-Ho.
  - intros p q E Hp. by eapply no_hit_front.
Qed.

(** A key the greedy pattern produced is recovered from itself. *)
Lemma clean_tif_output (v pre u o : string) :
  search_mask v = None → v = pre +:+ u → greedy_from u = Some o →
  stripped o → cleanFilename o = o.
Proof.
  intros Hv -> (y & e & r & -> & -> & Hy & Hn & He & Hl)%greedy_from_inv Hstrip.
  apply search_mask_None in Hv.
  assert (∀ p q, y +:+ e = p +:+ q → ¬ hit p) as Hnohit.
  { intros p q E Hp. apply Hv.
    replace (pre +:+ y +:+ e +:+ r) with (pre +:+ p +:+ (q +:+ r)).
    - by apply hit_within.
    - rewrite <-(app_assoc p q r), <-E. by rewrite app_assoc. }
  unfold cleanFilename. rewrite Hstrip.
  assert (truthy (y +:+ e) = true) as -> by (by destruct y).
  cbn [negb]. rewrite marker_loop_None by (intros p q E _; by eapply Hnohit).
  rewrite search_mask_backtrack, search_tif_backtrack.
  assert (search_mask (y +:+ e) = None) as ->.
  { apply search_mask_None. apply (Hnohit (y +:+ e) ""). by rewrite app_nil_r. }
  by rewrite (search_tif_head _ _ (greedy_from_whole y e Hy Hn He Hl)).
Qed.

End recover_facts.

Section recover_claims.
Import PyStr Regex Recover Aux.

Lemma cleanFilename_unmatched (v : string) :
  v ≠ "" → search_mask (strip v) = None → search_tif (strip v) = None →
  cleanFilename v = "unknown_" +:+ take 30 (strip v).
Proof.
  intros Hv Hm Ht. unfold cleanFilename.
  apply truthy_nonempty in Hv as ->. cbn [negb].
  by rewrite search_mask_backtrack, search_tif_backtrack, (marker_loop_no_hit _ _ Hm), Hm, Ht.
Qed.

(** C3, as stated, fails on the placeholder path: the placeholder of a value
    without filename is itself a value without filename, and gets a second
    [unknown_] in front. *)
Lemma cleanFilename_not_idempotent :
  ¬ (∀ v : string, cleanFilename (cleanFilename v) = cleanFilename v).
Proof. intros H. specialize (H "abc"). vm_compute in H. discriminate H. Qed.

(** A key with a blank in front is not a fixed point either. *)
Example cleanFilename_blank_in_front :
  cleanFilename "dir/ b.tif" = " b.tif" ∧ cleanFilename " b.tif" = "b.tif".
Proof. by vm_compute. Qed.

(** C3 (amended): for every value on which one of the two filename patterns
    matches and whose recovered key starts and ends with no blank, recovering
    from the recovered key returns that key. *)
Theorem cleanFilename_idempotent_on_match (v : string) :
  is_Some (search re_mask_name (strip v)) ∨ is_Some (search re_tif_name (strip v)) →
  stripped (cleanFilename v) →
  cleanFilename (cleanFilename v) = cleanFilename v.
Proof.
  rewrite search_mask_backtrack, search_tif_backtrack. intros Hmatch Hstrip.
  destruct (cleanFilename_cases v)
    as [[-> _]|[(u & g & Hu & Hv)|[(pre & u & o & Hm & Hs & Hu & Hv)|(_ & Hm & Ht & _)]]].
  - destruct Hmatch as [[? H]|[? H]]; vm_compute in H; discriminate H.
  - rewrite Hv in *. by eapply clean_mask_output.
  - rewrite Hv in *. by eapply clean_tif_output.
  - rewrite Hm, Ht in Hmatch. destruct Hmatch as [[? H]|[? H]]; discriminate H.
Qed.

Lemma cleanFilename_idempotent_witness :
  let v := "xyz_mask.tif_mask.tifImageDescriptionjunk" in
  (is_Some (search re_mask_name (strip v)) ∨ is_Some (search re_tif_name (strip v)))
  ∧ stripped (cleanFilename v)
  ∧ cleanFilename (cleanFilename v) = cleanFilename v.
Proof.
  intros v.
  assert (is_Some (search re_mask_name (strip v))
          ∨ is_Some (search re_tif_name (strip v))) as H1.
  { left. exists "xyz_mask". reflexivity. }
  assert (stripped (cleanFilename v)) as H2 by reflexivity.
  exact (conj H1 (conj H2 (cleanFilename_idempotent_on_match v H1 H2))).
Defined.

(** C4, as stated, fails: without a primary identity column and without a
    scan hit the key is the bare ["unknown"], not ["unknown_"] followed by
    text of the row. *)
Lemma extractFilenameFromRow_bare_unknown :
  ¬ (∀ r : row,
       primary_cell r = None → scan_cells (r.*2) = None →
       ∃ value, extractFilenameFromRow r = "unknown_" +:+ take 30 value).
Proof.
  intros H. destruct (H [("2. Notes", Some "abc")] eq_refl eq_refl) as [value Hv].
  vm_compute in Hv. discriminate Hv.
Qed.

(** The placeholder is built from the stripped value, not from the value as
    it stands in the row. *)
Example cleanFilename_placeholder_stripped :
  cleanFilename " abc" = "unknown_abc" ∧ "unknown_" +:+ take 30 " abc" = "unknown_ abc".
Proof. by vm_compute. Qed.

(** C4 (amended): on a row from which no filename can be recovered the key
    is ["unknown_"] followed by the first 30 characters of the stripped value
    of the primary identity column when that column is present and its value
    not empty, and the bare ["unknown"] otherwise (value empty or missing, or
    no such column and no scan hit). *)
Theorem extractFilenameFromRow_unrecoverable (r : row) :
  unresolved r →
  extractFilenameFromRow r =
    match primary_cell r with
    | Some (Some value) =>
        if truthy value then "unknown_" +:+ take 30 (strip value) else "unknown"
    | _ => "unknown"
    end.
Proof.
  unfold unresolved, extractFilenameFromRow.
  destruct (primary_cell r) as [[value|]|]; simpl.
  - rewrite search_mask_backtrack, search_tif_backtrack.
    intros [Hm Ht]. destruct value as [|c value]; [done|].
    by apply cleanFilename_unmatched.
  - done.
  - by intros ->.
Qed.

Lemma extractFilenameFromRow_unrecoverable_witness :
  let r : row := [("1. Image", Some "  cell 7 (no file name)  "); ("6. D", Some "1.62")] in
  unresolved r ∧ extractFilenameFromRow r = "unknown_cell 7 (no file name)".
Proof.
  intros r.
  assert (unresolved r) as H by (split; reflexivity).
  exact (conj H (extractFilenameFromRow_unrecoverable r H)).
Defined.



End recover_claims.

(** ** ColumnMapper *)

Section column_facts.
Import PyStr Combiner Aux.

Lemma startswith_comparable (p q h : string) :
  startswith p h = true → startswith q h = true → comparable p q = true.
Proof.
  unfold comparable. revert q h. induction p as [|a p IH]; intros q h; [done|].
  destruct q as [|b q]; [by rewrite orb_true_r|].
  destruct h as [|c h]; [done|]. simpl.
  intros [Ha Hp]%andb_prop [Hb Hq]%andb_prop.
  apply Ascii.eqb_eq in Ha as ->. apply Ascii.eqb_eq in Hb as ->.
  rewrite Ascii.eqb_refl. simpl. by apply (IH q h).
Qed.

(** [first_match] returns the first header that starts with the prefix. *)
Lemma first_match_Some (pattern : string) (fieldnames : list string) (col : string) :
  first_match pattern fieldnames = Some col ↔
  ∃ l1 l2, fieldnames = l1 ++ col :: l2 ∧ startswith pattern col = true
           ∧ Forall (λ x, startswith pattern x = false) l1.
Proof.
  induction fieldnames as [|x fs IH]; simpl.
  - split; [done|]. intros (l1 & l2 & E & _). by destruct l1.
  - destruct (startswith pattern x) eqn:Hx.
    + split.
      * intros [= <-]. by exists [], fs.
      * intros ([|y l1] & l2 & E & Hc & Hl); simplify_eq/=; [done|].
        apply Forall_cons in Hl as [Hy _]. congruence.
    + rewrite IH. split.
      * intros (l1 & l2 & -> & Hc & Hl). exists (x :: l1), l2. by repeat constructor.
      * intros ([|y l1] & l2 & E & Hc & Hl); simplify_eq/=; [congruence|].
        apply Forall_cons in Hl as [_ Hl]. by exists l1, l2.
Qed.

Lemma first_match_startswith (pattern : string) (fieldnames : list string) (col : string) :
  first_match pattern fieldnames = Some col → startswith pattern col = true.
Proof. rewrite first_match_Some. by intros (_ & _ & _ & H & _). Qed.

Lemma elem_of_bindings (cm : list (string * string)) (fieldnames : list string)
    (col name : string) :
  (col, name) ∈ bindings cm fieldnames ↔
  ∃ pattern, (pattern, name) ∈ cm ∧ first_match pattern fieldnames = Some col.
Proof.
  induction cm as [|[p n] cm IH]; simpl.
  - split; [by intros ?%elem_of_nil|]. by intros (? & ?%elem_of_nil & _).
  - destruct (first_match p fieldnames) as [c|] eqn:Hp.
    + rewrite elem_of_cons, IH. split.
      * intros [[= -> ->]|(q & Hq & Hm)].
        -- exists p. split; [by left|done].
        -- exists q. split; [by right|done].
      * intros (q & [[= -> ->]|Hq]%elem_of_cons & Hm).
        -- left. congruence.
        -- right. by exists q.
    + rewrite IH. split.
      * intros (q & Hq & Hm). exists q. split; [by right|done].
      * intros (q & [[= -> ->]|Hq]%elem_of_cons & Hm); [congruence|]. by exists q.
Qed.

Lemma bindings_names_sublist (cm : list (string * string)) (fieldnames : list string) :
  (bindings cm fieldnames).*2 `sublist_of` cm.*2.
Proof.
  induction cm as [|[p n] cm IH]; simpl; [done|].
  destruct (first_match p fieldnames); simpl.
  - by apply sublist_skip.
  - by apply sublist_cons.
Qed.

Lemma prefix_free_tail (e : string * string) (cm : list (string * string)) :
  prefix_free (e :: cm) → prefix_free cm.
Proof.
  intros [Hnd Hall]. split.
  - by apply NoDup_cons in Hnd as [_ ?].
  - apply Forall_cons in Hall as [_ Hall].
    eapply Forall_impl; [exact Hall|]. intros e1 H. by apply Forall_cons in H as [_ ?].
Qed.

(** No header is assigned twice. *)
Lemma bindings_headers_NoDup (cm : list (string * string)) (fieldnames : list string) :
  prefix_free cm → NoDup (bindings cm fieldnames).*1.
Proof.
  induction cm as [|[p n] cm IH]; intros Hpf; simpl; [constructor|].
  pose proof (IH (prefix_free_tail _ _ Hpf)) as Hrest.
  destruct (first_match p fieldnames) as [c|] eqn:Hp; [|done].
  simpl. constructor; [|done].
  intros ([c' m] & -> & (q & Hq & Hm)%elem_of_bindings)%list_elem_of_fmap. simpl in *.
  destruct Hpf as [Hnd Hall].
  apply NoDup_cons in Hnd as [Hnotin _].
  apply Forall_cons in Hall as [Hall _]. apply Forall_cons in Hall as [_ Hall].
  rewrite Forall_forall in Hall. specialize (Hall _ Hq). simpl in Hall.
  apply Hnotin. rewrite Hall.
  - apply list_elem_of_fmap. by exists (q, m).
  - eapply startswith_comparable; by eapply first_match_startswith.
Qed.

Lemma foldl_insert_other (l : list (string * string)) (acc : gmap string string) (k : string) :
  k ∉ l.*1 → foldl (λ acc b, <[b.1 := b.2]> acc) acc l !! k = acc !! k.
Proof.
  revert acc. induction l as [|[k' v'] l IH]; intros acc Hk; simpl; [done|].
  simpl in Hk. apply not_elem_of_cons in Hk as [Hne Hk].
  rewrite IH by done. by rewrite lookup_insert_ne.
Qed.

Lemma foldl_insert_elem (l : list (string * string)) (acc : gmap string string)
    (k v : string) :
  NoDup l.*1 → (k, v) ∈ l → foldl (λ acc b, <[b.1 := b.2]> acc) acc l !! k = Some v.
Proof.
  revert acc. induction l as [|[k' v'] l IH]; intros acc Hnd Hin; simpl.
  - by apply elem_of_nil in Hin.
  - simpl in Hnd. apply NoDup_cons in Hnd as [Hk' Hnd].
    apply elem_of_cons in Hin as [[= -> ->]|Hin].
    + rewrite foldl_insert_other by done. apply lookup_insert_eq.
    + by apply IH.
Qed.

Lemma actualColumns_lookup (cm : list (string * string)) (fieldnames : list string)
    (col name : string) :
  NoDup (bindings cm fieldnames).*1 →
  actualColumns cm fieldnames !! col = Some name ↔ (col, name) ∈ bindings cm fieldnames.
Proof.
  intros Hnd. unfold actualColumns. split.
  - intros H. destruct (decide (col ∈ (bindings cm fieldnames).*1)) as [Hin|Hout].
    + apply list_elem_of_fmap in Hin as ([c n] & -> & Hin). simpl in *.
      rewrite (foldl_insert_elem _ _ _ _ Hnd Hin) in H. by simplify_eq.
    + rewrite foldl_insert_other in H by done. by rewrite lookup_empty in H.
  - by apply foldl_insert_elem.
Qed.

Lemma NoDup_snd_inj (l : list (string * string)) (a b n : string) :
  NoDup l.*2 → (a, n) ∈ l → (b, n) ∈ l → a = b.
Proof.
  induction l as [|[x y] l IH]; simpl; intros Hnd Ha Hb.
  - by apply elem_of_nil in Ha.
  - apply NoDup_cons in Hnd as [Hy Hnd].
    apply elem_of_cons in Ha as [Ha|Ha]; apply elem_of_cons in Hb as [Hb|Hb];
      simplify_eq.
    + done.
    + exfalso. apply Hy. apply list_elem_of_fmap. by exists (b, y).
    + exfalso. apply Hy. apply list_elem_of_fmap. by exists (a, y).
    + by apply IH.
Qed.

Lemma column_map_prefix_free : prefix_free column_map.
Proof.
  split.
  - by apply (bool_decide_unpack _); vm_compute.
  - by apply (bool_decide_unpack _); vm_compute.
Qed.

Lemma column_map_names_NoDup : NoDup column_map.*2.
Proof. by apply (bool_decide_unpack _); vm_compute. Qed.

(** What is bound comes from an entry of the table and the first header
    that starts with its prefix. *)
Lemma actualColumns_from_table (fieldnames : list string) (col name : string) :
  actualColumns column_map fieldnames !! col = Some name →
  ∃ pattern, (pattern, name) ∈ column_map ∧ first_match pattern fieldnames = Some col.
Proof.
  intros H. apply actualColumns_lookup in H.
  - by apply elem_of_bindings.
  - apply bindings_headers_NoDup, column_map_prefix_free.
Qed.

(** C2: whatever the header row, the mapping binds to each canonical name,
    taken in the order of the prefix table, the first header that starts with
    its prefix, and nothing else; no header is assigned a second time and no
    canonical name is assigned twice, so the bound headers and the canonical
    names correspond one to one. *)
Theorem actualColumns_one_to_one (fieldnames : list string) :
  let cols := actualColumns column_map fieldnames in
  (∀ pattern name l1 col l2,
     (pattern, name) ∈ column_map →
     fieldnames = l1 ++ col :: l2 → startswith pattern col = true →
     Forall (λ x, startswith pattern x = false) l1 →
     cols !! col = Some name)
  ∧ (∀ col name,
       cols !! col = Some name →
       ∃ pattern, (pattern, name) ∈ column_map
                  ∧ first_match pattern fieldnames = Some col)
  ∧ NoDup (bindings column_map fieldnames).*1
  ∧ NoDup (bindings column_map fieldnames).*2
  ∧ (∀ col1 col2 name,
       cols !! col1 = Some name → cols !! col2 = Some name → col1 = col2).
Proof.
  intros cols.
  pose proof (bindings_headers_NoDup column_map fieldnames column_map_prefix_free) as Hh.
  assert (NoDup (bindings column_map fieldnames).*2) as Hn.
  { eapply sublist_NoDup; [apply column_map_names_NoDup|apply bindings_names_sublist]. }
  split_and!; [| |done|done|].
  - intros pattern name l1 col l2 Hin E Hc Hl.
    apply actualColumns_lookup; [done|]. apply elem_of_bindings.
    exists pattern. split; [done|]. apply first_match_Some. by exists l1, l2.
  - apply actualColumns_from_table.
  - intros col1 col2 name H1 H2.
    apply actualColumns_lookup in H1; [|done]. apply actualColumns_lookup in H2; [|done].
    by eapply NoDup_snd_inj.
Qed.

(** Without the care taken in the prefix table the loop would rebind a
    header: a later prefix that matches the same header overwrites it. *)
Example actualColumns_rebinds :
  actualColumns [("1", "a"); ("13", "b")] ["13. x"] !! "13. x" = Some "b".
Proof. by vm_compute. Qed.

End column_facts.

(** ** RowExtractor and RecordMerger *)

Section merge_facts.
Import PyStr Recover Combiner Aux.

(** One row extends the record of its key with the fields it carries. *)
Lemma process_row_eq (cols : gmap string string) (r : row)
    (data : gmap string (gmap string string)) :
  let filename := extractFilenameFromRow r in
  process_row cols r data =
    <[filename := row_fields cols r
                  ∪ default {["filename" := filename]} (data !! filename)]> data.
Proof.
  intros filename. unfold process_row, row_fields. fold filename.
  rewrite !map_fold_foldr.
  set (base := default {["filename" := filename]} (data !! filename)).
  set (data0 := match data !! filename with
                | Some _ => data
                | None => <[filename := {["filename" := filename]}]> data
                end).
  assert (data0 = <[filename := ∅ ∪ base]> data) as ->.
  { unfold data0, base. rewrite (left_id_L ∅ (∪)).
    destruct (data !! filename) as [old|] eqn:Hk; simpl; [|done].
    by rewrite insert_id. }
  induction (map_to_list cols) as [|[col newName] l IH]; simpl; [done|].
  rewrite IH. destruct (measurement col r) as [value|]; [|done].
  unfold set_field. by rewrite alter_insert_eq, insert_union_l.
Qed.

Lemma merge_record_lookup (k k' : string) (m : gmap string string)
    (t : gmap string (gmap string string)) :
  merge_record k m t !! k' =
    if decide (k = k')
    then Some (match t !! k with Some existing => m ∪ existing | None => m end)
    else t !! k'.
Proof.
  unfold merge_record. destruct (t !! k) as [old|] eqn:Hk; by rewrite lookup_insert.
Qed.

(** The merge of one folder's records, key by key. *)
Lemma merge_folder_lookup (folderData allData : gmap string (gmap string string))
    (k : string) :
  merge_folder folderData allData !! k =
    match folderData !! k with
    | Some m =>
        Some (match allData !! k with Some existing => m ∪ existing | None => m end)
    | None => allData !! k
    end.
Proof.
  unfold merge_folder. revert k.
  apply (map_fold_weak_ind
           (λ r F, ∀ k, r !! k =
              match F !! k with
              | Some m =>
                  Some (match allData !! k with Some existing => m ∪ existing | None => m end)
              | None => allData !! k
              end)).
  - intros k. by rewrite lookup_empty.
  - intros i m F r Hi IH k. rewrite merge_record_lookup, lookup_insert.
    destruct (decide (i = k)) as [->|Hne]; [|apply IH].
    by rewrite IH, Hi.
Qed.

Lemma merge_folder_empty (allData : gmap string (gmap string string)) :
  merge_folder ∅ allData = allData.
Proof. apply map_fold_empty. Qed.

Lemma dom_merge_folder (folderData allData : gmap string (gmap string string)) :
  dom (merge_folder folderData allData) = dom folderData ∪ dom allData.
Proof.
  apply set_eq. intros k. rewrite elem_of_union, !elem_of_dom, merge_folder_lookup.
  destruct (folderData !! k), (allData !! k); split; eauto;
    intros [[? ?]|[? ?]]; done.
Qed.

(** C1: merging a partial record under a key inserts it when the key is new
    and otherwise overwrites or extends the existing record field by field,
    leaving the other keys alone; so does a row within a file, whose fields
    go into the record of its key, created with the field [filename] when
    the key is new. Merging [{filename: k, a: 1}] and then
    [{filename: k, b: 2}] under [k] gives [{filename: k, a: 1, b: 2}], and
    merging [a: 1] and then [a: 2] leaves [a] at 2. *)
Theorem merge_field_level (k : string) (m : gmap string string)
    (t : gmap string (gmap string string)) :
  (t !! k = None → merge_record k m t !! k = Some m)
  ∧ (∀ existing, t !! k = Some existing →
       ∃ merged, merge_record k m t !! k = Some merged
                 ∧ ∀ field, merged !! field =
                      match m !! field with
                      | Some value => Some value
                      | None => existing !! field
                      end)
  ∧ (∀ k', k' ≠ k → merge_record k m t !! k' = t !! k')
  ∧ (∀ cols r,
       extractFilenameFromRow r = k →
       process_row cols r t !! k
       = Some (row_fields cols r ∪ default {["filename" := k]} (t !! k))
       ∧ ∀ k', k' ≠ k → process_row cols r t !! k' = t !! k')
  ∧ merge_record k {["filename" := k; "b" := "2"]}
      (merge_record k {["filename" := k; "a" := "1"]} ∅) !! k
    = Some {["filename" := k; "a" := "1"; "b" := "2"]}
  ∧ (∃ merged,
       merge_record k {["filename" := k; "a" := "2"]}
         (merge_record k {["filename" := k; "a" := "1"]} ∅) !! k = Some merged
       ∧ merged !! "a" = Some "2").
Proof.
  split_and!.
  - intros Hk. rewrite merge_record_lookup, Hk. by rewrite decide_True.
  - intros existing Hk. exists (m ∪ existing). split.
    + rewrite merge_record_lookup, Hk. by rewrite decide_True.
    + intros field. rewrite lookup_union. by destruct (m !! field), (existing !! field).
  - intros k' Hne. rewrite merge_record_lookup. by rewrite decide_False.
  - intros cols r <-. rewrite process_row_eq. split.
    + by rewrite lookup_insert_eq.
    + intros k' Hne. by rewrite lookup_insert_ne.
  - rewrite !merge_record_lookup, !decide_True, lookup_empty by done.
    reflexivity.
  - eexists. split.
    + by rewrite !merge_record_lookup, !decide_True, lookup_empty by done.
    + rewrite lookup_union. by simplify_map_eq.
Qed.

(** The same within one file and across two folders, through the code that
    reads the files. *)
Example merge_within_file :
  (processFracLacFile
     (Opened (Some ["1. Image"; "6. D"; "87. L"])
        [Row [("1. Image", Some "c7_mask.tif"); ("6. D", Some "1"); ("87. L", Some "")];
         Row [("1. Image", Some "c7_mask.tif"); ("6. D", Some ""); ("87. L", Some "2")]])
     column_map).1
  = {["c7_mask.tif" :=
        {["filename" := "c7_mask.tif"; "fractal_dimension" := "1"; "lacunarity" := "2"]}]}.
Proof. by vm_compute. Qed.

Example merge_across_folders :
  (process_folders
     [Some (Opened (Some ["1. Image"; "6. D"])
              [Row [("1. Image", Some "c7_mask.tif"); ("6. D", Some "1")]]);
      Some (Opened (Some ["1. Image"; "6. D"])
              [Row [("1. Image", Some "c7_mask.tif"); ("6. D", Some "2")]])]
     ∅ []).1
  = {["c7_mask.tif" := {["filename" := "c7_mask.tif"; "fractal_dimension" := "2"]}]}.
Proof. by vm_compute. Qed.

End merge_facts.

(** ** Read failures *)

Section failure_facts.
Import PyStr Recover Combiner Aux.

Lemma read_rows_spec (cols : gmap string string) (lines : list read_event)
    (data : gmap string (gmap string string)) :
  read_rows cols lines data
  = (foldl (λ d r, process_row cols r d) data (rows_before lines), first_error lines).
Proof.
  revert data. induction lines as [|[r|e] lines IH]; intros data; simpl; [done| |done].
  by rewrite IH.
Qed.

(** [processFracLacFile] returns the records of the rows read before the
    failure, if there is one, and prints the failure. *)
Lemma processFracLacFile_spec (f : source_file) :
  processFracLacFile f column_map
  = (rows_read f, match failure f with Some e => [error_line e] | None => [] end).
Proof.
  destruct f as [e|[fieldnames|] lines]; simpl; [done| |done].
  rewrite read_rows_spec. by destruct (first_error lines).
Qed.

Lemma process_folders_cons (f : source_file) (rest : list (option source_file))
    (allData : gmap string (gmap string string)) (printed : list string) :
  process_folders (Some f :: rest) allData printed
  = process_folders rest (merge_folder (rows_read f) allData)
      (printed ++ match failure f with Some e => [error_line e] | None => [] end).
Proof.
  change (process_folders (Some f :: rest) allData printed)
    with (let '(folderData, out) := processFracLacFile f column_map in
          process_folders rest (merge_folder folderData allData) (printed ++ out)).
  by rewrite processFracLacFile_spec.
Qed.

(** C6, as stated, fails: a file whose reading raises after its first row
    leaves that row in the table. *)
Lemma read_failure_keeps_rows :
  ¬ (∀ (f : source_file) (e : string) (allData : gmap string (gmap string string)),
       failure f = Some e →
       merge_folder (processFracLacFile f column_map).1 allData = allData).
Proof.
  intros H.
  specialize (H (Opened (Some ["1. Image"; "6. D"])
                   [Row [("1. Image", Some "c7_mask.tif"); ("6. D", Some "1.62")];
                    ReadError "line contains NULL byte"])
                "line contains NULL byte" ∅ eq_refl).
  apply (f_equal (λ t, t !! "c7_mask.tif")) in H. vm_compute in H. discriminate H.
Qed.

(** C6 (amended): when reading a file raises, the failure is printed with its
    cause, the file contributes the records of the rows read before the
    failure (none when it fails before the first row), and the run goes on
    with the remaining folders. *)
Theorem read_failure_recovered (f : source_file) (e : string) :
  failure f = Some e →
  processFracLacFile f column_map = (rows_read f, [error_line e])
  ∧ (∀ rest allData printed,
       process_folders (Some f :: rest) allData printed
       = process_folders rest (merge_folder (rows_read f) allData)
           (printed ++ [error_line e]))
  ∧ ((∀ fieldnames lines, f = Opened (Some fieldnames) lines → rows_before lines = []) →
     rows_read f = ∅ ∧ ∀ allData, merge_folder (rows_read f) allData = allData).
Proof.
  intros He. split_and!.
  - by rewrite processFracLacFile_spec, He.
  - intros rest allData printed. by rewrite process_folders_cons, He.
  - intros Hfirst.
    assert (rows_read f = ∅) as ->.
    { destruct f as [?|[fieldnames|] lines]; simpl; [done| |done].
      by rewrite (Hfirst fieldnames lines eq_refl). }
    split; [done|]. intros allData. apply merge_folder_empty.
Qed.

Lemma read_failure_recovered_witness :
  let f := Opened (Some ["1. Image"; "6. D"])
             [Row [("1. Image", Some "c7_mask.tif"); ("6. D", Some "1.62")];
              ReadError "line contains NULL byte";
              Row [("1. Image", Some "c8_mask.tif"); ("6. D", Some "1.58")]] in
  failure f = Some "line contains NULL byte"
  ∧ processFracLacFile f column_map
    = ({["c7_mask.tif" := {["filename" := "c7_mask.tif"; "fractal_dimension" := "1.62"]}]},
       ["  ERROR: line contains NULL byte"]).
Proof.
  intros f.
  assert (failure f = Some "line contains NULL byte") as H by reflexivity.
  split; [exact H|].
  exact (proj1 (read_failure_recovered f "line contains NULL byte" H)).
Defined.

End failure_facts.

(** ** The order of the rows written *)

Section order_facts.
Import PyStr Recover Combiner Aux.

Lemma elem_of_keys (t : gmap string (gmap string string)) (k : string) :
  k ∈ keys t ↔ is_Some (t !! k).
Proof.
  unfold keys. rewrite list_elem_of_fmap. split.
  - intros ([k' rec] & -> & H%elem_of_map_to_list). by exists rec.
  - intros [rec H]. exists (k, rec). split; [done|]. by apply elem_of_map_to_list.
Qed.

Lemma keys_NoDup (t : gmap string (gmap string string)) : NoDup (keys t).
Proof. apply NoDup_fst_map_to_list. Qed.

Lemma sorted_Sorted (l : list string) : Sorted String.le (sorted l).
Proof. apply (Sorted_merge_sort String.le). Qed.

Lemma sorted_Permutation (l : list string) : sorted l ≡ₚ l.
Proof. apply merge_sort_Permutation. Qed.

(** The order written depends on the set of keys alone. *)
Lemma sorted_keys_dom (t1 t2 : gmap string (gmap string string)) :
  dom t1 = dom t2 → sorted (keys t1) = sorted (keys t2).
Proof.
  intros Hdom. apply (Sorted_unique String.le); [apply sorted_Sorted..|].
  rewrite !sorted_Permutation. apply NoDup_Permutation; [apply keys_NoDup..|].
  intros k. by rewrite !elem_of_keys, <-!elem_of_dom, Hdom.
Qed.

Lemma dom_process_folders (folders : list (option source_file))
    (allData : gmap string (gmap string string)) (printed : list string) :
  dom (process_folders folders allData printed).1 = folder_keys folders ∪ dom allData.
Proof.
  revert allData printed. unfold folder_keys.
  induction folders as [|[f|] folders IH]; intros allData printed.
  - simpl. by rewrite (left_id_L ∅ (∪)).
  - rewrite process_folders_cons, IH, dom_merge_folder, fmap_cons, union_list_cons.
    rewrite !(assoc_L (∪)). f_equal. apply (comm_L (∪)).
  - simpl. by rewrite IH, (left_id_L ∅ (∪)).
Qed.

Lemma folder_keys_Permutation (folders folders' : list (option source_file)) :
  folders ≡ₚ folders' → folder_keys folders = folder_keys folders'.
Proof.
  intros Hperm. unfold folder_keys. by rewrite Hperm.
Qed.

(** *** Every record carries its key *)

Lemma column_map_no_filename : Forall (λ e, e.2 ≠ "filename") column_map.
Proof. by apply (bool_decide_unpack _); vm_compute. Qed.

Lemma actualColumns_no_filename (fieldnames : list string) (col : string) :
  actualColumns column_map fieldnames !! col ≠ Some "filename".
Proof.
  intros H.
  destruct (actualColumns_from_table _ _ _ H) as (pattern & Hin & _).
  pose proof column_map_no_filename as Hall. rewrite Forall_forall in Hall.
  by apply (Hall _ Hin).
Qed.

Lemma row_fields_no_filename (cols : gmap string string) (r : row) :
  (∀ col, cols !! col ≠ Some "filename") → row_fields cols r !! "filename" = None.
Proof.
  unfold row_fields.
  apply (map_fold_weak_ind
           (λ rec m, (∀ col, m !! col ≠ Some "filename") → rec !! "filename" = None)).
  - done.
  - intros col newName m rec Hcol IH Hno.
    assert (rec !! "filename" = None) as Hrec.
    { apply IH. intros c Hc. apply (Hno c).
      rewrite lookup_insert_ne; [done|]. intros ->. congruence. }
    destruct (measurement col r); [|done].
    rewrite lookup_insert_ne; [done|]. intros ->.
    apply (Hno col). by rewrite lookup_insert_eq.
Qed.

Lemma process_row_keyed (cols : gmap string string) (r : row)
    (data : gmap string (gmap string string)) :
  (∀ col, cols !! col ≠ Some "filename") → keyed data → keyed (process_row cols r data).
Proof.
  intros Hno Hdata k rec. rewrite process_row_eq.
  destruct (decide (extractFilenameFromRow r = k)) as [<-|Hne].
  - rewrite lookup_insert_eq. intros [= <-].
    rewrite lookup_union_r by by apply row_fields_no_filename.
    destruct (data !! extractFilenameFromRow r) as [old|] eqn:Hk; simpl.
    + by apply Hdata.
    + apply lookup_singleton_eq.
  - rewrite lookup_insert_ne by done. apply Hdata.
Qed.

Lemma rows_read_keyed (f : source_file) : keyed (rows_read f).
Proof.
  destruct f as [e|[fieldnames|] lines]; simpl; try (by intros k rec; rewrite lookup_empty).
  assert (∀ rows data, keyed data →
            keyed (foldl (λ d r, process_row (actualColumns column_map fieldnames) r d)
                     data rows)) as Hfold.
  { induction rows as [|r rows IH]; intros data Hdata; simpl; [done|].
    apply IH. apply process_row_keyed; [|done]. apply actualColumns_no_filename. }
  apply Hfold. by intros k rec; rewrite lookup_empty.
Qed.

Lemma merge_folder_keyed (folderData allData : gmap string (gmap string string)) :
  keyed folderData → keyed allData → keyed (merge_folder folderData allData).
Proof.
  intros HF HA k rec. rewrite merge_folder_lookup.
  destruct (folderData !! k) as [m|] eqn:Hm; [|apply HA].
  intros [= <-]. destruct (allData !! k) as [old|].
  - apply lookup_union_Some_l. by apply HF.
  - by apply HF.
Qed.

Lemma process_folders_keyed (folders : list (option source_file))
    (allData : gmap string (gmap string string)) (printed : list string) :
  keyed allData → keyed (process_folders folders allData printed).1.
Proof.
  revert allData printed.
  induction folders as [|[f|] folders IH]; intros allData printed HA; [done| |by apply IH].
  rewrite process_folders_cons. apply IH. apply merge_folder_keyed; [|done].
  apply rows_read_keyed.
Qed.

(** C10: the rows are written in ascending order of key, each key once; the
    row at a position is the record of the key at that position and, in a
    table built by the folder loop, shows that key in its [filename] field;
    the order is the same for any two tables with the same keys, and so for
    any order in which the folders are gone through. *)
Theorem written_rows_sorted (allData : gmap string (gmap string string)) :
  let order := sorted (keys allData) in
  Sorted String.le order
  ∧ NoDup order
  ∧ (∀ k, k ∈ order ↔ is_Some (allData !! k))
  ∧ (∀ i k, order !! i = Some k → written_rows allData !! i = allData !! k)
  ∧ (keyed allData →
     (λ rec : gmap string string, rec !! "filename") <$> written_rows allData
     = Some <$> order)
  ∧ (∀ allData', dom allData' = dom allData → sorted (keys allData') = order)
  ∧ (∀ folders folders' printed printed',
       folders ≡ₚ folders' →
       sorted (keys (process_folders folders allData printed).1)
       = sorted (keys (process_folders folders' allData printed').1))
  ∧ (∀ folders printed, keyed (process_folders folders ∅ printed).1).
Proof.
  intros order.
  assert (∀ k, k ∈ order ↔ is_Some (allData !! k)) as Hin.
  { intros k. unfold order. by rewrite sorted_Permutation, elem_of_keys. }
  assert (∀ k, k ∈ order → allData !! k = Some (allData !!! k)) as Htotal.
  { intros k [rec Hk]%Hin. by rewrite (lookup_total_correct _ _ _ Hk). }
  split_and!.
  - apply sorted_Sorted.
  - unfold order. rewrite sorted_Permutation. apply keys_NoDup.
  - done.
  - intros i k Hi. unfold written_rows. fold order. rewrite list_lookup_fmap, Hi.
    simpl. symmetry. apply Htotal. by eapply list_elem_of_lookup_2.
  - intros Hkeyed. unfold written_rows. fold order. rewrite <-list_fmap_compose.
    apply Forall_fmap_ext_1. apply Forall_forall. intros k Hk. simpl.
    by apply Hkeyed, Htotal.
  - intros allData' Hdom. by apply sorted_keys_dom.
  - intros folders folders' printed printed' Hperm. apply sorted_keys_dom.
    by rewrite !dom_process_folders, (folder_keys_Permutation _ _ Hperm).
  - intros folders printed. apply process_folders_keyed.
    by intros k rec; rewrite lookup_empty.
Qed.

End order_facts.

(** ** SkeletonMetricAssembler: the metrics *)

Section metric_facts.
Import Skeleton.
Local Open Scope Qc_scope.

Lemma Qc_ltb_lt (x y : Qc) : Qc_ltb x y = true ↔ x < y.
Proof.
  unfold Qc_ltb. rewrite Qclt_alt. by destruct (x ?= y).
Qed.

Lemma Qclt_positive_nonzero (x : Qc) : 0 < x → x ≠ 0.
Proof. intros Hx ->. by apply (Qclt_not_eq 0 0). Qed.

Lemma Qc_ltb_irrefl (x : Qc) : Qc_ltb x x = false.
Proof.
  apply not_true_is_false. rewrite Qc_ltb_lt. intros H. by apply (Qclt_not_eq x x).
Qed.


Lemma Qc_of_Z_nonzero (n : Z) : n ≠ 0%Z → Qc_of_Z n ≠ 0.
Proof.
  intros Hn H. apply (f_equal this) in H. simpl in H.
  unfold inject_Z in H. by injection H.
Qed.

Lemma py_div_nonzero (x y : Qc) : y ≠ 0 → py_div x y = Ok (x / y).
Proof. intros Hy. unfold py_div. by destruct (Qc_eq_dec y 0). Qed.




End metric_facts.
(** ** The branching density on doubles *)

Section ieee_facts.
Import Ieee.
Local Abbreviation Ok := Skeleton.Ok.
Local Abbreviation Raise := Skeleton.Raise.
Local Abbreviation pixel_count := Skeleton.pixel_count.

(** *** Rounding never gives NaN *)

Lemma shr_1_nonneg (mrs : shr_record) :
  (0 ≤ shr_m mrs)%Z → (0 ≤ shr_m (shr_1 mrs))%Z.
Proof. destruct mrs as [[|[p|p|]|p] r s]; simpl; lia. Qed.

Lemma iter_pos_shr_1_nonneg (p : positive) (mrs : shr_record) :
  (0 ≤ shr_m mrs)%Z → (0 ≤ shr_m (iter_pos shr_1 p mrs))%Z.
Proof.
  revert mrs. induction p as [p IH|p IH|]; intros mrs H; simpl.
  - by apply IH, IH, shr_1_nonneg.
  - by apply IH, IH.
  - by apply shr_1_nonneg.
Qed.

Lemma shr_fexp_nonneg (m e : Z) (l : location) :
  (0 ≤ m)%Z → (0 ≤ shr_m (shr_fexp prec emax m e l).1)%Z.
Proof.
  intros H. unfold shr_fexp, shr.
  assert (0 ≤ shr_m (shr_record_of_loc m l))%Z as H' by (by destruct l as [|[]]).
  destruct (_ - e)%Z; simpl; try done. by apply iter_pos_shr_1_nonneg.
Qed.

Lemma round_nearest_even_nonneg (m : Z) (l : location) :
  (0 ≤ m)%Z → (0 ≤ round_nearest_even m l)%Z.
Proof. intros H. destruct l as [|[]]; simpl; try lia. destruct (Z.even m); lia. Qed.

Lemma binary_round_aux_not_nan (s : bool) (m e : Z) (l : location) :
  (0 ≤ m)%Z → is_nan (binary_round_aux prec emax s m e l) = false.
Proof.
  intros H. unfold binary_round_aux.
  pose proof (shr_fexp_nonneg m e l H) as H1.
  destruct (shr_fexp prec emax m e l) as [mrs' e'].
  pose proof (shr_fexp_nonneg
                (round_nearest_even (shr_m mrs') (loc_of_shr_record mrs')) e' loc_Exact
                (round_nearest_even_nonneg _ _ H1)) as H2.
  destruct (shr_fexp prec emax _ e' loc_Exact) as [mrs'' e''].
  simpl in H2. destruct (shr_m mrs''); try done; try lia.
  by destruct (_ <=? _)%Z.
Qed.

Lemma SFdiv_core_nonneg (mx my : positive) (ex ey : Z) :
  (0 ≤ (SFdiv_core_binary prec emax (Zpos mx) ex (Zpos my) ey).1.1)%Z.
Proof.
  unfold SFdiv_core_binary.
  set (s := (_ - _ - _)%Z).
  set (m' := match s with Z0 => _ | Zpos _ => _ | Zneg _ => _ end).
  assert (0 ≤ m')%Z as Hm.
  { subst m'. destruct s; try lia. apply Z.shiftl_nonneg. lia. }
  pose proof (Z.div_pos m' (Zpos my) Hm ltac:(lia)) as Hq.
  unfold Z.div in Hq. by destruct (Z.div_eucl m' (Z.pos my)) as [q r].
Qed.

(** A quotient by a divisor above 0 is NaN only from a NaN or from two
    infinities. *)
Lemma SFdiv_nan (x y : float) :
  py_gt0 y = true →
  is_nan (SFdiv prec emax x y) = is_nan x || (is_infinite y && is_infinite x).
Proof.
  destruct y as [sy|[]| |[] my ey]; try done; intros _.
  - by destruct x.
  - destruct x as [sx|sx| |sx mx ex]; try done.
    unfold SFdiv.
    pose proof (SFdiv_core_nonneg mx my ex ey) as H.
    destruct (SFdiv_core_binary _ _ _ _ _ _) as [[mz ez] lz].
    simpl in *. by apply binary_round_aux_not_nan.
Qed.

Lemma py_gt0_nonzero (y : float) : py_gt0 y = true → is_zero y = false.
Proof. by destruct y as [|[]| |[]]. Qed.

Lemma is_zero_not_gt0 (y : float) : is_zero y = true → py_gt0 y = false.
Proof. by destruct y. Qed.

(** *** The double of a pixel count *)

Lemma digits2_pos_size (p : positive) : digits2_pos p = Pos.size p.
Proof. induction p; simpl; by rewrite ?IHp. Qed.

Lemma digits2_pos_iter (p k : positive) :
  digits2_pos (Pos.iter xO p k) = (digits2_pos p + k)%positive.
Proof.
  induction k as [|k IH] using Pos.peano_ind.
  - simpl. lia.
  - rewrite Pos.iter_succ. simpl. rewrite IH. lia.
Qed.

Lemma digits2_pos_bound (p : positive) (n : Z) :
  (0 ≤ n)%Z → (Zpos p < 2 ^ n)%Z → (Zpos (digits2_pos p) ≤ n)%Z.
Proof.
  intros Hn Hp. rewrite digits2_pos_size.
  pose proof (Pos.size_le p) as H.
  apply Pos2Z.pos_le_pos in H. rewrite Pos2Z.inj_pow in H.
  change (Zpos p~0) with (2 * Zpos p)%Z in H.
  destruct (Z.le_gt_cases (Zpos (Pos.size p)) n) as [|Hgt]; [done|].
  assert (2 ^ (n + 1) ≤ 2 ^ Zpos (Pos.size p))%Z as H2
    by (apply Z.pow_le_mono_r; lia).
  rewrite Z.pow_add_r in H2 by lia. lia.
Qed.

(** A mantissa of 53 digits with an exponent in range is not rounded. *)
Lemma binary_round_aux_canonical (m : positive) (e : Z) :
  Zpos (digits2_pos m) = prec → (-1021 ≤ e ≤ 971)%Z →
  binary_round_aux prec emax false (Zpos m) e loc_Exact = S754_finite false m e.
Proof.
  intros Hd He. unfold binary_round_aux.
  assert (shr_fexp prec emax (Zpos m) e loc_Exact
          = ({| shr_m := Zpos m; shr_r := false; shr_s := false |}, e)) as Hshr.
  { unfold shr_fexp, Zdigits2. rewrite Hd. unfold fexp, emin, prec, emax.
    by replace (Z.max (53 + e - 53) (3 - 1024 - 53) - e)%Z with 0%Z by lia. }
  rewrite Hshr. cbn [shr_m loc_of_shr_record round_nearest_even]. rewrite Hshr.
  cbn [shr_m]. unfold emax, prec.
  destruct (Z.leb_spec e (1024 - 53)); [done|lia].
Qed.

Lemma binary_normalize_pos (p : positive) :
  (Zpos p < 2 ^ 53)%Z → binary_normalize prec emax (Zpos p) 0 false = double_of p.
Proof.
  intros Hp. pose proof (digits2_pos_bound p 53 ltac:(lia) Hp) as Hd.
  unfold double_of. cbn [binary_normalize]. unfold binary_round, shl_align.
  unfold fexp at 1 2. unfold emin.
  replace (Z.max (Zpos (digits2_pos p) + 0 - prec) (3 - emax - prec))%Z
    with (Zpos (digits2_pos p) - prec)%Z by (unfold prec, emax in *; lia).
  rewrite Z.sub_0_r.
  destruct (Zpos (digits2_pos p) - prec)%Z as [|k|k] eqn:E.
  - rewrite binary_round_aux_canonical; [done|lia|lia].
  - unfold prec in *. lia.
  - rewrite binary_round_aux_canonical; [done| |unfold prec in *; lia].
    rewrite digits2_pos_iter. lia.
Qed.

(** A count below [2^53] is converted without rounding and without error. *)
Lemma py_float_count (n : Z) :
  (0 ≤ n < 2 ^ 53)%Z →
  py_float n = Ok (match n with Zpos p => double_of p | _ => S754_zero false end).
Proof.
  intros [H0 Hn]. destruct n as [|p|p]; [done| |lia].
  unfold py_float. rewrite (binary_normalize_pos p Hn).
  unfold double_of. by destruct (_ - _)%Z.
Qed.

Lemma calibrated_area_count (count : Z) (pixelSize : float) :
  (0 ≤ count < 2 ^ 53)%Z →
  ∃ area, calibrated_area count pixelSize = Ok area.
Proof.
  intros H. unfold calibrated_area. rewrite (py_float_count count H). by eexists.
Qed.

Lemma pixel_count_nonneg (image : list (list Z)) : (0 ≤ pixel_count image)%Z.
Proof. unfold Skeleton.pixel_count. lia. Qed.

(** *** The guard *)

Lemma branching_density_Ok (maskArea skeletonArea : float) :
  branching_density maskArea skeletonArea
  = Ok (if py_gt0 maskArea then PyFloat (SFdiv prec emax skeletonArea maskArea)
        else PyInt 0).
Proof.
  unfold branching_density, py_div.
  destruct (py_gt0 maskArea) eqn:Hgt; [|done].
  by rewrite (py_gt0_nonzero _ Hgt).
Qed.

(** C8, as stated, fails: the density can be NaN. With a pixel size of
    infinity the areas of a mask of one pixel and of its skeleton are both
    infinite, the guard [maskArea > 0] holds, and the quotient of the two
    infinities is NaN. *)
Lemma branching_density_nan :
  ¬ (∀ (mask skel : list (list Z)) (pixelSize : float) (m : metrics),
       analyzeSkeleton mask skel pixelSize = Ok m →
       branching_density_value m ≠ PyFloat S754_nan).
Proof.
  intros H.
  by apply (H [[255%Z]] [[255%Z]] (S754_infinity false)
              {| mask_area_um2 := S754_infinity false;
                 skeleton_area_um2 := S754_infinity false;
                 branching_density_value := PyFloat S754_nan |}).
Qed.

(** The same at the finite pixel size [1e200], whose square overflows. *)
Example branching_density_overflow :
  let pixelSize := S754_finite false 5883593420661338 612 in
  valid_binary prec emax pixelSize = true
  ∧ analyzeSkeleton [[255%Z]] [[255%Z]] pixelSize
    = Ok {| mask_area_um2 := S754_infinity false;
            skeleton_area_um2 := S754_infinity false;
            branching_density_value := PyFloat S754_nan |}.
Proof. by vm_compute. Qed.

(** At the default pixel size [0.316], a mask of three pixels with a
    skeleton of one: a density of [0.3333333333333333]. A pixel size of
    [1e-200], whose square underflows to 0, gives areas of 0 and the density
    [0] of the guard. *)
Example branching_density_default :
  let mask := [[0; 255; 255]; [255; 0; 0]]%Z in
  let skel := [[0; 255; 0]; [0; 0; 0]]%Z in
  analyzeSkeleton mask skel (S754_finite false 5692549928996307 (-54))
  = Ok {| mask_area_um2 := S754_finite false 5396537332688499 (-54);
          skeleton_area_um2 := S754_finite false 7195383110251332 (-56);
          branching_density_value := PyFloat (S754_finite false 6004799503160661 (-54)) |}
  ∧ analyzeSkeleton mask skel (S754_finite false 6894565328877484 (-717))
    = Ok {| mask_area_um2 := S754_zero false;
            skeleton_area_um2 := S754_zero false;
            branching_density_value := PyInt 0 |}.
Proof. by vm_compute. Qed.

(** C8 (amended): the branching density is the quotient skeleton area / mask
    area of the doubles when mask area > 0, and exactly the integer 0
    otherwise, so when the mask area is 0, whatever the skeleton area; it is
    never an error. It is NaN exactly when the mask area is above 0 and the
    skeleton area is NaN or both areas are infinite, so never for a finite
    skeleton area. For every mask and skeleton the run raises no
    [ZeroDivisionError], and with fewer than [2^53] pixels in each it returns
    the two areas and the density the guard gives for them. *)
Theorem branching_density_guarded (maskArea skeletonArea : float) :
  (py_gt0 maskArea = true →
     branching_density maskArea skeletonArea
     = Ok (PyFloat (SFdiv prec emax skeletonArea maskArea)))
  ∧ (py_gt0 maskArea = false →
     branching_density maskArea skeletonArea = Ok (PyInt 0))
  ∧ (is_zero maskArea = true →
     branching_density maskArea skeletonArea = Ok (PyInt 0))
  ∧ (∃ density, branching_density maskArea skeletonArea = Ok density)
  ∧ (branching_density maskArea skeletonArea = Ok (PyFloat S754_nan)
     ↔ py_gt0 maskArea = true
       ∧ (is_nan skeletonArea = true
          ∨ is_infinite maskArea = true ∧ is_infinite skeletonArea = true))
  ∧ (is_nan skeletonArea = false → is_infinite skeletonArea = false →
     branching_density maskArea skeletonArea ≠ Ok (PyFloat S754_nan))
  ∧ (∀ (mask skel : list (list Z)) (pixelSize : float),
       analyzeSkeleton mask skel pixelSize ≠ Raise "ZeroDivisionError"
       ∧ ((pixel_count mask < 2 ^ 53)%Z → (pixel_count skel < 2 ^ 53)%Z →
          ∃ m, analyzeSkeleton mask skel pixelSize = Ok m
               ∧ calibrated_area (pixel_count mask) pixelSize = Ok (mask_area_um2 m)
               ∧ calibrated_area (pixel_count skel) pixelSize
                 = Ok (skeleton_area_um2 m)
               ∧ branching_density (mask_area_um2 m) (skeleton_area_um2 m)
                 = Ok (branching_density_value m))).
Proof.
  assert (branching_density maskArea skeletonArea = Ok (PyFloat S754_nan)
          ↔ py_gt0 maskArea = true
            ∧ (is_nan skeletonArea = true
               ∨ is_infinite maskArea = true ∧ is_infinite skeletonArea = true))
    as Hnan.
  { rewrite branching_density_Ok. destruct (py_gt0 maskArea) eqn:Hgt.
    - pose proof (SFdiv_nan skeletonArea maskArea Hgt) as H.
      destruct (SFdiv prec emax skeletonArea maskArea) eqn:Hd; simpl in H.
      1,2,4: split; [done|]; intros [_ Hor]; symmetry in H;
        apply orb_false_iff in H as [H1 H2]; destruct Hor as [Hor|[Hm Hs]];
        [by rewrite H1 in Hor|by rewrite Hm, Hs in H2].
      split; [|done]. intros _. split; [done|]. symmetry in H.
      apply orb_true_iff in H as [H|H]; [by left|right].
      by apply andb_true_iff in H.
    - split; [done|]. by intros [? _]. }
  split_and!.
  - intros Hgt. by rewrite branching_density_Ok, Hgt.
  - intros Hgt. by rewrite branching_density_Ok, Hgt.
  - intros Hz. by rewrite branching_density_Ok, (is_zero_not_gt0 _ Hz).
  - rewrite branching_density_Ok. by eexists.
  - exact Hnan.
  - intros H1 H2 Hd. apply Hnan in Hd as [_ [Hd|[_ Hd]]]; congruence.
  - intros mask skel pixelSize. split.
    + unfold analyzeSkeleton, calibrated_area, py_float.
      destruct (is_infinite (binary_normalize prec emax (pixel_count mask) 0 false));
        [done|].
      destruct (is_infinite (binary_normalize prec emax (pixel_count skel) 0 false));
        [done|].
      by rewrite branching_density_Ok.
    + intros Hmask Hskel.
      destruct (calibrated_area_count (pixel_count mask) pixelSize) as [maskArea' Hm];
        [split; [apply pixel_count_nonneg|done]|].
      destruct (calibrated_area_count (pixel_count skel) pixelSize) as [skelArea' Hs];
        [split; [apply pixel_count_nonneg|done]|].
      unfold analyzeSkeleton. rewrite Hm, Hs, branching_density_Ok.
      eexists. split; [done|]. cbn [mask_area_um2 skeleton_area_um2 branching_density_value].
      by rewrite branching_density_Ok.
Qed.

End ieee_facts.

(** ** SkeletonMetricAssembler: the cell name *)

Section cellname_facts.
Import PyStr Regex Skeleton Aux.

Lemma ends_with_newline_tail (c : ascii) (r : string) :
  ends_with_newline (String c r) = false → ends_with_newline r = false.
Proof. by destruct r. Qed.

Lemma ends_with_newline_drop (n : nat) (s : string) :
  ends_with_newline s = false → ends_with_newline (drop n s) = false.
Proof.
  revert s. induction n as [|n IH]; intros [|c r] H; try done.
  simpl. apply IH. by eapply ends_with_newline_tail.
Qed.

Lemma at_end_no_newline (s : string) :
  ends_with_newline s = false → at_end s = true → s = "".
Proof. destruct s as [|c [|d r]]; simpl; congruence. Qed.

Lemma startswith_app (p s : string) : startswith p s = true → s = p +:+ drop (String.length p) s.
Proof.
  revert s. induction p as [|a p IH]; intros s; [by destruct s|].
  destruct s as [|c s]; simpl; [done|].
  intros [Ha Hp]%andb_prop. apply Ascii.eqb_eq in Ha as ->.
  by rewrite app_cons, <-IH.
Qed.

Lemma startswith_refl_app (p s : string) : startswith p (p +:+ s) = true.
Proof.
  induction p as [|a p IH]; [done|]. rewrite app_cons. simpl.
  by rewrite Ascii.eqb_refl, IH.
Qed.

Lemma drop_length_app (p s : string) : drop (String.length p) (p +:+ s) = s.
Proof. induction p as [|a p IH]; [by destruct s|]. by rewrite app_cons. Qed.

(** *** The patterns, on a text that does not end with a line feed *)

Lemma match_mask_spec (s : string) :
  ends_with_newline s = false →
  match_mask s = if String.eqb "_mask.tif" s then Some 9 else None.
Proof.
  intros Hnl. unfold match_mask.
  destruct (String.eqb "_mask.tif" s) eqn:Heq.
  - apply String.eqb_eq in Heq as <-. done.
  - destruct (startswith "_mask.tif" s) eqn:Hs; [|done].
    destruct (at_end (drop 9 s)) eqn:He; [|done]. exfalso.
    apply at_end_no_newline in He; [|by apply ends_with_newline_drop].
    apply startswith_app in Hs. change (String.length "_mask.tif") with 9 in Hs.
    rewrite He, app_nil_r in Hs. subst s. by rewrite String.eqb_refl in Heq.
Qed.

Lemma match_mask_spec_length (s : string) :
  ends_with_newline s = false →
  match_mask s = if String.eqb "_mask.tif" s then Some (String.length s) else None.
Proof.
  intros Hnl. rewrite match_mask_spec by done.
  destruct (String.eqb "_mask.tif" s) eqn:Heq; [|done].
  by apply String.eqb_eq in Heq as <-.
Qed.

Lemma is_digit_not_underscore (c : ascii) (r : string) :
  is_digit c = true → String.eqb "_mask.tif" (String c r) = false.
Proof.
  intros Hc. apply String.eqb_neq. intros [= <- _]. by vm_compute in Hc.
Qed.

Lemma digits_then_mask_spec (u : string) :
  ends_with_newline u = false →
  digits_then_mask u =
    if (1 <=? digit_run u)%nat && String.eqb (drop (digit_run u) u) "_mask.tif"
    then Some (String.length u) else None.
Proof.
  induction u as [|c r IH]; intros Hnl; [done|].
  pose proof (ends_with_newline_tail _ _ Hnl) as Hr. specialize (IH Hr).
  simpl. destruct (is_digit c) eqn:Hc; [|done].
  rewrite IH. simpl.
  destruct (digit_run r) as [|n] eqn:Hn; simpl.
  - rewrite match_mask_spec by done. rewrite (String.eqb_sym "_mask.tif" r).
    destruct (String.eqb r "_mask.tif") eqn:Heq; [|done].
    apply String.eqb_eq in Heq as ->. done.
  - destruct (String.eqb (drop (S n) r) "_mask.tif"); [done|].
    rewrite match_mask_spec by done.
    destruct r as [|d r]; [done|]. simpl in Hn.
    destruct (is_digit d) eqn:Hd; [|done].
    by rewrite is_digit_not_underscore.
Qed.

Lemma match_area_spec (s : string) :
  ends_with_newline s = false →
  match_area s =
    if is_area_suffix (λ n, (1 <=? n)%nat) s then Some (String.length s) else None.
Proof.
  intros Hnl. unfold match_area, is_area_suffix.
  destruct (startswith "_area" s) eqn:Hs; [|done]. rewrite !andb_true_l.
  rewrite digits_then_mask_spec by by apply ends_with_newline_drop.
  destruct (_ && _); [|done]. simpl. f_equal.
  apply startswith_app in Hs. change (String.length "_area") with 5 in Hs.
  rewrite Hs at 2. by rewrite app_length.
Qed.

Lemma match_area3_spec (s : string) :
  ends_with_newline s = false →
  match_area3 s = if is_area3_suffix s then Some (String.length s) else None.
Proof.
  intros Hnl. unfold match_area3, is_area3_suffix.
  pose proof (ends_with_newline_drop 5 s Hnl) as Hnl5.
  destruct (drop 5 s) as [|d1 [|d2 [|d3 r]]] eqn:Hd;
    try by rewrite ?andb_false_r.
  destruct (startswith "_area" s) eqn:Hs; [|done]. rewrite !andb_true_l.
  destruct (is_digit_3_8 d1 && is_digit d2 && is_digit d3); [|done].
  rewrite andb_true_l.
  rewrite match_mask_spec
    by by repeat (apply ends_with_newline_tail in Hnl5).
  destruct (String.eqb "_mask.tif" r) eqn:Heq; [|done].
  apply String.eqb_eq in Heq as <-. simpl. f_equal.
  apply startswith_app in Hs. change (String.length "_area") with 5 in Hs.
  rewrite Hd in Hs. by rewrite Hs.
Qed.

(** *** [re.sub] with a pattern anchored at the end *)

Lemma sub_go_all (m : string → option nat) (n : nat) (s : string) :
  String.length s ≤ n → sub_go m n s = "".
Proof.
  revert n. induction s as [|c r IH]; intros n Hn; [done|].
  simpl in *. destruct n as [|n]; [lia|]. apply IH. lia.
Qed.

Lemma re_sub_delete_strip (r : regex) (m : string → option nat)
    (suffix : string → bool) (s : string) :
  (∀ t, match_length r t = m t) →
  (∀ t, ends_with_newline t = false →
        m t = if suffix t then Some (String.length t) else None) →
  ends_with_newline s = false →
  re_sub_delete r s = default s (strip_suffix suffix s).
Proof.
  intros Hr Hm'.
  assert (∀ t, ends_with_newline t = false →
               match_length r t = if suffix t then Some (String.length t) else None) as Hm.
  { intros t Ht. by rewrite Hr, Hm'. }
  clear Hr Hm'. unfold re_sub_delete. revert Hm. generalize (match_length r).
  clear r m. intros m Hm. induction s as [|c r IH]; intros Hnl.
  - simpl. by destruct (suffix "").
  - pose proof (ends_with_newline_tail _ _ Hnl) as Hr.
    cbn [sub_go strip_suffix]. rewrite (Hm _ Hnl).
    destruct (suffix (String c r)); simpl.
    + by apply sub_go_all.
    + rewrite (IH Hr). by destruct (strip_suffix suffix r).
Qed.

Lemma strip_suffix_Some (suffix : string → bool) (s stem : string) :
  strip_suffix suffix s = Some stem → ∃ t, s = stem +:+ t ∧ suffix t = true.
Proof.
  revert stem. induction s as [|c r IH]; intros stem; simpl.
  - destruct (suffix "") eqn:H; [|done]. intros [= <-]. by exists "".
  - destruct (suffix (String c r)) eqn:H.
    + intros [= <-]. by exists (String c r).
    + destruct (strip_suffix suffix r) as [stem'|]; [|done]. intros [= <-].
      destruct (IH stem' eq_refl) as (t & -> & Ht). by exists t.
Qed.

Lemma strip_suffix_shorter (suffix : string → bool) (s stem : string) :
  suffix "" = false → strip_suffix suffix s = Some stem → String.eqb stem s = false.
Proof.
  intros Hempty (t & -> & Ht)%strip_suffix_Some. apply String.eqb_neq. intros E.
  apply (f_equal String.length) in E. rewrite app_length in E.
  destruct t; [congruence|]. simpl in E. lia.
Qed.

(** A suffix accepted by a narrower test is found at the same place as by a
    wider one that no two suffixes of a text pass. *)
Lemma strip_suffix_mono (P Q : string → bool) (s stem : string) :
  (∀ t, P t = true → Q t = true) →
  (∀ t pre t', Q t = true → t = pre +:+ t' → pre ≠ "" → Q t' = false) →
  strip_suffix P s = Some stem → strip_suffix Q s = Some stem.
Proof.
  intros HPQ Huniq. revert stem. induction s as [|c r IH]; intros stem; simpl.
  - destruct (P "") eqn:H; [|done]. intros [= <-]. by rewrite (HPQ _ H).
  - destruct (P (String c r)) eqn:H.
    + intros [= <-]. by rewrite (HPQ _ H).
    + destruct (strip_suffix P r) as [stem'|] eqn:Hr; [|done]. intros [= <-].
      rewrite (IH stem' eq_refl).
      destruct (Q (String c r)) eqn:HQ; [|done]. exfalso.
      apply strip_suffix_Some in Hr as (t & -> & Ht).
      specialize (Huniq (String c (stem' +:+ t)) (String c stem') t HQ eq_refl).
      rewrite (HPQ _ Ht) in Huniq. by discriminate Huniq.
Qed.

(** *** One [_area] suffix at most *)

Lemma startswith_cons_neq (p s : string) (a c : ascii) :
  a ≠ c → startswith (String a p) (String c s) = false.
Proof. intros H. simpl. by apply Ascii.eqb_neq in H as ->. Qed.

Lemma no_area_in_mask_tif (d t : string) :
  d +:+ t = "_mask.tif" → startswith "_area" t = false.
Proof.
  intros E.
  repeat (destruct d as [|? d]; [rewrite app_nil_l in E; by subst t|];
          rewrite app_cons in E; first [discriminate E|injection E as _ E]).
Qed.

Lemma no_area_in_digits (u d t : string) :
  drop (digit_run u) u = "_mask.tif" → u = d +:+ t → startswith "_area" t = false.
Proof.
  revert d. induction u as [|c r IH]; intros d Hu E; [done|].
  simpl in Hu. destruct (is_digit c) eqn:Hc.
  - destruct d as [|c' d].
    + rewrite app_nil_l in E. subst t. apply startswith_cons_neq.
      intros <-. by vm_compute in Hc.
    + rewrite app_cons in E. injection E as _ E. by apply (IH d).
  - simpl in Hu. rewrite Hu in E. by eapply no_area_in_mask_tif.
Qed.

Lemma area_suffix_unique (ok ok' : nat → bool) (t pre t' : string) :
  is_area_suffix ok t = true → t = pre +:+ t' → pre ≠ "" →
  is_area_suffix ok' t' = false.
Proof.
  unfold is_area_suffix. intros [[Hs _]%andb_prop Hm]%andb_prop E Hpre.
  apply String.eqb_eq in Hm. apply startswith_app in Hs.
  change (String.length "_area") with 5 in Hs.
  assert (startswith "_area" t' = false) as ->; [|done].
  rewrite Hs in E. symmetry in E. apply app_eq_split in E as [(d & E1 & E2)|(d & E1 & E2)].
  - (* the cut lies inside ["_area"] *)
    destruct d as [|c d].
    + rewrite app_nil_l in E2. subst t'. by eapply (no_area_in_digits _ ""), eq_sym, app_nil_l.
    + assert (c ≠ "_"%char) as Hc.
      { destruct pre as [|? pre]; [done|]. rewrite app_cons in E1.
        injection E1 as _ E1.
        repeat (destruct pre as [|? pre];
                [rewrite app_nil_l in E1;
                 first [discriminate E1|by injection E1 as <- _]|];
                rewrite app_cons in E1; first [discriminate E1|injection E1 as _ E1]). }
      subst t'. rewrite app_cons. apply startswith_cons_neq. congruence.
  - by eapply no_area_in_digits.
Qed.

Lemma is_digit_3_8_digit (c : ascii) : is_digit_3_8 c = true → is_digit c = true.
Proof.
  unfold is_digit_3_8, is_digit. intros [H1 H2]%andb_prop.
  apply Nat.leb_le in H1, H2. apply andb_true_intro. split; apply Nat.leb_le; lia.
Qed.

Lemma is_area3_suffix_area (t : string) :
  is_area3_suffix t = true → is_area_suffix (λ n, (1 <=? n)%nat) t = true.
Proof.
  unfold is_area3_suffix, is_area_suffix. intros [Hs Hd]%andb_prop. rewrite Hs.
  destruct (drop 5 t) as [|d1 [|d2 [|d3 r]]]; try done.
  apply andb_prop in Hd as [[[H1 H2]%andb_prop H3]%andb_prop Hr].
  apply String.eqb_eq in Hr as <-. apply is_digit_3_8_digit in H1.
  simpl. by rewrite H1, H2, H3.
Qed.

Lemma is_area_suffix_weaken (ok : nat → bool) (t : string) :
  (∀ n, ok n = true → (1 <=? n)%nat = true) →
  is_area_suffix ok t = true → is_area_suffix (λ n, (1 <=? n)%nat) t = true.
Proof.
  intros Hok. unfold is_area_suffix. intros [[Hs Hn]%andb_prop Hm]%andb_prop.
  by rewrite Hs, (Hok _ Hn), Hm.
Qed.

(** *** The cell name *)

Lemma cellName_eq (baseName : string) :
  ends_with_newline baseName = false →
  cellName baseName =
    match area_stem baseName with
    | Some stem =>
        if endswith "_mask" stem then default baseName (mask_stem baseName) else stem
    | None => default baseName (mask_stem baseName)
    end.
Proof.
  intros Hnl. unfold cellName, area_stem, mask_stem.
  rewrite (re_sub_delete_strip re_area3_suffix match_area3 is_area3_suffix)
    by (done || apply match_area3_backtrack || apply match_area3_spec).
  rewrite (re_sub_delete_strip re_area_suffix match_area
             (is_area_suffix (λ n, (1 <=? n)%nat)))
    by (done || apply match_area_backtrack || apply match_area_spec).
  rewrite (re_sub_delete_strip re_mask_suffix match_mask (String.eqb "_mask.tif"))
    by (done || apply match_mask_backtrack || apply match_mask_spec_length).
  set (A := strip_suffix (is_area_suffix (λ n, (1 <=? n)%nat)) baseName).
  set (M := strip_suffix (String.eqb "_mask.tif") baseName).
  assert (∀ stem, A = Some stem → String.eqb stem baseName = false) as Hshort.
  { intros stem. by apply strip_suffix_shorter. }
  destruct (strip_suffix is_area3_suffix baseName) as [stem|] eqn:H3; simpl.
  - assert (A = Some stem) as HA.
    { eapply strip_suffix_mono; [apply is_area3_suffix_area| |exact H3].
      intros t pre t'. apply area_suffix_unique. }
    rewrite HA, (Hshort _ HA). cbn iota. by rewrite (Hshort _ HA).
  - rewrite String.eqb_refl. destruct A as [stem|] eqn:HA; simpl.
    + by rewrite (Hshort _ eq_refl).
    + by rewrite String.eqb_refl.
Qed.

Lemma spec_cellName_eq (baseName : string) :
  spec_cellName baseName =
    match area_stem baseName with
    | Some stem => stem
    | None => default baseName (mask_stem baseName)
    end.
Proof.
  unfold spec_cellName, area_stem, mask_stem.
  destruct (strip_suffix (is_area_suffix (λ n, (3 <=? n)%nat && (n <=? 8)%nat)) baseName)
    as [stem|] eqn:H38.
  - erewrite strip_suffix_mono; [done| | |exact H38].
    + intros t. apply is_area_suffix_weaken. intros n [H _]%andb_prop.
      apply Nat.leb_le in H. apply Nat.leb_le. lia.
    + intros t pre t'. apply area_suffix_unique.
  - destruct (strip_suffix (is_area_suffix _) baseName); [done|].
    by destruct (strip_suffix _ baseName).
Qed.

End cellname_facts.
Section cellname_claims.
Import PyStr Regex Skeleton Aux.

Lemma drop_length_le (n : nat) (s : string) :
  String.length (drop n s) ≤ String.length s.
Proof.
  revert s. induction n as [|n IH]; intros [|c r]; simpl; try lia.
  specialize (IH r). lia.
Qed.

Lemma is_area_suffix_length (ok : nat → bool) (t : string) :
  is_area_suffix ok t = true → 14 ≤ String.length t.
Proof.
  unfold is_area_suffix. intros [[Hs _]%andb_prop Hm]%andb_prop.
  apply String.eqb_eq in Hm. apply startswith_app in Hs.
  change (String.length "_area") with 5 in Hs.
  pose proof (drop_length_le (digit_run (drop 5 t)) (drop 5 t)) as Hl.
  rewrite Hm in Hl. rewrite Hs, app_length. simpl in *. lia.
Qed.

(** Where line 325 discards the match of an [_area] pattern, the cell name
    is not the stem the pattern leaves. *)
Lemma cellName_discarded (baseName stem : string) :
  area_stem baseName = Some stem →
  default baseName (mask_stem baseName) ≠ stem.
Proof.
  intros (t & Hs & Ht)%strip_suffix_Some. apply is_area_suffix_length in Ht.
  assert (String.length baseName = String.length stem + String.length t) as Hlen
    by (by rewrite Hs, app_length).
  destruct (mask_stem baseName) as [stem'|] eqn:Hm; simpl.
  - apply strip_suffix_Some in Hm as (t' & Hs' & Ht'). apply String.eqb_eq in Ht'.
    subst t'. intros ->. rewrite Hs', app_length in Hlen. simpl in Hlen. lia.
  - intros E. rewrite E in Hlen. lia.
Qed.

(** C9, the defect: on ["cell_mask_area455_mask.tif"] the first pattern
    matches and leaves ["cell_mask"]; the test of line 325 holds for it, since
    it ends in [_mask], and the code goes back to the file name and strips
    [_mask.tif] alone. The comments of lines 316 to 324 and the specification
    ask for the third step only when no [_area] pattern matched. *)
Example cellName_discards_match :
  let baseName := "cell_mask_area455_mask.tif" in
  re_sub_delete re_area3_suffix baseName = "cell_mask"
  ∧ endswith "_mask" "cell_mask" = true
  ∧ re_sub_delete re_mask_suffix baseName = "cell_mask_area455"
  ∧ cellName baseName = "cell_mask_area455"
  ∧ spec_cellName baseName = "cell_mask".
Proof. by vm_compute. Qed.

(** So the code does not strip as the specification says. *)
Lemma cellName_keeps_area :
  ¬ (∀ baseName : string, cellName baseName = spec_cellName baseName).
Proof.
  intros H. specialize (H "cell_mask_area455_mask.tif"). vm_compute in H.
  discriminate H.
Qed.

(** C9: what the code computes for a mask file name that does not end with
    a line feed. It is the three-step stripping of the specification exactly
    when the stem an [_area<digits>_mask.tif] suffix leaves does not end in
    [_mask]; where it does, the match is discarded and [_mask.tif] alone is
    stripped. ["sample1_area455_mask.tif"] gives ["sample1"],
    ["sample2_mask.tif"] gives ["sample2"], ["plainfile.tif"] stays. *)
Theorem cellName_strips (baseName : string) :
  ends_with_newline baseName = false →
  cellName baseName =
    match area_stem baseName with
    | Some stem =>
        if endswith "_mask" stem then default baseName (mask_stem baseName) else stem
    | None => default baseName (mask_stem baseName)
    end
  ∧ (cellName baseName = spec_cellName baseName
     ↔ ∀ stem, area_stem baseName = Some stem → endswith "_mask" stem = false)
  ∧ cellName "sample1_area455_mask.tif" = "sample1"
  ∧ cellName "sample2_mask.tif" = "sample2"
  ∧ cellName "plainfile.tif" = "plainfile.tif".
Proof.
  intros Hnl. split_and!; try by vm_compute.
  - by apply cellName_eq.
  - rewrite cellName_eq, spec_cellName_eq by done.
    destruct (area_stem baseName) as [stem|] eqn:Ha; [|done].
    destruct (endswith "_mask" stem) eqn:He.
    + split.
      * intros E. by apply cellName_discarded in E.
      * intros H. specialize (H stem eq_refl). congruence.
    + split; [|done]. by intros _ ? [= <-].
Qed.

Lemma cellName_strips_witness :
  let baseName := "sample1_area455_mask.tif" in
  ends_with_newline baseName = false
  ∧ cellName baseName = "sample1"
  ∧ cellName baseName = spec_cellName baseName.
Proof.
  intros baseName.
  assert (ends_with_newline baseName = false) as H by reflexivity.
  destruct (cellName_strips baseName H) as (Heq & Hspec & _).
  split_and!; [exact H|exact Heq|]. apply Hspec.
  intros stem [= <-]. reflexivity.
Defined.

End cellname_claims.

(** ** Further properties of the combiner *)

Section more_facts.
Import PyStr Recover Combiner Aux.

(** *** The order of the prefix table does not matter *)

Lemma prefix_free_Permutation (cm cm' : list (string * string)) :
  cm ≡ₚ cm' → prefix_free cm → prefix_free cm'.
Proof.
  intros Hperm [Hnd Hall]. split.
  - by rewrite <-Hperm.
  - rewrite Forall_forall in Hall. apply Forall_forall. intros e1 H1.
    apply Forall_forall. intros e2 H2.
    rewrite <-Hperm in H1, H2. specialize (Hall e1 H1).
    rewrite Forall_forall in Hall. by apply Hall.
Qed.

Lemma actualColumns_Permutation (cm cm' : list (string * string))
    (fieldnames : list string) :
  prefix_free cm → cm ≡ₚ cm' →
  actualColumns cm fieldnames = actualColumns cm' fieldnames.
Proof.
  intros Hpf Hperm. pose proof (prefix_free_Permutation _ _ Hperm Hpf) as Hpf'.
  apply map_eq. intros col. apply option_eq. intros name.
  rewrite !actualColumns_lookup by by apply bindings_headers_NoDup.
  rewrite !elem_of_bindings. by setoid_rewrite Hperm.
Qed.

(** Whatever the order in which the prefix table is gone through, the
    mapping built from a header row is the same. *)
Theorem actualColumns_table_order (cm : list (string * string))
    (fieldnames : list string) :
  cm ≡ₚ column_map →
  actualColumns cm fieldnames = actualColumns column_map fieldnames.
Proof.
  intros Hperm. symmetry. apply actualColumns_Permutation; [|done].
  apply column_map_prefix_free.
Qed.

Lemma actualColumns_table_order_witness :
  reverse column_map ≡ₚ column_map
  ∧ actualColumns (reverse column_map) ["1. Image"; "87. L"; "6. D"; "6. D2"]
    = actualColumns column_map ["1. Image"; "87. L"; "6. D"; "6. D2"].
Proof.
  assert (reverse column_map ≡ₚ column_map) as H by apply reverse_Permutation.
  exact (conj H (actualColumns_table_order _ _ H)).
Defined.

(** *** RowExtractor *)

Lemma measurement_Some (col : string) (r : row) (v : string) :
  measurement col r = Some v ↔
  row_get col r = Some (Some v) ∧ v ≠ "" ∧ v ≠ "Not Calculated" ∧ strip v ≠ "".
Proof.
  unfold measurement. destruct (row_get col r) as [[value|]|].
  - split.
    + destruct (truthy value) eqn:H1; [|done].
      destruct (String.eqb value "Not Calculated") eqn:H2; [done|].
      destruct (truthy (strip value)) eqn:H3; [|done]. simpl. intros [= <-].
      apply String.eqb_neq in H2. apply truthy_nonempty in H1, H3. done.
    + intros ([= ->] & H1 & H2 & H3). apply truthy_nonempty in H1, H3.
      apply String.eqb_neq in H2. by rewrite H1, H2, H3.
  - split; [done|]. by intros [[=] _].
  - split; [done|]. by intros [[=] _].
Qed.

Lemma row_fields_lookup (cols : gmap string string) (r : row) (name v : string) :
  (∀ c1 c2 n, cols !! c1 = Some n → cols !! c2 = Some n → c1 = c2) →
  row_fields cols r !! name = Some v ↔
  ∃ col, cols !! col = Some name ∧ measurement col r = Some v.
Proof.
  unfold row_fields. revert name v.
  apply (map_fold_weak_ind
           (λ rec m,
              ∀ name v,
                (∀ c1 c2 n, m !! c1 = Some n → m !! c2 = Some n → c1 = c2) →
                rec !! name = Some v ↔
                ∃ col, m !! col = Some name ∧ measurement col r = Some v)).
  - intros name v _. rewrite lookup_empty. split; [done|].
    intros (col & H & _). by rewrite lookup_empty in H.
  - intros i x m rec Hi IH name v Hinj.
    assert (∀ c1 c2 n, m !! c1 = Some n → m !! c2 = Some n → c1 = c2) as Hinj'.
    { intros c1 c2 n H1 H2. apply (Hinj c1 c2 n).
      - rewrite lookup_insert_ne; [done|]. intros ->. congruence.
      - rewrite lookup_insert_ne; [done|]. intros ->. congruence. }
    assert (∀ col, m !! col ≠ Some x) as Hfresh.
    { intros col Hcol. assert (col = i) as ->; [|congruence].
      apply (Hinj col i x); [|by rewrite lookup_insert_eq].
      rewrite lookup_insert_ne; [done|]. intros ->. congruence. }
    specialize (IH name v Hinj').
    destruct (measurement i r) as [value|] eqn:Hm.
    + destruct (decide (x = name)) as [->|Hne].
      * rewrite lookup_insert_eq. split.
        -- intros [= ->]. exists i. by rewrite lookup_insert_eq.
        -- intros (col & Hcol & Hv). destruct (decide (i = col)) as [->|Hic].
           ++ congruence.
           ++ rewrite lookup_insert_ne in Hcol by done. by apply Hfresh in Hcol.
      * rewrite lookup_insert_ne by done. rewrite IH. split.
        -- intros (col & Hcol & Hv). exists col. split; [|done].
           rewrite lookup_insert_ne; [done|]. intros ->. congruence.
        -- intros (col & Hcol & Hv). exists col. split; [|done].
           destruct (decide (i = col)) as [->|Hic].
           ++ rewrite lookup_insert_eq in Hcol. congruence.
           ++ by rewrite lookup_insert_ne in Hcol.
    + rewrite IH. split.
      * intros (col & Hcol & Hv). exists col. split; [|done].
        rewrite lookup_insert_ne; [done|]. intros ->. congruence.
      * intros (col & Hcol & Hv). exists col. split; [|done].
        destruct (decide (i = col)) as [->|Hic]; [congruence|].
        by rewrite lookup_insert_ne in Hcol.
Qed.

Lemma actualColumns_injective (fieldnames : list string) (c1 c2 n : string) :
  actualColumns column_map fieldnames !! c1 = Some n →
  actualColumns column_map fieldnames !! c2 = Some n → c1 = c2.
Proof.
  pose proof (bindings_headers_NoDup column_map fieldnames column_map_prefix_free) as Hh.
  intros H1 H2.
  apply actualColumns_lookup in H1; [|done]. apply actualColumns_lookup in H2; [|done].
  eapply NoDup_snd_inj; [|done..].
  eapply sublist_NoDup; [apply column_map_names_NoDup|apply bindings_names_sublist].
Qed.

(** A row gives its record the value of each bound column that is present,
    not empty, not ['Not Calculated'] and not blank, under the canonical
    name of the column and as it stands; nothing else. The record of a new
    key is these fields and [filename]. *)
Theorem row_extraction (fieldnames : list string) (r : row) :
  let cols := actualColumns column_map fieldnames in
  let key := extractFilenameFromRow r in
  (∀ name v,
     row_fields cols r !! name = Some v ↔
     ∃ col, cols !! col = Some name ∧ row_get col r = Some (Some v)
            ∧ v ≠ "" ∧ v ≠ "Not Calculated" ∧ strip v ≠ "")
  ∧ process_row cols r ∅ !! key = Some (row_fields cols r ∪ {["filename" := key]})
  ∧ (∀ rec, process_row cols r ∅ !! key = Some rec → rec !! "filename" = Some key).
Proof.
  intros cols key. split_and!.
  - intros name v. rewrite row_fields_lookup by apply actualColumns_injective.
    by setoid_rewrite measurement_Some.
  - by rewrite process_row_eq, lookup_insert_eq, lookup_empty.
  - rewrite process_row_eq, lookup_insert_eq, lookup_empty. intros rec [= <-].
    rewrite lookup_union_r; [apply lookup_singleton_eq|].
    apply row_fields_no_filename, actualColumns_no_filename.
Qed.

(** *** Across folders the last one processed wins *)

(** Every field the folder's record of a key holds is the value of that
    field in the merged record: the folder merged last wins. *)
Theorem merge_folder_last_wins (folderData allData : gmap string (gmap string string))
    (k field value : string) (m : gmap string string) :
  folderData !! k = Some m → m !! field = Some value →
  ∃ rec, merge_folder folderData allData !! k = Some rec ∧ rec !! field = Some value.
Proof.
  intros Hk Hf. rewrite merge_folder_lookup, Hk. eexists. split; [done|].
  destruct (allData !! k); [|done]. by apply lookup_union_Some_l.
Qed.

Lemma merge_folder_last_wins_witness :
  ∃ rec,
    merge_folder {["c7_mask.tif" := {["filename" := "c7_mask.tif"; "density" := "0.4"]}]}
                 {["c7_mask.tif" := {["filename" := "c7_mask.tif"; "density" := "0.3"]}]}
      !! "c7_mask.tif" = Some rec
    ∧ rec !! "density" = Some "0.4".
Proof.
  exact (merge_folder_last_wins
           {["c7_mask.tif" := {["filename" := "c7_mask.tif"; "density" := "0.4"]}]}
           {["c7_mask.tif" := {["filename" := "c7_mask.tif"; "density" := "0.3"]}]}
           "c7_mask.tif" "density" "0.4"
           {["filename" := "c7_mask.tif"; "density" := "0.4"]} eq_refl eq_refl).
Defined.

(** *** The header of the combined table *)

(** The header is [filename] followed by the other field names of the
    table, each once and in ascending order, whatever the order in which
    the fields were met. *)
Theorem columnOrder_filename_first (allData : gmap string (gmap string string)) :
  ∃ rest, columnOrder allData = "filename" :: rest
          ∧ ("filename" ∉ rest) ∧ Sorted String.le rest ∧ NoDup rest
          ∧ ∀ field, field ≠ "filename" →
              (field ∈ rest ↔ ∃ k rec, allData !! k = Some rec ∧ is_Some (rec !! field)).
Proof.
  unfold columnOrder.
  set (allColumns := map_fold (λ _ (data : gmap string string) (acc : gset string),
                               dom data ∪ acc) ∅ allData).
  assert (∀ field, field ∈ allColumns ↔
            ∃ k rec, allData !! k = Some rec ∧ is_Some (rec !! field)) as Hcols.
  { intros field. unfold allColumns.
    apply (map_fold_weak_ind
             (λ (acc : gset string) (m : gmap string (gmap string string)),
                field ∈ acc ↔ ∃ k rec, m !! k = Some rec ∧ is_Some (rec !! field))).
    - split; [by intros ?%not_elem_of_empty|].
      intros (k & rec & H & _). by rewrite lookup_empty in H.
    - intros k rec m acc Hk IH. rewrite elem_of_union, elem_of_dom, IH. split.
      + intros [H|(k' & rec' & H & Hf)].
        * exists k, rec. by rewrite lookup_insert_eq.
        * exists k', rec'. split; [|done].
          rewrite lookup_insert_ne; [done|]. intros ->. congruence.
      + intros (k' & rec' & H & Hf). destruct (decide (k = k')) as [->|Hne].
        * rewrite lookup_insert_eq in H. left. congruence.
        * rewrite lookup_insert_ne in H by done. right. by exists k', rec'. }
  eexists. split; [done|].
  assert (∀ field, field ∈ sorted (elements (allColumns ∖ {["filename"]}))
                   ↔ field ∈ allColumns ∧ field ≠ "filename") as Hin.
  { intros field. unfold sorted.
    rewrite merge_sort_Permutation, elem_of_elements, elem_of_difference.
    by rewrite not_elem_of_singleton. }
  split_and!.
  - intros [_ H]%Hin. done.
  - apply sorted_Sorted.
  - unfold sorted. rewrite merge_sort_Permutation. apply NoDup_elements.
  - intros field Hne. rewrite Hin, Hcols. split; [by intros [? _]|done].
Qed.

(** *** The run does not depend on the order the folders are listed in *)

Lemma NoDup_fst_inj {A} (l : list (string * A)) (x y : string * A) :
  NoDup l.*1 → x ∈ l → y ∈ l → x.1 = y.1 → x = y.
Proof.
  induction l as [|[a b] l IH]; simpl; intros Hnd Hx Hy E.
  - by apply elem_of_nil in Hx.
  - apply NoDup_cons in Hnd as [Ha Hnd].
    apply elem_of_cons in Hx as [->|Hx]; apply elem_of_cons in Hy as [->|Hy].
    + done.
    + exfalso. apply Ha. simpl in E. rewrite E. by apply list_elem_of_fmap_2.
    + exfalso. apply Ha. simpl in E. rewrite <-E. by apply list_elem_of_fmap_2.
    + by apply IH.
Qed.

Lemma sorted_folders_Permutation {A} (l1 l2 : list (string * A)) :
  NoDup l1.*1 → l1 ≡ₚ l2 → sorted_folders l1 = sorted_folders l2.
Proof.
  intros Hnd Hperm. unfold sorted_folders.
  apply (Sorted_unique_strong (λ a b : string * A, String.le a.1 b.1)).
  - intros x1 x2 H1 H2 H12 H21.
    rewrite merge_sort_Permutation in H1, H2. rewrite <-Hperm in H2.
    apply (NoDup_fst_inj l1); [done..|]. by apply (anti_symm String.le).
  - apply Sorted_merge_sort; apply _.
  - apply Sorted_merge_sort; apply _.
  - by rewrite !merge_sort_Permutation.
Qed.

(** For folders with distinct paths the run is the same for every order in
    which the folders are listed: they are sorted before they are read. *)
Theorem main_enumeration_independent (l1 l2 : list (string * option source_file)) :
  NoDup l1.*1 → l1 ≡ₚ l2 → main l1 = main l2.
Proof.
  intros Hnd Hperm. unfold main. by rewrite (sorted_folders_Permutation l1 l2).
Qed.

Lemma main_enumeration_independent_witness :
  let a := ("batch1", Some (Opened (Some ["1. Image"; "6. D"])
                             [Row [("1. Image", Some "c7_mask.tif"); ("6. D", Some "1")]])) in
  let b := ("batch2", Some (Opened (Some ["1. Image"; "6. D"])
                             [Row [("1. Image", Some "c7_mask.tif"); ("6. D", Some "2")]])) in
  NoDup [a; b].*1 ∧ [a; b] ≡ₚ [b; a] ∧ main [a; b] = main [b; a].
Proof.
  intros a b.
  assert (NoDup [a; b].*1) as H1 by (by apply (bool_decide_unpack _); vm_compute).
  assert ([a; b] ≡ₚ [b; a]) as H2 by apply Permutation_swap.
  exact (conj H1 (conj H2 (main_enumeration_independent _ _ H1 H2))).
Defined.

End more_facts.

(** ** Further properties of the filename recovery *)

Section key_facts.
Import PyStr Regex Recover Aux Shape.

Lemma str_lower_app (s t : string) : str_lower (s +:+ t) = str_lower s +:+ str_lower t.
Proof. induction s as [|c s IH]; [done|]. rewrite app_cons. simpl. by rewrite IH. Qed.

Lemma str_lower_length (s : string) : String.length (str_lower s) = String.length s.
Proof. induction s as [|c s IH]; [done|]. simpl. by rewrite IH. Qed.

Lemma startswith_refl (p : string) : startswith p p = true.
Proof. rewrite <-(app_nil_r p) at 2. apply startswith_refl_app. Qed.

Lemma endswith_app (p s : string) : endswith p (s +:+ p) = true.
Proof.
  induction s as [|c s IH].
  - rewrite app_nil_l. destruct p as [|a p]; [done|].
    cbn [endswith]. by rewrite Nat.eqb_refl, startswith_refl.
  - rewrite app_cons. cbn [endswith]. rewrite IH. apply orb_true_r.
Qed.

(** A text that matches a literal in either case is the literal once both
    are in lower case. *)
Lemma ci_prefix_lower (p s : string) :
  ci_prefix p s = true → String.length s = String.length p → str_lower s = str_lower p.
Proof.
  revert s. induction p as [|a p IH]; intros [|c s]; try done.
  rewrite ci_prefix_cons. intros [Hc Hs]%andb_prop [= Hl].
  apply Ascii.eqb_eq in Hc. simpl. by rewrite Hc, (IH s).
Qed.

Lemma is_slash_lower (c : ascii) : is_slash (lower c) = true → is_slash c = true.
Proof. destruct c as [[] [] [] [] [] [] [] []]; by vm_compute. Qed.

Lemma is_slash_fixed (c : ascii) : is_slash c = true → lower c = c.
Proof. destruct c as [[] [] [] [] [] [] [] []]; by vm_compute. Qed.

Lemma ci_prefix_no_slash (p s : string) :
  ci_prefix p s = true → String.length s = String.length p →
  no_slash p = true → no_slash s = true.
Proof.
  unfold no_slash. revert s. induction p as [|a p IH]; intros [|c s]; try done.
  rewrite ci_prefix_cons, !all_chars_cons.
  intros [Hc Hs]%andb_prop [= Hl] [Ha Hp]%andb_prop.
  rewrite (IH s) by done. rewrite andb_true_r.
  apply Ascii.eqb_eq in Hc. destruct (is_slash c) eqn:E; [|done].
  rewrite (is_slash_fixed c E) in Hc. rewrite Hc in E.
  apply is_slash_lower in E. by rewrite E in Ha.
Qed.

Lemma no_slash_app (s t : string) :
  no_slash (s +:+ t) = no_slash s && no_slash t.
Proof.
  unfold no_slash. induction s as [|c s IH]; [done|].
  by rewrite app_cons, !all_chars_cons, IH, andb_assoc.
Qed.

(** *** [strip] *)

Lemma rstrip_idemp (s : string) : rstrip (rstrip s) = rstrip s.
Proof.
  induction s as [|c r IH]; [done|]. cbn [rstrip].
  destruct (rstrip r) as [|d r'] eqn:Hr.
  - destruct (is_space c) eqn:Hc; [done|]. cbn [rstrip]. by rewrite Hc.
  - cbn [rstrip] in *. by rewrite IH.
Qed.

Lemma rstrip_head (c : ascii) (r : string) :
  is_space c = false → ∃ r', rstrip (String c r) = String c r'.
Proof.
  intros Hc. cbn [rstrip]. destruct (rstrip r) as [|d r'].
  - rewrite Hc. by exists "".
  - by exists (String d r').
Qed.

Lemma lstrip_head (s : string) :
  lstrip s = "" ∨ ∃ c r, lstrip s = String c r ∧ is_space c = false.
Proof.
  induction s as [|c r IH]; [by left|]. cbn [lstrip].
  destruct (is_space c) eqn:Hc; [done|]. right. by exists c, r.
Qed.

Lemma strip_idemp (s : string) : strip (strip s) = strip s.
Proof.
  unfold strip. destruct (lstrip_head s) as [->|(c & r & -> & Hc)]; [done|].
  destruct (rstrip_head c r Hc) as [r' Hr]. rewrite Hr.
  cbn [lstrip]. rewrite Hc, <-Hr. apply rstrip_idemp.
Qed.

(** *** The markers *)

Lemma ci_prefix_app_long (p s q : string) :
  String.length p ≤ String.length s → ci_prefix p (s +:+ q) = ci_prefix p s.
Proof.
  revert s. induction p as [|a p IH]; intros [|c s] Hl; try done.
  - simpl in Hl. lia.
  - rewrite app_cons, !ci_prefix_cons, IH; [done|]. simpl in Hl. lia.
Qed.

Lemma mask_tail_app_long (s q : string) :
  9 ≤ String.length s → mask_tail (s +:+ q) = mask_tail s.
Proof.
  intros Hl. unfold mask_tail.
  by rewrite !ci_prefix_app_long by (simpl; lia).
Qed.

Lemma take_app_long (n : nat) (s q : string) :
  n ≤ String.length s → take n (s +:+ q) = take n s.
Proof.
  revert s. induction n as [|n IH]; intros [|c s] Hl; try done.
  - simpl in Hl. lia.
  - rewrite app_cons. cbn [take]. rewrite IH; [done|]. simpl in Hl. lia.
Qed.

Lemma lazy_from_length (s g : string) : lazy_from s = Some g → 9 ≤ String.length s.
Proof.
  intros (x & t & -> & _ & Hx & _ & Ht & _)%lazy_from_inv.
  apply mask_tail_length in Ht. rewrite app_length. destruct x; [done|simpl; lia].
Qed.

Lemma search_mask_length (s g : string) : search_mask s = Some g → 9 ≤ String.length s.
Proof.
  intros (pre & u & -> & Hu)%search_mask_inv. apply lazy_from_length in Hu.
  rewrite app_length. lia.
Qed.

Lemma search_mask_cons (c : ascii) (r : string) :
  search_mask (String c r)
  = match lazy_from (String c r) with
    | Some g => Some g
    | None => search_mask r
    end.
Proof. reflexivity. Qed.

(** Text after a place where the lazy pattern matches changes nothing at the
    places before. *)
Lemma lazy_from_app (p q : string) :
  is_Some (search_mask p) → lazy_from (p +:+ q) = lazy_from p.
Proof.
  induction p as [|c r IH]; [by intros [? ?]|]. intros [g Hg].
  rewrite app_cons. cbn [lazy_from].
  destruct (is_newline c) eqn:Hc; [done|].
  destruct (mask_tail r) eqn:Hr.
  - rewrite (mask_tail_extend _ q Hr).
    apply mask_tail_length in Hr. by rewrite take_app_long by lia.
  - rewrite search_mask_cons in Hg. cbn [lazy_from] in Hg. rewrite Hc, Hr in Hg.
    assert (is_Some (search_mask r)) as Hsome.
    { destruct (lazy_from r) as [g'|] eqn:Hl; [|by eexists].
      rewrite (search_mask_head _ _ Hl). by eexists. }
    destruct Hsome as [g' Hg'].
    rewrite mask_tail_app_long, Hr by (by eapply search_mask_length).
    rewrite IH; [done|by eexists].
Qed.

Lemma search_mask_app (p q g : string) :
  search_mask p = Some g → search_mask (p +:+ q) = Some g.
Proof.
  induction p as [|c r IH]; [done|]. intros Hg.
  rewrite app_cons, search_mask_cons, <-app_cons, lazy_from_app by by eexists.
  rewrite search_mask_cons in Hg.
  destruct (lazy_from (String c r)); [done|]. by apply IH.
Qed.

(** What the loop over the markers returns is what the search in the whole
    value returns. *)
Lemma marker_loop_direct (ms : list string) (value r : string) :
  marker_loop ms value = Some r →
  ∃ g, search_mask value = Some g ∧ r = g +:+ ".tif".
Proof.
  intros (b & q & g & -> & Hg & ->)%marker_loop_inv.
  exists g. split; [|done]. by apply search_mask_app.
Qed.

(** The markers have no effect on the key: where the loop over them
    returns a name, the search in the whole value finds the same name, so
    [cleanFilename] is the function without that loop. *)
Theorem cleanFilename_markers_no_effect (v : string) :
  cleanFilename v = cleanFilename_direct v.
Proof.
  unfold cleanFilename, cleanFilename_direct.
  destruct (negb (truthy v)); [done|].
  destruct (marker_loop markers (strip v)) as [r|] eqn:Hm; [|done].
  apply marker_loop_direct in Hm as (g & Hg & ->).
  by rewrite search_mask_backtrack, Hg.
Qed.

(** *** The shape of a key *)

(** A key is the bare placeholder, the placeholder followed by at most 30
    characters of the value, a name the mask pattern gave (it ends in
    [_mask.tif], the [_mask] in the case of the value), or a name the second
    pattern gave (no path separator, [.tif] in the case of the value). *)
Lemma cleanFilename_shape (v : string) :
  (v = "" ∧ cleanFilename v = "unknown")
  ∨ (cleanFilename v = "unknown_" +:+ take 30 (strip v)
     ∧ search re_mask_name (strip v) = None ∧ search re_tif_name (strip v) = None)
  ∨ (∃ g, cleanFilename v = g +:+ ".tif" ∧ g ≠ ""
          ∧ endswith "_mask" (str_lower g) = true
          ∧ is_Some (search re_mask_name (strip v)))
  ∨ (search re_mask_name (strip v) = None
     ∧ search re_tif_name (strip v) = Some (cleanFilename v)
     ∧ no_slash (cleanFilename v) = true
     ∧ endswith ".tif" (str_lower (cleanFilename v)) = true
     ∧ ∃ pre post, strip v = pre +:+ cleanFilename v +:+ post).
Proof.
  assert (∀ u g, lazy_from u = Some g →
            g ≠ "" ∧ endswith "_mask" (str_lower g) = true) as Hmask.
  { intros u g (x & t & -> & -> & Hx & _ & Ht & _)%lazy_from_inv.
    split; [by destruct x|].
    assert (ci_prefix "_mask" t = true) as H5.
    { unfold mask_tail in Ht. apply orb_prop in Ht as [H|H].
      - by apply (ci_prefix_weaken "_mask" ".tif").
      - by apply (ci_prefix_weaken "_mask" "tif"). }
    destruct (ci_prefix_take _ _ H5) as [Hm Hl].
    change (String.length "_mask") with 5 in *.
    rewrite str_lower_app, (ci_prefix_lower "_mask" _ Hm Hl).
    apply endswith_app. }
  unfold cleanFilename. destruct v as [|c v]; [by left|]. right.
  cbn [truthy negb]. set (value := strip (String c v)).
  rewrite search_mask_backtrack, search_tif_backtrack.
  destruct (marker_loop markers value) as [r|] eqn:Hm.
  { right; left.
    assert (is_Some (search_mask value)) as Hsome.
    { destruct (search_mask value) eqn:E; [done|].
      by rewrite (marker_loop_no_hit _ _ E) in Hm. }
    apply marker_loop_inv in Hm as (b & q & g & _ & Hg & ->).
    apply search_mask_inv in Hg as (pre & u & _ & Hu).
    exists g. destruct (Hmask u g Hu). by split_and!. }
  destruct (search_mask value) as [g|] eqn:Hg.
  { right; left. apply search_mask_inv in Hg as (pre & u & _ & Hu).
    exists g. destruct (Hmask u g Hu). by split_and!. }
  destruct (search_tif value) as [m|] eqn:Ht; [right; right|by left].
  split_and!; [done..| | |].
  - apply search_tif_inv in Ht as (pre & u & _ & Hu).
    apply greedy_from_inv in Hu as (y & e & r & _ & -> & _ & Hy & He & Hl).
    rewrite no_slash_app, Hy. by apply (ci_prefix_no_slash ".tif").
  - apply search_tif_inv in Ht as (pre & u & _ & Hu).
    apply greedy_from_inv in Hu as (y & e & r & _ & -> & _ & _ & He & Hl).
    rewrite str_lower_app, (ci_prefix_lower ".tif" e He Hl). apply endswith_app.
  - apply search_tif_inv in Ht as (pre & u & -> & Hu).
    apply greedy_from_inv in Hu as (y & e & r & -> & -> & _).
    exists pre, r. by rewrite !app_assoc.
Qed.

(** Whatever the value, the key is never empty; it is the bare placeholder,
    the placeholder followed by at most 30 characters (38 in all), or a name
    that ends in [.tif], in upper or lower case. *)
Theorem cleanFilename_key_shape (v : string) :
  cleanFilename v ≠ ""
  ∧ (cleanFilename v = "unknown"
     ∨ (cleanFilename v = "unknown_" +:+ take 30 (strip v)
        ∧ String.length (cleanFilename v) ≤ 38)
     ∨ endswith ".tif" (str_lower (cleanFilename v)) = true).
Proof.
  destruct (cleanFilename_shape v)
    as [[_ ->]|[(-> & _)|[(g & -> & Hg & _)|(_ & _ & _ & He & pre & post & Hs)]]].
  - split; [done|by left].
  - split; [done|]. right; left. split; [done|].
    rewrite app_length. pose proof (take_length_le 30 (strip v)). simpl. lia.
  - split; [by destruct g|]. right; right.
    rewrite str_lower_app. apply endswith_app.
  - split; [|by right; right]. intros E. by rewrite E in He.
Qed.

(** Blanks around a value do not change its key, unless the value is
    nothing but blanks: then the key is ["unknown_"], where the empty value
    has ["unknown"]. *)
Theorem cleanFilename_blanks (v : string) :
  (strip v ≠ "" → cleanFilename (strip v) = cleanFilename v)
  ∧ (v ≠ "" → strip v = "" → cleanFilename v = "unknown_")
  ∧ cleanFilename "" = "unknown".
Proof.
  split_and!; [| |done].
  - intros Hs. unfold cleanFilename. rewrite strip_idemp.
    assert (v ≠ "") as Hv by (by intros ->).
    apply truthy_nonempty in Hs, Hv. by rewrite Hs, Hv.
  - intros Hv Hs. unfold cleanFilename.
    apply truthy_nonempty in Hv. by rewrite Hv, Hs.
Qed.

(** A key the second pattern gives (the mask pattern matching nowhere) is a
    bare file name: a piece of the value without [/] and [\] that ends in
    [.tif]. *)
Theorem cleanFilename_bare_name (v : string) :
  search re_mask_name (strip v) = None →
  is_Some (search re_tif_name (strip v)) →
  no_slash (cleanFilename v) = true
  ∧ endswith ".tif" (str_lower (cleanFilename v)) = true
  ∧ ∃ pre post, strip v = pre +:+ cleanFilename v +:+ post.
Proof.
  intros Hm Ht.
  destruct (cleanFilename_shape v)
    as [[-> _]|[(_ & _ & Hn)|[(g & _ & _ & _ & Hg)|(_ & _ & H1 & H2 & H3)]]].
  - destruct Ht as [? Ht]. vm_compute in Ht. discriminate Ht.
  - rewrite Hn in Ht. by destruct Ht.
  - rewrite Hm in Hg. by destruct Hg.
  - done.
Qed.

Lemma cleanFilename_bare_name_witness :
  let v := "  C:\scans\batch 2/cell7.TIF (8-bit)" in
  search re_mask_name (strip v) = None
  ∧ is_Some (search re_tif_name (strip v))
  ∧ cleanFilename v = "cell7.TIF"
  ∧ no_slash (cleanFilename v) = true
  ∧ endswith ".tif" (str_lower (cleanFilename v)) = true
  ∧ ∃ pre post, strip v = pre +:+ cleanFilename v +:+ post.
Proof.
  intros v.
  assert (search re_mask_name (strip v) = None) as H1 by reflexivity.
  assert (is_Some (search re_tif_name (strip v))) as H2 by (eexists; reflexivity).
  exact (conj H1 (conj H2 (conj eq_refl (cleanFilename_bare_name v H1 H2)))).
Defined.

(** *** The scan of a row without primary identity column *)

Lemma scan_cells_inv (values : list (option string)) (result : string) :
  scan_cells values = Some result →
  result ≠ "" ∧ startswith "unknown" result = false
  ∧ ∃ value, value ∈ values ∧ result = cleanFilename (py_str value).
Proof.
  induction values as [|value rest IH]; [done|]. cbn [scan_cells].
  destruct (contains "_mask" (str_lower (py_str value))
            || contains ".tif" (str_lower (py_str value))).
  - destruct (truthy (cleanFilename (py_str value))
              && negb (startswith "unknown" (cleanFilename (py_str value)))) eqn:E.
    + intros [= <-]. apply andb_prop in E as [Ht E]. apply negb_true_iff in E.
      apply truthy_nonempty in Ht.
      split_and!; [done..|]. exists value. split; [by apply elem_of_cons; left|done].
    + intros H. destruct (IH H) as (? & ? & value' & ? & ?).
      split_and!; [done..|]. exists value'. split; [by apply elem_of_cons; right|done].
  - intros H. destruct (IH H) as (? & ? & value' & ? & ?).
    split_and!; [done..|]. exists value'. split; [by apply elem_of_cons; right|done].
Qed.

(** Without a primary identity column the key is the bare placeholder or
    the key of one of the cells, and then a name that ends in [.tif] and
    does not start with [unknown]: the scan never returns a placeholder
    that carries text of the row. *)
Theorem extractFilenameFromRow_scan (r : row) :
  primary_cell r = None →
  extractFilenameFromRow r = "unknown"
  ∨ (startswith "unknown" (extractFilenameFromRow r) = false
     ∧ endswith ".tif" (str_lower (extractFilenameFromRow r)) = true
     ∧ ∃ cell, cell ∈ r.*2 ∧ extractFilenameFromRow r = cleanFilename (py_str cell)).
Proof.
  intros Hp. unfold extractFilenameFromRow. rewrite Hp.
  destruct (scan_cells r.*2) as [result|] eqn:Hs; [right|by left].
  apply scan_cells_inv in Hs as (_ & Hu & value & Hin & ->).
  split_and!; [done| |by exists value].
  destruct (cleanFilename_shape (py_str value))
    as [[_ E]|[(E & _)|[(g & E & _)|(_ & _ & _ & He & _)]]].
  - by rewrite E in Hu.
  - by rewrite E in Hu.
  - rewrite E, str_lower_app. apply endswith_app.
  - done.
Qed.

Lemma extractFilenameFromRow_scan_witness :
  let r : row := [("Notes", Some "unknown_cell.tif"); ("2. File", None);
                  ("Image", Some "dir/c7_MASK.TIF")] in
  primary_cell r = None
  ∧ (extractFilenameFromRow r = "unknown"
     ∨ (startswith "unknown" (extractFilenameFromRow r) = false
        ∧ endswith ".tif" (str_lower (extractFilenameFromRow r)) = true
        ∧ ∃ cell, cell ∈ r.*2 ∧ extractFilenameFromRow r = cleanFilename (py_str cell))).
Proof.
  intros r. exact (conj eq_refl (extractFilenameFromRow_scan r eq_refl)).
Defined.

End key_facts.

(** ** Further properties of the combined table *)

Section table_facts.
Import PyStr Recover Combiner Discovery Aux Shape.

(** *** What the table holds *)

Lemma extractFilenameFromRow_nonempty (r : row) : extractFilenameFromRow r ≠ "".
Proof.
  unfold extractFilenameFromRow.
  destruct (primary_cell r) as [[value|]|]; cbn [cleanFilename_cell]; [|done|].
  - destruct (cleanFilename_shape value)
      as [[_ E]|[(E & _)|[(g & E & _)|(_ & _ & _ & He & _)]]]; rewrite ?E; try done.
    + by destruct g.
    + intros E. by rewrite E in He.
  - destruct (scan_cells r.*2) as [result|] eqn:Hs; [|done].
    by apply scan_cells_inv in Hs as [Hne _].
Qed.

Lemma actualColumns_names (fieldnames : list string) (col name : string) :
  actualColumns column_map fieldnames !! col = Some name → name ∈ column_map.*2.
Proof.
  intros H. apply actualColumns_lookup in H.
  - apply elem_of_bindings in H as (pattern & Hin & _).
    apply list_elem_of_fmap. by exists (pattern, name).
  - apply bindings_headers_NoDup, column_map_prefix_free.
Qed.

Lemma process_row_clean (fieldnames : list string) (r : row)
    (data : gmap string (gmap string string)) :
  clean_table data →
  clean_table (process_row (actualColumns column_map fieldnames) r data).
Proof.
  intros Hdata k rec. rewrite process_row_eq.
  destruct (decide (extractFilenameFromRow r = k)) as [<-|Hne].
  - rewrite lookup_insert_eq. intros [= <-].
    set (key := extractFilenameFromRow r).
    assert (∀ field value,
              default {["filename" := key]} (data !! key) !! field = Some value →
              field_ok key field value) as Hold.
    { intros field value. destruct (data !! key) as [old|] eqn:Hk; simpl.
      - by apply Hdata.
      - intros [<- <-]%lookup_singleton_Some. left.
        split_and!; [done..|apply extractFilenameFromRow_nonempty]. }
    split.
    + rewrite lookup_union_r
        by (apply row_fields_no_filename, actualColumns_no_filename).
      destruct (data !! key) as [old|] eqn:Hk; simpl.
      * by apply Hdata.
      * apply lookup_singleton_eq.
    + intros field value [Hnew|[_ Hv]]%lookup_union_Some_raw; [|by apply Hold].
      apply row_fields_lookup in Hnew; [|apply actualColumns_injective].
      destruct Hnew as (col & Hcol & Hm). right.
      apply measurement_Some in Hm as (_ & ? & ? & ?).
      split_and!; [|done..]. by eapply actualColumns_names.
  - rewrite lookup_insert_ne by done. apply Hdata.
Qed.

Lemma clean_table_empty : clean_table ∅.
Proof. intros k rec. by rewrite lookup_empty. Qed.

Lemma rows_read_clean (f : source_file) : clean_table (rows_read f).
Proof.
  destruct f as [e|[fieldnames|] lines]; simpl; try apply clean_table_empty.
  assert (∀ rows data, clean_table data →
            clean_table (foldl (λ d r, process_row (actualColumns column_map fieldnames) r d)
                           data rows)) as Hfold.
  { induction rows as [|r rows IH]; intros data Hdata; simpl; [done|].
    by apply IH, process_row_clean. }
  apply Hfold, clean_table_empty.
Qed.

Lemma merge_folder_clean (folderData allData : gmap string (gmap string string)) :
  clean_table folderData → clean_table allData →
  clean_table (merge_folder folderData allData).
Proof.
  intros HF HA k rec. rewrite merge_folder_lookup.
  destruct (folderData !! k) as [m|] eqn:Hm; [|apply HA].
  intros [= <-]. destruct (HF k m Hm) as [Hkey Hfields].
  destruct (allData !! k) as [old|] eqn:Ho; [|done].
  destruct (HA k old Ho) as [_ Hold]. split.
  - by apply lookup_union_Some_l.
  - intros field value [H|[_ H]]%lookup_union_Some_raw; [by apply Hfields|by apply Hold].
Qed.

Lemma process_folders_clean (folders : list (option source_file))
    (allData : gmap string (gmap string string)) (printed : list string) :
  clean_table allData → clean_table (process_folders folders allData printed).1.
Proof.
  revert allData printed.
  induction folders as [|[f|] folders IH]; intros allData printed HA; [done| |by apply IH].
  rewrite process_folders_cons. apply IH. apply merge_folder_clean; [|done].
  apply rows_read_clean.
Qed.

Lemma main_table (fracLacFolders : list (string * option source_file)) :
  (main fracLacFolders).1.1
  = (process_folders (sorted_folders fracLacFolders).*2 ∅ []).1.
Proof.
  unfold main. by destruct (process_folders (sorted_folders fracLacFolders).*2 ∅ []).
Qed.

(** Whatever the files hold, a record of the combined table has its key,
    which is not empty, under [filename], and otherwise only canonical names
    of the prefix table as fields, each with a value that is not empty, not
    blank and not ['Not Calculated']. *)
Theorem main_table_fields (fracLacFolders : list (string * option source_file))
    (k field value : string) (rec : gmap string string) :
  (main fracLacFolders).1.1 !! k = Some rec →
  rec !! field = Some value →
  k ≠ "" ∧ rec !! "filename" = Some k
  ∧ (field = "filename" ∧ value = k
     ∨ field ∈ column_map.*2
       ∧ value ≠ "" ∧ value ≠ "Not Calculated" ∧ strip value ≠ "").
Proof.
  rewrite main_table. intros Hk Hf.
  destruct (process_folders_clean _ ∅ [] clean_table_empty k rec Hk) as [Hkey Hfields].
  destruct (Hfields _ _ Hkey) as [(_ & _ & Hne)|(Hin & _)].
  - split_and!; [done..|].
    destruct (Hfields _ _ Hf) as [(? & ? & _)|?]; [by left|by right].
  - exfalso. revert Hin. by apply (bool_decide_unpack _); vm_compute.
Qed.

Lemma main_table_fields_witness :
  let f := Opened (Some ["1. Image"; "6. D"; "87. L"; "9. Other"])
             [Row [("1. Image", Some "c7_mask.tif_mask.tifImageDescription");
                   ("6. D", Some "1.62"); ("87. L", Some "Not Calculated");
                   ("9. Other", Some "x")]] in
  let rec : gmap string string :=
    {["filename" := "c7_mask.tif"; "fractal_dimension" := "1.62"]} in
  (main [("out1", Some f)]).1.1 !! "c7_mask.tif" = Some rec
  ∧ rec !! "fractal_dimension" = Some "1.62"
  ∧ "c7_mask.tif" ≠ "" ∧ rec !! "filename" = Some "c7_mask.tif"
  ∧ ("fractal_dimension" = "filename" ∧ "1.62" = "c7_mask.tif"
     ∨ "fractal_dimension" ∈ column_map.*2
       ∧ "1.62" ≠ "" ∧ "1.62" ≠ "Not Calculated" ∧ strip "1.62" ≠ "").
Proof.
  intros f rec.
  assert ((main [("out1", Some f)]).1.1 !! "c7_mask.tif" = Some rec) as H1
    by (by vm_compute).
  assert (rec !! "fractal_dimension" = Some "1.62") as H2 by (by vm_compute).
  exact (conj H1 (conj H2 (main_table_fields _ _ _ _ _ H1 H2))).
Defined.

(** *** When the combined CSV is written *)

Lemma process_row_nonempty (cols : gmap string string) (r : row)
    (data : gmap string (gmap string string)) :
  process_row cols r data ≠ ∅.
Proof. rewrite process_row_eq. apply insert_non_empty. Qed.

Lemma rows_read_nonempty (f : source_file) :
  rows_read f ≠ ∅ ↔
  ∃ fieldnames r rest, f = Opened (Some fieldnames) (Row r :: rest).
Proof.
  split.
  - destruct f as [e|[fieldnames|] [|[r|e] rest]]; simpl; try done.
    intros _. by exists fieldnames, r, rest.
  - intros (fieldnames & r & rest & ->). simpl.
    set (cols := actualColumns column_map fieldnames).
    assert (∀ rows data, data ≠ ∅ →
              foldl (λ d r, process_row cols r d) data rows ≠ ∅) as Hfold.
    { induction rows as [|r' rows IH]; intros data Hdata; simpl; [done|].
      apply IH, process_row_nonempty. }
    apply Hfold, process_row_nonempty.
Qed.

Lemma elem_of_folder_keys (folders : list (option source_file)) (k : string) :
  k ∈ folder_keys folders ↔ ∃ f, Some f ∈ folders ∧ k ∈ dom (rows_read f).
Proof.
  unfold folder_keys. rewrite elem_of_union_list. split.
  - intros (X & HX & Hk). apply list_elem_of_fmap in HX as ([f|] & -> & Hf).
    + by exists f.
    + by apply not_elem_of_empty in Hk.
  - intros (f & Hf & Hk). exists (dom (rows_read f)). split; [|done].
    apply list_elem_of_fmap. by exists (Some f).
Qed.

(** The combined CSV is written exactly when some summary file opens, has a
    header row and yields a first row: one row read is enough, whatever
    fails after it, and without one nothing is written. What is written is
    then the header and the rows of the table. *)
Theorem main_writes_csv (fracLacFolders : list (string * option source_file)) :
  (is_Some (main fracLacFolders).2 ↔
   ∃ folder fieldnames r rest,
     (folder, Some (Opened (Some fieldnames) (Row r :: rest))) ∈ fracLacFolders)
  ∧ ∀ header rows, (main fracLacFolders).2 = Some (header, rows) →
      header = columnOrder (main fracLacFolders).1.1
      ∧ rows = written_rows (main fracLacFolders).1.1
      ∧ rows ≠ [].
Proof.
  rewrite main_table. unfold main.
  destruct (process_folders (sorted_folders fracLacFolders).*2 ∅ [])
    as [allData printed] eqn:Hrun.
  assert (allData = (process_folders (sorted_folders fracLacFolders).*2 ∅ []).1) as Hall
    by (by rewrite Hrun).
  cbn [fst snd].
  assert (allData ≠ ∅ ↔
          ∃ folder fieldnames r rest,
            (folder, Some (Opened (Some fieldnames) (Row r :: rest))) ∈ fracLacFolders)
    as Hiff.
  { rewrite <-dom_empty_iff_L, Hall, dom_process_folders, dom_empty_L.
    rewrite (right_id_L ∅ (∪)). split.
    - intros Hne. apply set_choose_L in Hne as [k Hk].
      apply elem_of_folder_keys in Hk as (f & Hf & Hk).
      assert (rows_read f ≠ ∅) as Hrows.
      { intros E. rewrite E, dom_empty_L in Hk. by apply not_elem_of_empty in Hk. }
      apply rows_read_nonempty in Hrows as (fieldnames & r & rest & ->).
      apply list_elem_of_fmap in Hf as ([folder f'] & Heq & Hin). simpl in Heq. subst f'.
      unfold sorted_folders in Hin. rewrite merge_sort_Permutation in Hin.
      by exists folder, fieldnames, r, rest.
    - intros (folder & fieldnames & r & rest & Hin) Hempty.
      set (f := Opened (Some fieldnames) (Row r :: rest)) in *.
      assert (rows_read f ≠ ∅) as Hrows
        by (apply rows_read_nonempty; by exists fieldnames, r, rest).
      apply Hrows, dom_empty_iff_L, set_eq. intros k.
      split; [|by intros ?%not_elem_of_empty].
      intros Hk. rewrite <-Hempty. apply elem_of_folder_keys. exists f. split; [|done].
      apply list_elem_of_fmap. exists (folder, Some f). split; [done|].
      unfold sorted_folders. by rewrite merge_sort_Permutation. }
  split.
  - rewrite <-Hiff. destruct (decide (allData = ∅)) as [->|Hne].
    + split; [by intros [? ?]|done].
    + split; [done|by eexists].
  - intros header rows. destruct (decide (allData = ∅)) as [->|Hne]; [done|].
    intros [= <- <-]. split_and!; [done..|].
    unfold written_rows. intros E%fmap_nil_inv.
    apply Hne, map_empty. intros k. apply eq_None_not_Some. intros Hk.
    apply elem_of_keys in Hk. rewrite <-sorted_Permutation, E in Hk.
    by apply elem_of_nil in Hk.
Qed.

End table_facts.

(** ** Folder discovery and the cells written *)

Section discovery_facts.
Import PyStr Recover Combiner Discovery Aux Shape.

(** *** The cells of the combined CSV *)

Lemma columnOrder_elem (allData : gmap string (gmap string string)) (field : string) :
  field ∈ columnOrder allData ↔
  field = "filename" ∨ ∃ k rec, allData !! k = Some rec ∧ is_Some (rec !! field).
Proof.
  unfold columnOrder.
  set (allColumns := map_fold (λ _ (data : gmap string string) (acc : gset string),
                               dom data ∪ acc) ∅ allData).
  assert (field ∈ allColumns ↔
            ∃ k rec, allData !! k = Some rec ∧ is_Some (rec !! field)) as Hcols.
  { unfold allColumns.
    apply (map_fold_weak_ind
             (λ (acc : gset string) (m : gmap string (gmap string string)),
                field ∈ acc ↔ ∃ k rec, m !! k = Some rec ∧ is_Some (rec !! field))).
    - split; [by intros ?%not_elem_of_empty|].
      intros (k & rec & H & _). by rewrite lookup_empty in H.
    - intros k rec m acc Hk IH. rewrite elem_of_union, elem_of_dom, IH. split.
      + intros [H|(k' & rec' & H & Hf)].
        * exists k, rec. by rewrite lookup_insert_eq.
        * exists k', rec'. split; [|done].
          rewrite lookup_insert_ne; [done|]. intros ->. congruence.
      + intros (k' & rec' & H & Hf). destruct (decide (k = k')) as [->|Hne].
        * rewrite lookup_insert_eq in H. left. congruence.
        * rewrite lookup_insert_ne in H by done. right. by exists k', rec'. }
  rewrite elem_of_cons. unfold sorted.
  rewrite merge_sort_Permutation, elem_of_elements, elem_of_difference.
  rewrite not_elem_of_singleton, Hcols.
  destruct (decide (field = "filename")) as [->|Hne]; [by split; left|].
  split; [intros [?|[? _]]; [done|by right]|intros [?|?]; [done|by right]].
Qed.

(** Nothing of the table is lost in writing: the record of a key has a row,
    at the place of the key in ascending order, with one cell for each
    column of the header; the cell of a field the record holds is its value
    as it stands, that of a field it lacks is empty. Every field of the
    record has a column, so [extrasaction='ignore'] leaves nothing out. *)
Theorem written_cells_lossless (allData : gmap string (gmap string string))
    (k : string) (rec : gmap string string) :
  allData !! k = Some rec →
  ∃ i cells,
    sorted (keys allData) !! i = Some k
    ∧ written_cells allData !! i = Some cells
    ∧ length cells = length (columnOrder allData)
    ∧ (∀ j field, columnOrder allData !! j = Some field →
         cells !! j = Some (default "" (rec !! field)))
    ∧ (∀ field value, rec !! field = Some value →
         ∃ j, columnOrder allData !! j = Some field ∧ cells !! j = Some value).
Proof.
  intros Hk.
  assert (k ∈ sorted (keys allData)) as Hin.
  { rewrite sorted_Permutation, elem_of_keys. by exists rec. }
  apply list_elem_of_lookup_1 in Hin as [i Hi].
  exists i, (writerow (columnOrder allData) rec).
  assert (∀ j field, columnOrder allData !! j = Some field →
            writerow (columnOrder allData) rec !! j = Some (default "" (rec !! field)))
    as Hcell.
  { intros j field Hj. unfold writerow. by rewrite list_lookup_fmap, Hj. }
  split_and!; [done| | |done|].
  - unfold written_cells, written_rows. rewrite !list_lookup_fmap, Hi. simpl.
    by rewrite (lookup_total_correct _ _ _ Hk).
  - unfold writerow. by rewrite length_fmap.
  - intros field value Hf.
    assert (field ∈ columnOrder allData) as Hcol.
    { apply columnOrder_elem. right. exists k, rec. by rewrite Hf. }
    apply list_elem_of_lookup_1 in Hcol as [j Hj]. exists j. split; [done|].
    by rewrite (Hcell j field Hj), Hf.
Qed.

Lemma written_cells_lossless_witness :
  let allData : gmap string (gmap string string) :=
    {["b_mask.tif" := {["filename" := "b_mask.tif"; "lacunarity" := "0.41"]};
      "a_mask.tif" := {["filename" := "a_mask.tif"; "density" := "0.7"]}]} in
  allData !! "b_mask.tif" = Some {["filename" := "b_mask.tif"; "lacunarity" := "0.41"]}
  ∧ columnOrder allData = ["filename"; "density"; "lacunarity"]
  ∧ written_cells allData = [["a_mask.tif"; "0.7"; ""]; ["b_mask.tif"; ""; "0.41"]]
  ∧ ∃ i cells,
      sorted (keys allData) !! i = Some "b_mask.tif"
      ∧ written_cells allData !! i = Some cells
      ∧ length cells = length (columnOrder allData)
      ∧ (∀ j field, columnOrder allData !! j = Some field →
           cells !! j
           = Some (default "" (({["filename" := "b_mask.tif"; "lacunarity" := "0.41"]}
                                 : gmap string string) !! field)))
      ∧ (∀ field value,
           ({["filename" := "b_mask.tif"; "lacunarity" := "0.41"]}
              : gmap string string) !! field = Some value →
           ∃ j, columnOrder allData !! j = Some field ∧ cells !! j = Some value).
Proof.
  intros allData.
  assert (allData !! "b_mask.tif"
          = Some {["filename" := "b_mask.tif"; "lacunarity" := "0.41"]}) as H
    by (by vm_compute).
  split_and!; [done|by vm_compute|by vm_compute|].
  exact (written_cells_lossless allData "b_mask.tif" _ H).
Defined.

(** *** The summary file of a folder *)

Lemma boxCountFile_None {A} (listing : list (string * A)) :
  boxCountFile listing = None ↔ Forall (λ e, is_summary_file e.1 = false) listing.
Proof.
  induction listing as [|[filename f] rest IH]; simpl; [done|].
  rewrite Forall_cons. simpl. fold (is_summary_file filename).
  destruct (is_summary_file filename); [|by rewrite IH; split; [|intros [_ ?]]].
  split; [done|by intros [? _]].
Qed.

Lemma boxCountFile_Some {A} (listing : list (string * A)) (filename : string) (f : A) :
  boxCountFile listing = Some (filename, f) →
  is_summary_file filename = true
  ∧ ∃ pre post, listing = pre ++ (filename, f) :: post
                ∧ Forall (λ e, is_summary_file e.1 = false) pre.
Proof.
  induction listing as [|[filename' f'] rest IH]; simpl; [done|].
  fold (is_summary_file filename').
  destruct (is_summary_file filename') eqn:E.
  - intros [= <- <-]. split; [done|]. by exists [], rest.
  - intros H. destruct (IH H) as (? & pre & post & -> & Hpre). split; [done|].
    exists ((filename', f') :: pre), post. split; [done|]. by apply Forall_cons.
Qed.

Lemma hasBoxCount_summary_file {A} (listing : list (string * A)) :
  is_Some (boxCountFile listing) → hasBoxCount (Some listing.*1) = true.
Proof.
  intros [[filename f] H]. apply boxCountFile_Some in H as (Hs & pre & post & -> & _).
  unfold hasBoxCount. apply existsb_exists. exists filename. split.
  - apply list_elem_of_In. rewrite fmap_app, fmap_cons. simpl.
    apply elem_of_app. right. by left.
  - unfold is_summary_file in Hs. by apply andb_prop in Hs as [? _].
Qed.

(** The file the folder pass reads is the first file of the listing whose
    name, in lower case, holds [box], [count] and [summary] and ends in
    [.txt]; a folder that has one is a folder the discovery found. A folder
    of the discovery without such a file is read from no file. *)
Theorem boxCountFile_first {A} (listing : list (string * A)) :
  match boxCountFile listing with
  | Some (filename, f) =>
      is_summary_name filename = true
      ∧ endswith ".txt" (str_lower filename) = true
      ∧ hasBoxCount (Some listing.*1) = true
      ∧ ∃ pre post, listing = pre ++ (filename, f) :: post
                    ∧ Forall (λ e, is_summary_file e.1 = false) pre
  | None => Forall (λ e, is_summary_file e.1 = false) listing
  end.
Proof.
  destruct (boxCountFile listing) as [[filename f]|] eqn:H.
  - pose proof (hasBoxCount_summary_file listing) as Hd. rewrite H in Hd.
    apply boxCountFile_Some in H as (Hs & Hsplit).
    unfold is_summary_file in Hs. apply andb_prop in Hs as [? ?].
    split_and!; [done..| |done]. by apply Hd.
  - by apply boxCountFile_None.
Qed.

(** *** What the run reads *)








End discovery_facts.

(** ** Cleaning and batching *)

Section prep_facts.
Import Skeleton Prep Shape.

(** *** The batches *)

(** With a positive batch size, batch [i] is the next [batchSize] files
    after the first [i * batchSize]. *)
Lemma batchFiles_chunk {A} (cleanedFiles : list A) (batchSize : Z) (i : nat) :
  (0 < batchSize)%Z →
  batchFiles cleanedFiles batchSize (Z.of_nat i)
  = take (Z.to_nat batchSize) (drop (i * Z.to_nat batchSize) cleanedFiles).
Proof.
  intros Hb. unfold batchFiles, py_slice.
  set (n := length cleanedFiles). set (b := Z.to_nat batchSize).
  set (startIdx := (Z.of_nat i * batchSize)%Z).
  set (endIdx := Z.min (startIdx + batchSize) (Z.of_nat n)).
  assert (Z.to_nat (slice_index (Z.of_nat n) startIdx) = (i * b) `min` n) as ->.
  { unfold slice_index, startIdx, b. destruct (Z.ltb_spec (Z.of_nat i * batchSize) 0); nia. }
  assert (Z.to_nat (slice_index (Z.of_nat n) endIdx
                    - Z.of_nat ((i * b) `min` n)) = b `min` (n - i * b)) as Hlen.
  { unfold slice_index, endIdx, startIdx, b.
    destruct (Z.ltb_spec (Z.min (Z.of_nat i * batchSize + batchSize) (Z.of_nat n)) 0); nia. }
  replace (slice_index (Z.of_nat n) startIdx) with (Z.of_nat ((i * b) `min` n)).
  2:{ unfold slice_index, startIdx, b.
      destruct (Z.ltb_spec (Z.of_nat i * batchSize) 0); nia. }
  rewrite Hlen. destruct (decide (i * b ≤ n)) as [Hle|Hgt].
  - rewrite (Nat.min_l (i * b)) by done.
    set (rest := drop (i * b) cleanedFiles).
    assert (length rest = n - i * b) as Hrest by apply length_drop.
    destruct (decide (b ≤ length rest)) as [H1|H1].
    + f_equal. lia.
    + rewrite !take_ge; [done|lia|lia].
  - rewrite (Nat.min_r (i * b)) by lia.
    replace (n - i * b) with 0 by lia. rewrite Nat.min_0_r, take_0.
    by rewrite (drop_ge _ (i * b)), take_nil by lia.
Qed.

Lemma chunks_concat {A} (l : list A) (b k : nat) :
  concat ((λ i, take b (drop (i * b) l)) <$> seq 0 k) = take (k * b) l.
Proof.
  induction k as [|k IH]; [by rewrite take_0|].
  rewrite seq_S, fmap_app, concat_app, IH. simpl.
  rewrite (right_id_L [] (++)), take_take_drop. f_equal. lia.
Qed.

(** The number of batches is the number of files divided by the batch
    size, rounded up. *)
Lemma numBatches_bounds (n batchSize : Z) :
  (0 < batchSize)%Z → (0 ≤ n)%Z →
  let k := ((n + batchSize - 1) / batchSize)%Z in
  (0 ≤ k ∧ n ≤ k * batchSize ∧ (0 < k → 0 < n ∧ (k - 1) * batchSize < n))%Z.
Proof.
  intros Hb Hn k. unfold k.
  pose proof (Z.div_mod (n + batchSize - 1) batchSize ltac:(lia)) as Hdm.
  pose proof (Z.mod_pos_bound (n + batchSize - 1) batchSize Hb) as Hmod.
  assert (0 ≤ (n + batchSize - 1) / batchSize)%Z by (apply Z.div_pos; lia).
  split_and!; [done|nia|nia].
Qed.

Lemma batches_positive {A} (cleanedFiles : list A) (batchSize : Z) :
  (0 < batchSize)%Z →
  batches cleanedFiles batchSize
  = Ok ((λ i, (batchName (Z.of_nat i),
               take (Z.to_nat batchSize) (drop (i * Z.to_nat batchSize) cleanedFiles)))
          <$> seq 0 (Z.to_nat ((Z.of_nat (length cleanedFiles) + batchSize - 1)
                               / batchSize))).
Proof.
  intros Hb. unfold batches, py_floordiv, py_range.
  assert ((batchSize =? 0)%Z = false) as -> by (apply Z.eqb_neq; lia).
  f_equal. rewrite <-list_fmap_compose. apply Forall_fmap_ext_1, Forall_forall.
  intros i _. simpl. by rewrite batchFiles_chunk.
Qed.

Lemma batches_concat {A} (cleanedFiles : list A) (batchSize : Z)
    (bs : list (string * list A)) :
  (0 < batchSize)%Z → batches cleanedFiles batchSize = Ok bs →
  concat bs.*2 = cleanedFiles.
Proof.
  intros Hb. rewrite batches_positive by done. intros [= <-].
  rewrite <-list_fmap_compose.
  pose proof (numBatches_bounds (Z.of_nat (length cleanedFiles)) batchSize Hb
                ltac:(lia)) as (? & ? & _).
  set (b := Z.to_nat batchSize).
  set (k := Z.to_nat ((Z.of_nat (length cleanedFiles) + batchSize - 1) / batchSize)).
  trans (take (k * b) cleanedFiles); [exact (chunks_concat cleanedFiles b k)|].
  apply take_ge. unfold k, b. nia.
Qed.

(** *** The cleaning loop *)

Lemma progress_line_no_error (i total : Z) : is_error_line (progress_line i total) = false.
Proof. reflexivity. Qed.

Lemma clean_file_counts (total : Z) (st : counts) (i : Z) (filename : string)
    (what : cleaning) :
  let st' := clean_file total st i filename what in
  let saved := if is_saved (filename, what) then 1%Z else 0%Z in
  cleaned st' = (cleaned st + saved)%Z
  ∧ failed st' = (failed st + (1 - saved))%Z
  ∧ Z.of_nat (length (filter (λ l, is_error_line l = true) (printed st')))
    = (Z.of_nat (length (filter (λ l, is_error_line l = true) (printed st)))
       + (1 - saved))%Z.
Proof.
  assert (∀ out : list string,
            out = printed st ∨ out = printed st ++ [progress_line i total] →
            length (filter (λ l, is_error_line l = true) out)
            = length (filter (λ l, is_error_line l = true) (printed st))) as Hout.
  { intros out [->| ->]; [done|].
    rewrite filter_app, filter_cons_False, filter_nil, (right_id_L [] (++)); [done|].
    by rewrite progress_line_no_error. }
  unfold clean_file.
  set (out := if ((i + 1) mod 100 =? 0)%Z then _ else _).
  specialize (Hout out ltac:(unfold out; destruct (_ =? _)%Z; auto)).
  destruct what; cbn [cleaned failed printed is_saved snd]; split_and!; try lia.
  - rewrite filter_app, length_app, Hout, filter_cons_True by done. simpl. lia.
  - rewrite filter_app, length_app, Hout, filter_cons_True by done. simpl. lia.
Qed.

Lemma clean_loop_counts (total : Z) (allFiles : list (string * cleaning))
    (st : counts) (i : Z) :
  let st' := clean_loop total st i allFiles in
  let saved := Z.of_nat (length (filter (λ f, is_saved f = true) allFiles)) in
  cleaned st' = (cleaned st + saved)%Z
  ∧ failed st' = (failed st + (Z.of_nat (length allFiles) - saved))%Z
  ∧ Z.of_nat (length (filter (λ l, is_error_line l = true) (printed st')))
    = (Z.of_nat (length (filter (λ l, is_error_line l = true) (printed st)))
       + (Z.of_nat (length allFiles) - saved))%Z.
Proof.
  revert st i. induction allFiles as [|[filename what] rest IH]; intros st i.
  - simpl. lia.
  - cbn [clean_loop].
    destruct (IH (clean_file total st i filename what) (i + 1)%Z) as (H1 & H2 & H3).
    destruct (clean_file_counts total st i filename what) as (G1 & G2 & G3).
    cbn zeta in *. rewrite H1, H2, H3, G1, G2, G3. rewrite filter_cons.
    destruct (is_saved (filename, what)) eqn:E.
    + rewrite decide_True by done. cbn [length]. lia.
    + rewrite decide_False by done. cbn [length]. lia.
Qed.

(** Every file is counted once, as cleaned if its image was saved and as
    failed otherwise, and each failure is reported by one line. *)
Theorem clean_all_counts (allFiles : list (string * cleaning)) :
  let st := clean_all allFiles in
  cleaned st = Z.of_nat (length (filter (λ f, is_saved f = true) allFiles))
  ∧ (cleaned st + failed st)%Z = Z.of_nat (length allFiles)
  ∧ Z.of_nat (length (filter (λ l, is_error_line l = true) (printed st))) = failed st.
Proof.
  intros st. unfold st, clean_all.
  destruct (clean_loop_counts (Z.of_nat (length allFiles)) allFiles
              {| cleaned := 0; failed := 0; printed := [] |} 0%Z) as (H1 & H2 & H3).
  cbn zeta in *. cbn [cleaned failed printed] in *.
  rewrite H1, H2, H3. rewrite filter_nil. simpl. lia.
Qed.

(** *** The run *)

(** Every TIFF file of [FracLacImages] lands in exactly one batch: when a
    file was cleaned and the batch size is positive, the batches one after
    the other are the TIFF files of the folder in ascending order of name. *)
Theorem main_batches_partition (inputListing : list (string * bool * cleaning))
    (cleanedListing : list (string * bool)) (batchSize : Z) :
  (∃ file, file ∈ allFiles inputListing ∧ is_saved file = true) →
  (0 < batchSize)%Z →
  ∃ bs, main inputListing cleanedListing batchSize
        = Ok (Some (clean_all (allFiles inputListing)), Some bs)
        ∧ concat bs.*2 = Combiner.sorted (tiff_files cleanedListing)
        ∧ Sorted String.le (concat bs.*2)
        ∧ concat bs.*2 ≡ₚ tiff_files cleanedListing.
Proof.
  intros (file & Hin & Hsaved) Hb. unfold main.
  set (allFiles := allFiles inputListing) in *.
  assert (0 < length (filter (λ f, is_saved f = true) allFiles)) as Hcount.
  { assert (file ∈ filter (λ f, is_saved f = true) allFiles) as H
      by (by apply list_elem_of_filter).
    destruct (filter _ allFiles); [by apply elem_of_nil in H|simpl; lia]. }
  assert (0 < length allFiles) as Hlen.
  { pose proof (length_filter (λ f, is_saved f = true) allFiles). lia. }
  destruct (clean_loop_counts (Z.of_nat (length allFiles)) allFiles
              {| cleaned := 0; failed := 0; printed := [] |} 0%Z) as (H1 & _).
  cbn zeta in H1. cbn [cleaned] in H1. fold (clean_all allFiles) in H1.
  assert ((Z.of_nat (length allFiles) =? 0)%Z = false) as -> by (apply Z.eqb_neq; lia).
  assert ((cleaned (clean_all allFiles) =? 0)%Z = false) as ->
    by (apply Z.eqb_neq; lia).
  set (cleanedFiles := Combiner.sorted (tiff_files cleanedListing)).
  destruct (batches cleanedFiles batchSize) as [bs|e] eqn:Hbs.
  - exists bs. rewrite (batches_concat _ _ _ Hb Hbs).
    split_and!; [done..|apply sorted_Sorted|apply sorted_Permutation].
  - by rewrite batches_positive in Hbs.
Qed.

Lemma main_batches_partition_witness :
  let inputListing :=
    [("c2_mask.tif", true, Saved); ("c1_mask.TIF", true, Saved);
     ("readme.txt", true, Saved); ("c3_mask.tif", true, Fails "boom");
     ("c4_mask.tiff", true, NotOpened)] in
  let cleanedListing := [("c2_mask.tif", true); ("notes.txt", true);
                         ("old.tif", false); ("c1_mask.TIF", true);
                         ("b0_mask.tiff", true)] in
  (∃ file, file ∈ allFiles inputListing ∧ is_saved file = true) ∧ (0 < 2)%Z
  ∧ main inputListing cleanedListing 2
    = Ok (Some {| cleaned := 2; failed := 2;
                  printed := ["  ERROR processing c3_mask.tif: boom";
                              "  ERROR: Cannot open c4_mask.tiff"] |},
          Some [("Batch_001", ["b0_mask.tiff"; "c1_mask.TIF"]);
                ("Batch_002", ["c2_mask.tif"])])
  ∧ ∃ bs, main inputListing cleanedListing 2
          = Ok (Some (clean_all (allFiles inputListing)), Some bs)
          ∧ concat bs.*2 = Combiner.sorted (tiff_files cleanedListing)
          ∧ Sorted String.le (concat bs.*2)
          ∧ concat bs.*2 ≡ₚ tiff_files cleanedListing.
Proof.
  intros inputListing cleanedListing.
  assert (∃ file, file ∈ allFiles inputListing ∧ is_saved file = true) as H1.
  { exists ("c2_mask.tif", Saved). split; [by left|done]. }
  assert (0 < 2)%Z as H2 by lia.
  split_and!; [done|done|by vm_compute|].
  exact (main_batches_partition inputListing cleanedListing 2 H1 H2).
Defined.

(** *** The size of a batch *)

(** With a positive batch size the number of batches is the number of files
    divided by the batch size, rounded up; batch [i] is named after [i + 1];
    no batch is empty or larger than the batch size, and every batch but the
    last is full. *)
Theorem batches_sizes {A} (cleanedFiles : list A) (batchSize : Z)
    (bs : list (string * list A)) :
  (0 < batchSize)%Z → batches cleanedFiles batchSize = Ok bs →
  Z.of_nat (length bs)
  = ((Z.of_nat (length cleanedFiles) + batchSize - 1) / batchSize)%Z
  ∧ ∀ i name files, bs !! i = Some (name, files) →
      name = batchName (Z.of_nat i)
      ∧ 0 < length files ∧ (Z.of_nat (length files) ≤ batchSize)%Z
      ∧ (S i < length bs → Z.of_nat (length files) = batchSize).
Proof.
  intros Hb. rewrite batches_positive by done. intros [= <-].
  pose proof (numBatches_bounds (Z.of_nat (length cleanedFiles)) batchSize Hb
                ltac:(lia)) as (Hk0 & Hk1 & Hk2).
  set (b := Z.to_nat batchSize) in *.
  set (k := Z.to_nat ((Z.of_nat (length cleanedFiles) + batchSize - 1) / batchSize)) in *.
  rewrite length_fmap, length_seq. split; [unfold k; lia|].
  intros i name files Hi.
  apply list_lookup_fmap_Some in Hi as (j & Heq & Hj).
  injection Heq as -> ->. apply lookup_seq in Hj as [-> Hik].
  rewrite Nat.add_0_l in *.
  split; [done|]. rewrite length_take, length_drop.
  destruct Hk2 as [Hn Hk2]; [unfold k in Hik; lia|].
  split_and!; [unfold k, b in *; nia|unfold b; lia|].
  intros Hlast. unfold k, b in *. nia.
Qed.

Lemma batches_sizes_witness :
  let cleanedFiles := ["a.tif"; "b.tif"; "c.tif"; "d.tif"; "e.tif"] in
  let bs := [("Batch_001", ["a.tif"; "b.tif"]); ("Batch_002", ["c.tif"; "d.tif"]);
             ("Batch_003", ["e.tif"])] in
  (0 < 2)%Z ∧ batches cleanedFiles 2 = Ok bs
  ∧ Z.of_nat (length bs) = ((Z.of_nat (length cleanedFiles) + 2 - 1) / 2)%Z
  ∧ ∀ i name files, bs !! i = Some (name, files) →
      name = batchName (Z.of_nat i)
      ∧ 0 < length files ∧ (Z.of_nat (length files) ≤ 2)%Z
      ∧ (S i < length bs → Z.of_nat (length files) = 2%Z).
Proof.
  intros cleanedFiles bs.
  assert (0 < 2)%Z as H1 by lia.
  assert (batches cleanedFiles 2 = Ok bs) as H2 by (by vm_compute).
  exact (conj H1 (conj H2 (batches_sizes cleanedFiles 2 bs H1 H2))).
Defined.

(** *** A batch size that is not positive *)

(** A batch size of 0 raises [ZeroDivisionError]. With a negative batch
    size no file is put into a batch: there is no batch at all when there
    are two files or more, and otherwise the batches made are empty. *)
Theorem batches_not_positive {A} (cleanedFiles : list A) (batchSize : Z) :
  (batchSize ≤ 0)%Z →
  if decide (batchSize = 0%Z)
  then batches cleanedFiles batchSize = Raise "ZeroDivisionError"
  else ∃ bs, batches cleanedFiles batchSize = Ok bs
             ∧ Forall (λ b, b.2 = []) bs
             ∧ (2 ≤ length cleanedFiles → bs = []).
Proof.
  intros Hb. destruct (decide (batchSize = 0%Z)) as [->|Hne]; [done|].
  unfold batches, py_floordiv.
  assert ((batchSize =? 0)%Z = false) as -> by by apply Z.eqb_neq.
  eexists. split; [done|].
  set (n := Z.of_nat (length cleanedFiles)).
  set (k := ((n + batchSize - 1) / batchSize)%Z).
  pose proof (Z.div_mod (n + batchSize - 1) batchSize Hne) as Hdm.
  pose proof (Z.mod_neg_bound (n + batchSize - 1) batchSize ltac:(lia)) as Hmod.
  fold k in Hdm.
  assert (2 ≤ n → k ≤ 0)%Z as Hmany by (intros; nia).
  split.
  - apply Forall_fmap, Forall_forall. intros i Hi. simpl.
    unfold py_range in Hi. apply list_elem_of_fmap in Hi as (j & -> & Hj).
    apply elem_of_seq in Hj.
    assert (n ≤ 1)%Z as Hn by lia.
    unfold batchFiles, py_slice. fold n.
    set (startIdx := (Z.of_nat j * batchSize)%Z).
    set (endIdx := Z.min (startIdx + batchSize) n).
    assert (slice_index n endIdx = 0%Z) as ->.
    { unfold slice_index, endIdx, startIdx.
      destruct (Z.ltb_spec (Z.min (Z.of_nat j * batchSize + batchSize) n) 0); nia. }
    assert (0 ≤ slice_index n startIdx)%Z as Hlo.
    { unfold slice_index. destruct (Z.ltb_spec startIdx 0); lia. }
    replace (Z.to_nat (0 - slice_index n startIdx)) with 0 by lia.
    apply take_0.
  - intros Hlen. unfold py_range. fold k.
    assert (Z.to_nat k = 0) as -> by (unfold n in Hmany; lia). reflexivity.
Qed.

Lemma batches_not_positive_witness :
  (-3 ≤ 0)%Z
  ∧ batches ["a.tif"] (-3) = Ok [("Batch_001", [])]
  ∧ batches ["a.tif"; "b.tif"] (-3) = Ok []
  ∧ if decide ((-3)%Z = 0%Z)
    then batches ["a.tif"] (-3) = Raise "ZeroDivisionError"
    else ∃ bs, batches ["a.tif"] (-3) = Ok bs
               ∧ Forall (λ b, b.2 = []) bs
               ∧ (2 ≤ length ["a.tif"] → bs = []).
Proof.
  assert (-3 ≤ 0)%Z as H by lia.
  split_and!; [done|by vm_compute|by vm_compute|].
  exact (batches_not_positive ["a.tif"] (-3) H).
Defined.

(** *** The names of the batch folders *)

Lemma decode_zeros (k : nat) (digits : string) :
  decode (zeros k +:+ digits) = decode digits.
Proof.
  unfold decode. induction k as [|k IH]; [done|].
  cbn [zeros]. rewrite app_cons. cbn [NilEmpty.uint_of_string].
  destruct (NilEmpty.uint_of_string (zeros k +:+ digits)) as [d|];
    destruct (NilEmpty.uint_of_string digits) as [d'|]; simpl in *; congruence.
Qed.

Lemma decode_str_int (p : positive) : decode (str_int (Z.pos p)) = Some (N.pos p).
Proof.
  unfold decode, str_int. cbn [Z.to_int NilZero.string_of_int].
  pose proof (DecimalPos.Unsigned.to_uint_nonnil p) as Hnil.
  unfold NilZero.string_of_uint. destruct (Pos.to_uint p) eqn:E; [done|..];
    rewrite <-E, NilEmpty.usu; simpl; by rewrite DecimalPos.Unsigned.of_to.
Qed.

Lemma batchName_inj (a b : Z) :
  (0 ≤ a)%Z → (0 ≤ b)%Z → batchName a = batchName b → a = b.
Proof.
  intros Ha Hb. unfold batchName. rewrite !app_cons, !app_nil_l. intros [= H].
  assert (∀ n, 0 ≤ n → decode (format_03d (n + 1)) = Some (Z.to_N (n + 1)))%Z as Hd.
  { intros n Hn. unfold format_03d.
    assert ((n + 1 <? 0)%Z = false) as -> by (apply Z.ltb_ge; lia).
    unfold zfill. rewrite decode_zeros.
    destruct (n + 1)%Z as [|p|p] eqn:E; [lia| |lia]. apply decode_str_int. }
  pose proof (Hd a Ha) as H1. rewrite H, (Hd b Hb) in H1.
  injection H1 as H1. lia.
Qed.

(** The batch folders of a run have different names, whatever the number
    of batches. *)
Theorem batchName_distinct {A} (cleanedFiles : list A) (batchSize : Z)
    (bs : list (string * list A)) :
  batches cleanedFiles batchSize = Ok bs → NoDup bs.*1.
Proof.
  unfold batches. destruct (py_floordiv _ _) as [numBatches|e]; [|done].
  intros [= <-]. rewrite <-list_fmap_compose. unfold py_range.
  rewrite <-list_fmap_compose. apply NoDup_fmap_2_strong; [|apply NoDup_seq].
  intros i j _ _ H. simpl in H. apply batchName_inj in H; lia.
Qed.

Lemma batchName_distinct_witness :
  let bs := [("Batch_001", ["a.tif"; "b.tif"]); ("Batch_002", ["c.tif"])] in
  batches ["a.tif"; "b.tif"; "c.tif"] 2 = Ok bs ∧ NoDup bs.*1.
Proof.
  intros bs.
  assert (batches ["a.tif"; "b.tif"; "c.tif"] 2 = Ok bs) as H by (by vm_compute).
  exact (conj H (batchName_distinct _ _ _ H)).
Defined.

(** Three digits up to batch 999, more from batch 1000 on. *)
Example batchName_digits :
  batchName 0 = "Batch_001" ∧ batchName 998 = "Batch_999"
  ∧ batchName 999 = "Batch_1000".
Proof. by vm_compute. Qed.

End prep_facts.

(** ** Further properties of the skeleton metrics and the results table *)

Section results_facts.
Import PyStr Skeleton Results Aux.
Local Open Scope Qc_scope.

(** *** The metrics *)

Lemma avgBranchLength_Ok (g : call (option (list Qc))) (numBranches numSlabVoxels : Z)
    (pixelSize : Qc) :
  ∃ avg, avgBranchLength g numBranches numSlabVoxels pixelSize = Ok avg.
Proof.
  unfold avgBranchLength. destruct g as [[[|x l]|]|]; try by eexists.
  destruct (0 <? numBranches)%Z eqn:Hb; [|by eexists].
  destruct (0 <? numSlabVoxels)%Z; [|by eexists]. simpl.
  rewrite py_div_nonzero; [by eexists|].
  apply Qc_of_Z_nonzero. apply Z.ltb_lt in Hb. lia.
Qed.

Lemma analyzeSkeleton_Ok (a : analysis) :
  ∃ avg density,
    avgBranchLength (getAverageBranchLength a) (first_or_zero (branches a))
      (first_or_zero (slabVoxels a)) (pixelSize a) = Ok avg
    ∧ branching_density (calibrated_area (pixel_count (mask a)) (pixelSize a))
        (calibrated_area (pixel_count (skel a)) (pixelSize a)) = Ok density
    ∧ analyzeSkeleton a
      = Ok {| cell_name := cellName (baseName a);
              mask_area_um2 := calibrated_area (pixel_count (mask a)) (pixelSize a);
              num_branches := first_or_zero (branches a);
              num_slab_voxels := first_or_zero (slabVoxels a);
              avg_branch_length_um := avg;
              total_skeleton_length_um :=
                totalSkeletonLength avg (first_or_zero (branches a))
                  (first_or_zero (slabVoxels a)) (pixelSize a);
              skeleton_area_um2 :=
                calibrated_area (pixel_count (skel a)) (pixelSize a);
              branching_density_value := density |}.
Proof.
  destruct (avgBranchLength_Ok (getAverageBranchLength a) (first_or_zero (branches a))
              (first_or_zero (slabVoxels a)) (pixelSize a)) as [avg Havg].
  assert (∃ density,
            branching_density (calibrated_area (pixel_count (mask a)) (pixelSize a))
              (calibrated_area (pixel_count (skel a)) (pixelSize a)) = Ok density)
    as [density Hd].
  { unfold branching_density. destruct (Qc_ltb 0 _) eqn:Hx; [|by eexists].
    apply Qc_ltb_lt in Hx. rewrite py_div_nonzero; [by eexists|].
    by apply Qclt_positive_nonzero. }
  exists avg, density. split_and!; [done..|].
  unfold analyzeSkeleton. by rewrite Havg, Hd.
Qed.

Local Close Scope Qc_scope.

(** *** The names of the skeleton images *)

Lemma endswith_split (p s : string) : endswith p s = true → ∃ pre, s = pre +:+ p.
Proof.
  induction s as [|c r IH]; cbn [endswith].
  - rewrite orb_false_r. intros [Hl Hs]%andb_prop.
    destruct p; [by exists ""|done].
  - intros [[Hl Hs]%andb_prop|H]%orb_prop.
    + exists "". rewrite app_nil_l. apply Nat.eqb_eq in Hl.
      pose proof (startswith_app _ _ Hs) as Ht.
      set (t := drop (String.length p) (String c r)) in Ht.
      rewrite Ht, app_length in Hl.
      assert (t = "") as E by (apply length_zero; lia).
      by rewrite Ht, E, app_nil_r.
    + destruct (IH H) as [pre ->]. by exists (String c pre).
Qed.

Lemma endswith_app_long (p s t : string) :
  String.length p ≤ String.length t → endswith p (s +:+ t) = endswith p t.
Proof.
  intros Hl. induction s as [|c s IH]; [done|].
  rewrite app_cons. cbn [endswith]. rewrite IH.
  assert ((String.length (String c (s +:+ t)) =? String.length p) = false) as ->.
  { apply Nat.eqb_neq. cbn [String.length]. rewrite app_length. lia. }
  done.
Qed.

Lemma endswith_nonempty (p s : string) : p ≠ "" → endswith p s = true → s ≠ "".
Proof. intros Hp H ->. destruct p; [done|]. by vm_compute in H. Qed.

Lemma ends_with_newline_app (s t : string) :
  t ≠ "" → ends_with_newline (s +:+ t) = ends_with_newline t.
Proof.
  intros Ht. induction s as [|c s IH]; [done|].
  rewrite app_cons. cbn [ends_with_newline].
  destruct (s +:+ t) eqn:E; [|done].
  destruct s; [by rewrite app_nil_l in E|done].
Qed.

Lemma take_drop_app (n : nat) (s : string) : take n s +:+ drop n s = s.
Proof.
  revert s. induction n as [|n IH]; intros [|c s]; try done.
  cbn [take drop]. by rewrite app_cons, IH.
Qed.

Lemma strip_suffix_is_Some (suffix : string → bool) (pre t : string) :
  suffix t = true → is_Some (strip_suffix suffix (pre +:+ t)).
Proof.
  intros Ht. induction pre as [|c pre IH].
  - rewrite app_nil_l. destruct t; simpl; rewrite Ht; eauto.
  - rewrite app_cons. cbn [strip_suffix].
    destruct (suffix (String c (pre +:+ t))); [eauto|].
    destruct IH as [stem ->]. simpl. eauto.
Qed.

Lemma is_area_suffix_mask (ok : nat → bool) (t : string) :
  is_area_suffix ok t = true → endswith "_mask.tif" t = true.
Proof.
  unfold is_area_suffix. intros [[_ _]%andb_prop He]%andb_prop.
  apply String.eqb_eq in He.
  rewrite <-(take_drop_app 5 t), <-(take_drop_app (digit_run (drop 5 t)) (drop 5 t)), He.
  rewrite <-app_assoc. apply endswith_app.
Qed.

(** The cell name of a mask file is the file name without a suffix that
    ends in [_mask.tif]. *)
Lemma cellName_mask_file (maskFile : string) :
  endswith "_mask.tif" maskFile = true →
  ∃ suffix, maskFile = cellName maskFile +:+ suffix
            ∧ endswith "_mask.tif" suffix = true.
Proof.
  intros He. destruct (endswith_split _ _ He) as [pre Hpre].
  assert (ends_with_newline maskFile = false) as Hnl.
  { rewrite Hpre, ends_with_newline_app; done. }
  assert (∃ stem, mask_stem maskFile = Some stem
                  ∧ maskFile = stem +:+ "_mask.tif") as (stem0 & Hm & Hstem0).
  { unfold mask_stem.
    destruct (strip_suffix_is_Some (String.eqb "_mask.tif") pre "_mask.tif" eq_refl)
      as [stem Hs].
    rewrite <-Hpre in Hs. exists stem. split; [done|].
    apply strip_suffix_Some in Hs as (t & Ht & Heq).
    apply String.eqb_eq in Heq. by rewrite Heq. }
  rewrite (cellName_eq _ Hnl), Hm. simpl.
  destruct (area_stem maskFile) as [stem|] eqn:Ha.
  - destruct (endswith "_mask" stem).
    + exists "_mask.tif". by rewrite <-Hstem0.
    + apply strip_suffix_Some in Ha as (t & Ht & Hs). exists t. split; [done|].
      by eapply is_area_suffix_mask.
  - exists "_mask.tif". by rewrite <-Hstem0.
Qed.

(** For every mask file of the run the cell name is shorter than the file
    name and starts it, and the skeleton image gets a name that is no mask
    file: a skeleton written into the folder of the masks overwrites no
    mask and is not taken for one. *)
Theorem skeleton_file_apart (listing : list string) (maskFile : string) :
  maskFile ∈ maskFiles listing →
  (∃ suffix, maskFile = cellName maskFile +:+ suffix
             ∧ endswith "_mask.tif" suffix = true)
  ∧ cellName maskFile ≠ maskFile
  ∧ endswith "_mask.tif" (skeleton_file maskFile) = false
  ∧ skeleton_file maskFile ∉ maskFiles listing.
Proof.
  intros [He _]%list_elem_of_filter.
  destruct (cellName_mask_file maskFile He) as (suffix & Hsplit & Hs).
  assert (endswith "_mask.tif" (skeleton_file maskFile) = false) as Hskel.
  { unfold skeleton_file. by rewrite endswith_app_long by (simpl; lia). }
  split_and!.
  - by exists suffix.
  - intros E. rewrite E in Hsplit. apply (f_equal String.length) in Hsplit.
    rewrite app_length in Hsplit.
    by apply (endswith_nonempty "_mask.tif" suffix), length_zero; [..|lia].
  - done.
  - intros [H _]%list_elem_of_filter. congruence.
Qed.

Lemma skeleton_file_apart_witness :
  let listing := ["c7_area455_mask.tif"; "c7_skeleton.tif"; "c8_mask.tif"; "notes.txt"] in
  "c7_area455_mask.tif" ∈ maskFiles listing
  ∧ skeleton_file "c7_area455_mask.tif" = "c7_skeleton.tif"
  ∧ (∃ suffix, "c7_area455_mask.tif" = cellName "c7_area455_mask.tif" +:+ suffix
               ∧ endswith "_mask.tif" suffix = true)
  ∧ cellName "c7_area455_mask.tif" ≠ "c7_area455_mask.tif"
  ∧ endswith "_mask.tif" (skeleton_file "c7_area455_mask.tif") = false
  ∧ skeleton_file "c7_area455_mask.tif" ∉ maskFiles listing.
Proof.
  intros listing.
  assert ("c7_area455_mask.tif" ∈ maskFiles listing) as H by (vm_compute; by left).
  exact (conj H (conj eq_refl (skeleton_file_apart listing _ H))).
Defined.

(** *** The results table *)

Lemma columns_NoDup : NoDup columns ∧ length columns = 23.
Proof. split; [|done]. by apply (bool_decide_unpack _); vm_compute. Qed.

(** The dictionary [analyzeSkeleton] returns has the columns of the results
    table as its keys, all 23 and no other. *)
Lemma metrics_dict_columns (a : analysis) (g : geometry) (t : topology) :
  ∃ rec, metrics_dict a g t = Ok rec
         ∧ dom rec = list_to_set columns
         ∧ rec !! "cell_name" = Some (Str (cellName (baseName a))).
Proof.
  destruct (analyzeSkeleton_Ok a) as (avg & density & _ & _ & Ha).
  unfold metrics_dict. rewrite Ha. eexists. split; [done|]. split.
  - rewrite !dom_insert_L, dom_empty_L. by apply (bool_decide_unpack _); vm_compute.
  - by rewrite !lookup_insert_ne, lookup_insert_eq by done.
Qed.

Lemma writerow_columns (rec : gmap string value) :
  dom rec = list_to_set columns →
  ∃ cells, writerow columns rec = Ok cells
           ∧ length cells = 23 ∧ Forall is_Some cells
           ∧ cells !! 0 = Some (rec !! "cell_name").
Proof.
  intros Hdom. exists ((λ key, rec !! key) <$> columns). split_and!.
  - unfold writerow. rewrite Hdom. by rewrite decide_True.
  - by rewrite length_fmap.
  - apply Forall_fmap, Forall_forall. intros key Hkey. simpl.
    apply elem_of_dom. rewrite Hdom. by apply elem_of_list_to_set.
  - done.
Qed.

Lemma writerows_columns (rows : list (gmap string value)) :
  Forall (λ rec, dom rec = list_to_set columns) rows →
  ∃ table, writerows columns rows = Ok table
           ∧ Forall (λ cells, length cells = 23 ∧ Forall is_Some cells) table
           ∧ (λ cells, cells !! 0) <$> table
             = (λ rec : gmap string value, Some (rec !! "cell_name")) <$> rows.
Proof.
  induction 1 as [|rec rows Hrec Hrows (table & Ht & Hcells & Hnames)].
  - by exists [].
  - destruct (writerow_columns rec Hrec) as (cells & Hw & Hl & Hs & Hn).
    exists (cells :: table). cbn [writerows]. rewrite Hw, Ht.
    split_and!; [done|by constructor|]. by rewrite !fmap_cons, Hn, Hnames.
Qed.

Lemma analyze_all_columns (open : string → option opened) (pixelSize : Qc)
    (files : list string) :
  ∃ allResults,
    analyze_all open pixelSize files = Ok allResults
    ∧ Forall (λ rec, dom rec = list_to_set columns) allResults
    ∧ (λ rec : gmap string value, rec !! "cell_name") <$> allResults
      = (λ f, Some (Str (cellName f))) <$> filter (λ f, is_Some (open f)) files.
Proof.
  induction files as [|maskFile rest (allResults & Hrest & Hdom & Hnames)].
  - by exists [].
  - cbn [analyze_all]. rewrite Hrest, filter_cons.
    unfold analyzeSkeleton_file. destruct (open maskFile) as [o|] eqn:Ho.
    + rewrite decide_True by done.
      set (a := {| baseName := maskFile; pixelSize := pixelSize; mask := pixels o;
                   skel := skeleton o; branches := answer_branches o;
                   slabVoxels := answer_slabs o;
                   getAverageBranchLength := answer_average o |}).
      destruct (metrics_dict_columns a (measured o) (answers o)) as (rec & -> & Hd & Hc).
      exists (rec :: allResults). split_and!; [done|by constructor|].
      by rewrite !fmap_cons, Hc, Hnames.
    + rewrite decide_False by (by intros [? ?]). by exists allResults.
Qed.

(** The run of the skeleton script never stops with an error of its own (no
    division by zero, no [ValueError] of the writer): the table has a row
    for each mask file that opens, in the order of the listing, and every
    row has a value in each of the 23 columns, the first being the cell name
    of its mask file; nothing is written when no mask file opens. *)
Theorem main_results_table (listing : list string) (open : string → option opened)
    (pixelSize : Qc) :
  let opening := filter (λ f, is_Some (open f)) (maskFiles listing) in
  ∃ res, Results.main listing open pixelSize = Ok res
         ∧ match res with
           | None => opening = []
           | Some (header, rows) =>
               header = columns ∧ NoDup header ∧ length header = 23
               ∧ length rows = length opening
               ∧ Forall (λ cells, length cells = 23 ∧ Forall is_Some cells) rows
               ∧ (λ cells, cells !! 0) <$> rows
                 = (λ f, Some (Some (Str (cellName f)))) <$> opening
           end.
Proof.
  intros opening. unfold Results.main.
  destruct (analyze_all_columns open pixelSize (maskFiles listing))
    as (allResults & Ha & Hdom & Hnames).
  fold opening in Hnames.
  destruct (length (maskFiles listing) =? 0) eqn:Hlen.
  { exists None. split; [done|]. apply Nat.eqb_eq in Hlen.
    unfold opening. by destruct (maskFiles listing). }
  rewrite Ha. destruct allResults as [|rec allResults].
  { exists None. split; [done|]. by destruct opening. }
  cbn [length Nat.ltb Nat.leb].
  destruct (writerows_columns _ Hdom) as (table & -> & Hcells & Hfirst).
  exists (Some (columns, table)). split; [done|].
  destruct columns_NoDup as [Hnd Hl]. split_and!; [done..| |done|].
  - apply (f_equal length) in Hfirst, Hnames. rewrite !length_fmap in *. congruence.
  - rewrite Hfirst.
    trans (Some <$> ((λ rec : gmap string value, rec !! "cell_name")
                       <$> (rec :: allResults))).
    + by rewrite <-list_fmap_compose.
    + by rewrite Hnames, <-list_fmap_compose.
Qed.

End results_facts.

(** ** The runs as a whole *)

Section run_facts.
Import Skeleton PyStr Recover Combiner Aux Shape.

(** *** The table only grows *)

Lemma process_row_grows (cols : gmap string string) (r : row)
    (data : gmap string (gmap string string)) (k field : string)
    (rec : gmap string string) :
  data !! k = Some rec → is_Some (rec !! field) →
  ∃ rec', process_row cols r data !! k = Some rec' ∧ is_Some (rec' !! field).
Proof.
  intros Hk Hf. rewrite process_row_eq.
  destruct (decide (extractFilenameFromRow r = k)) as [E|Hne].
  - rewrite E, lookup_insert_eq, Hk. eexists. split; [done|].
    apply lookup_union_is_Some. by right.
  - rewrite lookup_insert_ne by done. by exists rec.
Qed.

Lemma merge_folder_grows (folderData allData : gmap string (gmap string string))
    (k field : string) (rec : gmap string string) :
  allData !! k = Some rec → is_Some (rec !! field) →
  ∃ rec', merge_folder folderData allData !! k = Some rec' ∧ is_Some (rec' !! field).
Proof.
  intros Hk Hf. rewrite merge_folder_lookup, Hk.
  destruct (folderData !! k) as [m|]; [|by exists rec].
  eexists. split; [done|]. apply lookup_union_is_Some. by right.
Qed.

(** A field once stored for a key stays: no later row and no later folder
    removes a key or a field of its record (a later value may replace the
    value). *)
Theorem table_grows (allData : gmap string (gmap string string)) (k field : string)
    (rec : gmap string string) :
  allData !! k = Some rec → is_Some (rec !! field) →
  (∀ cols r, ∃ rec', process_row cols r allData !! k = Some rec'
                     ∧ is_Some (rec' !! field))
  ∧ (∀ folders printed,
       ∃ rec', (process_folders folders allData printed).1 !! k = Some rec'
               ∧ is_Some (rec' !! field)).
Proof.
  intros Hk Hf. split; [intros cols r; by eapply process_row_grows|].
  intros folders. revert allData rec Hk Hf.
  induction folders as [|[f|] folders IH]; intros allData rec Hk Hf printed.
  - by exists rec.
  - rewrite process_folders_cons.
    destruct (merge_folder_grows (rows_read f) allData k field rec Hk Hf)
      as (rec' & Hk' & Hf').
    by eapply IH.
  - by eapply IH.
Qed.

Lemma table_grows_witness :
  let allData : gmap string (gmap string string) :=
    {["c7_mask.tif" := {["filename" := "c7_mask.tif"; "density" := "0.3"]}]} in
  let f := Opened (Some ["1. Image"; "131. Density"; "87. L"])
             [Row [("1. Image", Some "c7_mask.tif"); ("131. Density", Some "0.4");
                   ("87. L", Some "0.2")]] in
  allData !! "c7_mask.tif" = Some {["filename" := "c7_mask.tif"; "density" := "0.3"]}
  ∧ (process_folders [Some f] allData []).1 !! "c7_mask.tif"
    = Some {["filename" := "c7_mask.tif"; "density" := "0.4"; "lacunarity" := "0.2"]}
  ∧ (∀ cols r, ∃ rec', process_row cols r allData !! "c7_mask.tif" = Some rec'
                       ∧ is_Some (rec' !! "density"))
  ∧ (∀ folders printed,
       ∃ rec', (process_folders folders allData printed).1 !! "c7_mask.tif" = Some rec'
               ∧ is_Some (rec' !! "density")).
Proof.
  intros allData f.
  assert (allData !! "c7_mask.tif"
          = Some {["filename" := "c7_mask.tif"; "density" := "0.3"]}) as H1
    by (by vm_compute).
  assert (is_Some (({["filename" := "c7_mask.tif"; "density" := "0.3"]}
                     : gmap string string) !! "density")) as H2
    by (by eexists; vm_compute).
  split_and!; [done|by vm_compute|..];
    apply (table_grows allData "c7_mask.tif" "density" _ H1 H2).
Defined.

(** *** The errors printed *)

Lemma process_folders_printed (folders : list (option source_file))
    (allData : gmap string (gmap string string)) (printed : list string) :
  (process_folders folders allData printed).2
  = printed ++ (error_line <$> omap (λ f, f ≫= failure) folders).
Proof.
  revert allData printed.
  induction folders as [|[f|] folders IH]; intros allData printed.
  - simpl. by rewrite (right_id_L [] (++)).
  - rewrite process_folders_cons, IH. cbn [omap list_omap mbind option_bind].
    destruct (failure f) as [e|]; simpl.
    + by rewrite <-(assoc_L (++)).
    + by rewrite (right_id_L [] (++)).
  - apply IH.
Qed.

(** The lines [processFracLacFile] prints over the run: one for each summary
    file whose reading fails, with the cause, in the order the folders are
    processed, and none for a file that is read to its end. *)
Theorem main_error_log (fracLacFolders : list (string * option source_file)) :
  (main fracLacFolders).1.2
  = error_line <$> omap (λ p, p.2 ≫= failure) (sorted_folders fracLacFolders).
Proof.
  assert (∀ l : list (string * option source_file),
            omap (λ f, f ≫= failure) l.*2 = omap (λ p, p.2 ≫= failure) l) as Hsnd.
  { induction l as [|[folder f] l IH]; [done|].
    rewrite fmap_cons. cbn [omap list_omap snd]. by rewrite IH. }
  unfold main.
  pose proof (process_folders_printed (sorted_folders fracLacFolders).*2 ∅ []) as H.
  destruct (process_folders (sorted_folders fracLacFolders).*2 ∅ [])
    as [allData printed].
  cbn [fst snd] in *. by rewrite H, (left_id_L [] (++)), Hsnd.
Qed.

(** *** When the preparation stops with an error *)

(** With the calls into the file system returning, the preparation run
    stops with [ZeroDivisionError] exactly when the batch size is 0 and a file
    was cleaned: the division comes after the cleaning, and the run returns
    before it when there is no TIFF file or no file was cleaned. *)
Theorem prep_main_raises (inputListing : list (string * bool * Prep.cleaning))
    (cleanedListing : list (string * bool)) (batchSize : Z) :
  Prep.main inputListing cleanedListing batchSize = Raise "ZeroDivisionError" ↔
  batchSize = 0%Z
  ∧ ∃ file, file ∈ Prep.allFiles inputListing ∧ is_saved file = true.
Proof.
  unfold Prep.main. set (allFiles := Prep.allFiles inputListing).
  destruct (clean_loop_counts (Z.of_nat (length allFiles)) allFiles
              {| Prep.cleaned := 0; Prep.failed := 0; Prep.printed := [] |} 0%Z)
    as (H1 & _).
  cbn zeta in H1. cbn [Prep.cleaned] in H1. fold (Prep.clean_all allFiles) in H1.
  assert ((∃ file, file ∈ allFiles ∧ is_saved file = true)
          ↔ Prep.cleaned (Prep.clean_all allFiles) ≠ 0%Z) as Hsaved.
  { rewrite H1. split.
    - intros (file & Hin & Hs).
      assert (file ∈ filter (λ f, is_saved f = true) allFiles) as H
        by (by apply list_elem_of_filter).
      destruct (filter _ allFiles); [by apply elem_of_nil in H|simpl; lia].
    - intros Hne. destruct (filter (λ f, is_saved f = true) allFiles)
        as [|file l] eqn:E; [done|].
      assert (file ∈ filter (λ f, is_saved f = true) allFiles) as H
        by (rewrite E; by left).
      apply list_elem_of_filter in H as [? ?]. by exists file. }
  destruct (Z.eqb_spec (Z.of_nat (length allFiles)) 0) as [Hlen|Hlen].
  { split; [done|]. intros (_ & file & Hin & _).
    destruct allFiles; [by apply elem_of_nil in Hin|done]. }
  destruct (Z.eqb_spec (Prep.cleaned (Prep.clean_all allFiles)) 0) as [Hc|Hc].
  { split; [done|]. intros (_ & Hex). by apply Hsaved in Hex. }
  unfold Prep.batches, Prep.py_floordiv.
  destruct (Z.eqb_spec batchSize 0) as [->|Hb].
  - split; [intros _|done]. split; [done|]. by apply Hsaved.
  - split; [done|]. by intros (? & _).
Qed.

End run_facts.
